(** * prometheus-kafka-consumer-group-exporter: the exporter's engine

    A shallow embedding of [prometheus_kafka_consumer_group_exporter/__init__.py]
    and the properties of its wire decoder, metric store, topology tracker,
    highwater poller and offset stream consumer.

    Python values are modelled as follows.
    - [bytes] is a list of [Byte.byte].
    - [int] is [Z] (unbounded, as in Python).
    - [str] is the list of its Unicode code points, [pystr].
    - [float] is a primitive binary64 float.
    - a raised exception is the [Raise] case of [result]; code that mutates
      the module's globals threads a [World] and keeps the mutations made
      before a raise. *)

From Stdlib Require Import ZArith Lia String Ascii.
From Stdlib Require Import DecimalString Decimal DecimalZ DecimalPos.
From Stdlib Require Strings.Byte.
From Stdlib Require Import Floats.PrimFloat Floats.SpecFloat Floats.FloatOps.
From stdpp Require Import base option list gmap strings.

Open Scope Z_scope.

(* ===================================================================== *)
(** * Definitions *)
(* ===================================================================== *)

(** ** Exceptions and results *)

(** The exception classes the program can meet. [KeyboardInterrupt] and
    [SystemExit] derive from [BaseException] only; every other class
    derives from [Exception]. *)
Inductive exn : Set :=
  | StructError          (* struct.error *)
  | UnicodeDecodeError
  | UnicodeEncodeError
  | TypeError
  | ValueError
  | IndexError
  | KeyError
  | OverflowError
  | KafkaError           (* kafka.errors.KafkaError and its subclasses *)
  | KeyboardInterrupt
  | SystemExit.

Definition is_Exception (e : exn) : bool :=
  match e with
  | KeyboardInterrupt | SystemExit => false
  | _ => true
  end.

Inductive result (A : Type) : Type :=
  | Ok (a : A)
  | Raise (e : exn).
Arguments Ok {A} a.
Arguments Raise {A} e.

#[global] Instance result_ret : MRet result := fun _ a => Ok a.
#[global] Instance result_bind : MBind result := fun _ _ f m =>
  match m with
  | Ok a => f a
  | Raise e => Raise e
  end.

(** ** Bytes and [struct.unpack_from] *)

Definition bytes := list Byte.byte.

Definition byte_val (b : Byte.byte) : Z := Z.of_N (Byte.to_N b).

Definition byte_of_Z (z : Z) : Byte.byte :=
  match Byte.of_N (Z.to_N (z mod 256)) with
  | Some b => b
  | None => Byte.x00
  end.

(** Big-endian value of a byte sequence, read as an unsigned number. *)
Definition be_unsigned (bs : bytes) : Z :=
  fold_left (fun acc b => acc * 256 + byte_val b) bs 0.

(** Two's complement reading of an unsigned [w]-bit number. *)
Definition to_signed (w : Z) (u : Z) : Z :=
  if u <? 2 ^ (w - 1) then u else u - 2 ^ w.

(** [unpack_from('>h' | '>i' | '>q', bytes)[0]]: a big-endian signed
    integer of [width] bytes read at offset 0; [struct.error] when the
    buffer is shorter than [width]. *)
Definition unpack_from (width : nat) (bs : bytes) : result Z :=
  if (length bs <? width)%nat then Raise StructError
  else Ok (to_signed (8 * Z.of_nat width) (be_unsigned (take width bs))).

(** ** Slices *)

(** The bound [k] of a slice [s[:k]] or [s[k:]] on a sequence of length
    [len]: a negative bound counts from the end, and bounds are clipped to
    the sequence ([take] and [drop] clip at [len]). *)
Definition slice_index (len : nat) (k : Z) : nat :=
  if k <? 0 then Z.to_nat (Z.of_nat len + k) else Z.to_nat k.

(** [s[:k]] *)
Definition slice_to {A} (k : Z) (s : list A) : list A :=
  take (slice_index (length s) k) s.

(** [s[k:]] *)
Definition slice_from {A} (k : Z) (s : list A) : list A :=
  drop (slice_index (length s) k) s.

(** ** Strings and UTF-8 *)

Definition pystr := list Z.

(** A string literal of the source (ASCII). *)
Definition py (s : string) : pystr :=
  map (fun a => Z.of_N (N_of_ascii a)) (list_ascii_of_string s).

Definition is_continuation (v : Z) : bool := (0x80 <=? v) && (v <? 0xC0).

Definition is_surrogate (c : Z) : bool := (0xD800 <=? c) && (c <=? 0xDFFF).

(** [bytes.decode('utf-8')] in strict mode: [None] stands for
    [UnicodeDecodeError]. Overlong forms, surrogates, code points above
    U+10FFFF, stray continuation bytes and truncated sequences are
    rejected. *)
Fixpoint utf8_decode (bs : bytes) : option pystr :=
  match bs with
  | [] => Some []
  | b0 :: r0 =>
    let v0 := byte_val b0 in
    if v0 <? 0x80 then cons v0 <$> utf8_decode r0
    else if v0 <? 0xC0 then None
    else if v0 <? 0xE0 then
      match r0 with
      | b1 :: r1 =>
        let v1 := byte_val b1 in
        let c := (v0 - 0xC0) * 64 + (v1 - 0x80) in
        if is_continuation v1 && (0x80 <=? c)
        then cons c <$> utf8_decode r1 else None
      | _ => None
      end
    else if v0 <? 0xF0 then
      match r0 with
      | b1 :: b2 :: r2 =>
        let v1 := byte_val b1 in
        let v2 := byte_val b2 in
        let c := (v0 - 0xE0) * 4096 + (v1 - 0x80) * 64 + (v2 - 0x80) in
        if is_continuation v1 && is_continuation v2
           && (0x800 <=? c) && negb (is_surrogate c)
        then cons c <$> utf8_decode r2 else None
      | _ => None
      end
    else if v0 <? 0xF8 then
      match r0 with
      | b1 :: b2 :: b3 :: r3 =>
        let v1 := byte_val b1 in
        let v2 := byte_val b2 in
        let v3 := byte_val b3 in
        let c := (v0 - 0xF0) * 262144 + (v1 - 0x80) * 4096
                 + (v2 - 0x80) * 64 + (v3 - 0x80) in
        if is_continuation v1 && is_continuation v2 && is_continuation v3
           && (0x10000 <=? c) && (c <=? 0x10FFFF)
        then cons c <$> utf8_decode r3 else None
      | _ => None
      end
    else None
  end.

Definition decode_utf8 (bs : bytes) : result pystr :=
  match utf8_decode bs with
  | Some s => Ok s
  | None => Raise UnicodeDecodeError
  end.

(** ** The wire decoder *)

Definition read_short (bs : bytes) : result (Z * bytes) :=
  num ← unpack_from 2 bs;
  let remaining := slice_from 2 bs in
  Ok (num, remaining).

Definition read_int (bs : bytes) : result (Z * bytes) :=
  num ← unpack_from 4 bs;
  let remaining := slice_from 4 bs in
  Ok (num, remaining).

Definition read_long_long (bs : bytes) : result (Z * bytes) :=
  num ← unpack_from 8 bs;
  let remaining := slice_from 8 bs in
  Ok (num, remaining).

Definition read_string (bs : bytes) : result (pystr * bytes) :=
  '(length, remaining) ← read_short bs;
  string ← decode_utf8 (slice_to length remaining);
  let remaining := slice_from length remaining in
  Ok (string, remaining).

(** The tuple [(version, group, topic, partition)]. *)
Definition key_tuple : Type := Z * pystr * pystr * Z.

(** [parse_key] returns the tuple, or [None] by falling off its end. *)
Definition parse_key (bs : bytes) : result (option key_tuple) :=
  '(version, remaining_key) ← read_short bs;
  if (version =? 1) || (version =? 0) then
    '(group, remaining_key) ← read_string remaining_key;
    '(topic, remaining_key) ← read_string remaining_key;
    '(partition, remaining_key) ← read_int remaining_key;
    Ok (Some (version, group, topic, partition))
  else Ok None.

(** The tuples [parse_value] returns: four fields for version 0, five for
    version 1. *)
Inductive value_tuple : Type :=
  | Value4 (version offset : Z) (metadata : pystr) (timestamp : Z)
  | Value5 (version offset : Z) (metadata : pystr)
           (commit_timestamp expire_timestamp : Z).

Definition parse_value (bs : bytes) : result (option value_tuple) :=
  '(version, remaining_key) ← read_short bs;
  if version =? 0 then
    '(offset, remaining_key) ← read_long_long remaining_key;
    '(metadata, remaining_key) ← read_string remaining_key;
    '(timestamp, remaining_key) ← read_long_long remaining_key;
    Ok (Some (Value4 version offset metadata timestamp))
  else if version =? 1 then
    '(offset, remaining_key) ← read_long_long remaining_key;
    '(metadata, remaining_key) ← read_string remaining_key;
    '(commit_timestamp, remaining_key) ← read_long_long remaining_key;
    '(expire_timestamp, remaining_key) ← read_long_long remaining_key;
    Ok (Some (Value5 version offset metadata commit_timestamp expire_timestamp))
  else Ok None.

(** ** A reference encoder for the wire format

    The encoder follows the layout the specification gives: big-endian
    two's complement integers and strings prefixed by their byte length as
    a 2-byte signed integer. It is compared with the decoder; the program
    has no encoder of its own. *)

(** The [width] low-order bytes of [z], most significant first. *)
Fixpoint pack_be (width : nat) (z : Z) : bytes :=
  match width with
  | O => []
  | S w => pack_be w (z / 256) ++ [byte_of_Z z]
  end.

Definition fits_signed (width : nat) (z : Z) : bool :=
  (- 2 ^ (8 * Z.of_nat width - 1) <=? z) && (z <? 2 ^ (8 * Z.of_nat width - 1)).

(** [str.encode('utf-8')] of one code point; [None] for a surrogate or a
    number that is no code point. *)
Definition utf8_encode_cp (c : Z) : option bytes :=
  if c <? 0 then None
  else if c <? 0x80 then Some [byte_of_Z c]
  else if c <? 0x800 then
    Some [byte_of_Z (0xC0 + c / 64); byte_of_Z (0x80 + c mod 64)]
  else if c <? 0x10000 then
    if is_surrogate c then None
    else Some [byte_of_Z (0xE0 + c / 4096);
               byte_of_Z (0x80 + (c / 64) mod 64);
               byte_of_Z (0x80 + c mod 64)]
  else if c <=? 0x10FFFF then
    Some [byte_of_Z (0xF0 + c / 262144);
          byte_of_Z (0x80 + (c / 4096) mod 64);
          byte_of_Z (0x80 + (c / 64) mod 64);
          byte_of_Z (0x80 + c mod 64)]
  else None.

Fixpoint utf8_encode (s : pystr) : option bytes :=
  match s with
  | [] => Some []
  | c :: s' =>
    bc ← utf8_encode_cp c;
    bs ← utf8_encode s';
    Some (bc ++ bs)
  end.

(** A length-prefixed string; the length must fit the signed prefix. *)
Definition encode_string (s : pystr) : option bytes :=
  bs ← utf8_encode s;
  if fits_signed 2 (Z.of_nat (length bs))
  then Some (pack_be 2 (Z.of_nat (length bs)) ++ bs)
  else None.

Definition encode_key (version : Z) (group topic : pystr) (partition : Z)
  : option bytes :=
  g ← encode_string group;
  t ← encode_string topic;
  if fits_signed 2 version && fits_signed 4 partition
  then Some (pack_be 2 version ++ g ++ t ++ pack_be 4 partition)
  else None.

(** The value layout of version 1 up to and including the commit
    timestamp, that is, without the trailing expire timestamp. *)
Definition encode_value_v1_head (offset : Z) (metadata : pystr)
    (commit_timestamp : Z) : option bytes :=
  m ← encode_string metadata;
  if fits_signed 8 offset && fits_signed 8 commit_timestamp
  then Some (pack_be 2 1 ++ pack_be 8 offset ++ m ++ pack_be 8 commit_timestamp)
  else None.


(** ** Python values that reach the metric store *)

(** A label value: the program passes strings (group, topic) and integers
    (partition). *)
Inductive pyval : Type :=
  | PInt (z : Z)
  | PStr (s : pystr).

(** [str(v)] *)
Definition py_str (v : pyval) : pystr :=
  match v with
  | PInt z => py (NilZero.string_of_int (Z.to_int z))
  | PStr s => s
  end.

(** A metric value: an integer (offsets) or a float. *)
Inductive pynum : Type :=
  | NInt (z : Z)
  | NFloat (f : float).

(** The binary64 number nearest to an integer, ties to even. *)
Definition py_float_value (z : Z) : float :=
  SF2Prim (binary_normalize 53 1024 z 0 false).

(** [float(v)]: an integer is rounded to the nearest float;
    [OverflowError] when it rounds beyond the largest finite float, that
    is, from [2^1024 - 2^970] on. *)
Definition py_float (v : pynum) : result float :=
  match v with
  | NFloat f => Ok f
  | NInt z =>
    if Z.abs z <? 2 ^ 1024 - 2 ^ 970
    then Ok (py_float_value z)
    else Raise OverflowError
  end.

(** A dict in insertion order: [dict_set] keeps the place of a key that is
    already there and appends a new one. *)
Abbreviation pydict K V := (list (K * V)).

Section PyDict.
Context {K V : Type} `{EqDecision K}.

Fixpoint dict_get (k : K) (d : pydict K V) : option V :=
  match d with
  | [] => None
  | (k', v) :: d' => if decide (k = k') then Some v else dict_get k d'
  end.

Fixpoint dict_set (k : K) (v : V) (d : pydict K V) : pydict K V :=
  match d with
  | [] => [(k, v)]
  | (k', v') :: d' =>
    if decide (k = k') then (k', v) :: d' else (k', v') :: dict_set k v d'
  end.

Definition dict_mem (k : K) (d : pydict K V) : bool :=
  match dict_get k d with Some _ => true | None => false end.

Definition dict_keys (d : pydict K V) : list K := map fst d.
Definition dict_values (d : pydict K V) : list V := map snd d.
End PyDict.

(** ** The metric store: [prometheus_client] gauges and counters

    The program keeps one [Gauge] or [Counter] object per metric name in
    the dicts [gauges] and [counters]. The object is modelled by the label
    names it was constructed with, its own value (used when it has no
    labels) and its children, one per tuple of label values. *)
Record Metric : Type := {
  labelnames : list pystr;
  own_value : float;
  children : gmap (list pystr) float
}.

Definition is_letter (c : Z) : bool :=
  ((0x61 <=? c) && (c <=? 0x7A)) || ((0x41 <=? c) && (c <=? 0x5A)).
Definition is_digit (c : Z) : bool := (0x30 <=? c) && (c <=? 0x39).
Definition is_underscore (c : Z) : bool := c =? 0x5F.
Definition is_colon (c : Z) : bool := c =? 0x3A.

(** [re.match] of a pattern [^[first][rest]*$]: [$] also matches before a
    final newline. *)
Definition strip_final_newline (s : pystr) : pystr :=
  match rev s with
  | 10 :: r => rev r
  | _ => s
  end.

Definition re_match (first rest : Z -> bool) (s : pystr) : bool :=
  match strip_final_newline s with
  | [] => false
  | c :: s' => first c && forallb rest s'
  end.

(** [^[a-zA-Z_:][a-zA-Z0-9_:]*$] *)
Definition valid_metric_name : pystr -> bool :=
  re_match (fun c => is_letter c || is_underscore c || is_colon c)
           (fun c => is_letter c || is_digit c || is_underscore c || is_colon c).

(** [^[a-zA-Z_][a-zA-Z0-9_]*$], and not the reserved [^__.*$]. *)
Definition valid_label_name (l : pystr) : bool :=
  re_match (fun c => is_letter c || is_underscore c)
           (fun c => is_letter c || is_digit c || is_underscore c) l
  && negb match l with
          | 0x5F :: 0x5F :: _ => true
          | _ => false
          end.

(** The two kinds of metric the program constructs. *)
Inductive MetricKind : Set := GaugeKind | CounterKind.

Definition is_counter (kind : MetricKind) : Prop :=
  match kind with
  | GaugeKind => False
  | CounterKind => True
  end.

#[global] Instance MetricKind_eq_dec : EqDecision MetricKind := fun a b =>
  match a, b with
  | GaugeKind, GaugeKind => left eq_refl
  | CounterKind, CounterKind => left eq_refl
  | GaugeKind, CounterKind =>
    right (fun H : GaugeKind = CounterKind => eq_ind CounterKind is_counter I _ (eq_sym H))
  | CounterKind, GaugeKind =>
    right (fun H : CounterKind = GaugeKind => eq_ind CounterKind is_counter I _ H)
  end.

(** [s.endswith(suffix)] *)
Definition endswith (s suffix : pystr) : bool :=
  (length suffix <=? length s)%nat
  && bool_decide (drop (length s - length suffix) s = suffix).

(** The name a metric goes by in the library: a counter constructed with
    a name that ends in [_total] is named without that suffix
    ([full_name[:-6]]); a gauge keeps its name. *)
Definition full_name (kind : MetricKind) (name : pystr) : pystr :=
  match kind with
  | GaugeKind => name
  | CounterKind =>
    if endswith name (py "_total") then take (length name - 6) name else name
  end.

(** The timeseries names a metric occupies in a registry: its name, and
    for a counter also the name with [_total] and with [_created]. *)
Definition timeseries_names (kind : MetricKind) (name : pystr) : list pystr :=
  let full := full_name kind name in
  match kind with
  | GaugeKind => [full]
  | CounterKind => [full; full ++ py "_total"; full ++ py "_created"]
  end.

(** [Gauge(name, '', label_keys)] and [Counter(name, '', label_keys)]: the
    constructor checks the label names and the metric's name and registers
    the metric in the library's default registry, which refuses it with
    [ValueError] when one of its timeseries names is among those the
    registry already holds, [registered]. *)
Definition new_metric (kind : MetricKind) (name : pystr) (label_keys : list pystr)
    (registered : list pystr) : result Metric :=
  if negb (forallb valid_label_name label_keys) then Raise ValueError
  else if negb (valid_metric_name (full_name kind name)) then Raise ValueError
  else if existsb (fun n => bool_decide (n ∈ registered)) (timeseries_names kind name)
  then Raise ValueError
  else Ok {| labelnames := label_keys; own_value := 0%float; children := ∅ |}.

(** [metric.labels], given the label values: [ValueError] for a metric without
    label names and for a wrong number of values; otherwise the child
    named by the values, each converted with [str], created at [0.0] when
    it is new. Values are matched to label names by position. *)
Definition metric_labels (label_values : list pyval) (m : Metric)
  : result (list pystr * Metric) :=
  match labelnames m with
  | [] => Raise ValueError
  | _ =>
    if bool_decide (length label_values = length (labelnames m)) then
      let key := map py_str label_values in
      match children m !! key with
      | Some _ => Ok (key, m)
      | None =>
        Ok (key, {| labelnames := labelnames m; own_value := own_value m;
                    children := <[key := 0%float]> (children m) |})
      end
    else Raise ValueError
  end.

Definition set_child (key : list pystr) (v : float) (m : Metric) : Metric :=
  {| labelnames := labelnames m; own_value := own_value m;
     children := <[key := v]> (children m) |}.

(** [metric.set(value)] and [metric.inc()] on the metric itself first check
    that the metric can be observed: [ValueError] when it has label names.
    The check comes before [float(value)]. *)
Definition check_observable (m : Metric) : result unit :=
  match labelnames m with
  | [] => Ok tt
  | _ => Raise ValueError
  end.

Definition set_own_value (v : float) (m : Metric) : Metric :=
  {| labelnames := labelnames m; own_value := v; children := children m |}.

(** The sample a scrape shows for a metric and a tuple of label values. *)
Definition sample (reg : gmap pystr Metric) (name : pystr)
    (key : list pystr) : option float :=
  m ← reg !! name;
  match labelnames m with
  | [] => match key with [] => Some (own_value m) | _ => None end
  | _ => children m !! key
  end.

(** ** The globals and the client *)

Inductive log_level : Set := INFO | ERROR.

(** What [client.schedule] is given: [partial(fetch_topics, t)] or
    [partial(fetch_highwater, t)]. *)
Inductive Task : Type :=
  | FetchTopics (t : float)
  | FetchHighwater (t : float).

(** The requests the program builds. [OffsetRequest[0]] carries a replica
    id and, per topic, triples [(partition, timestamp, max_offsets)]. *)
Inductive Request : Type :=
  | MetadataRequest (api_version : Z) (request_topics : option (list pystr))
  | OffsetRequest0 (replica_id : Z) (request_topics : list (pystr * list (Z * Z * Z))).

(** The callbacks given to [add_callback]. *)
Inductive Callback : Type :=
  | UpdateTopics (api_version : Z)
  | UpdateHighwater.

(** The module's globals, the log, and what the Kafka client was handed:
    the requests sent, the callbacks attached to their futures and the
    tasks scheduled. [library_names] are the timeseries names the default
    registry holds for collectors that are not the program's: the library
    registers its process, platform and garbage collector metrics when it
    is imported, and the program registers nothing but its gauges and
    counters. *)
Record World : Type := {
  gauges : gmap pystr Metric;
  counters : gmap pystr Metric;
  library_names : list pystr;
  topics : pydict pystr (pydict Z Z);
  highwater : gmap pystr (gmap Z Z);
  log : list (log_level * string);
  sent : list (option Z * Request);
  callbacks : list (nat * Callback);
  scheduled : list (float * Task)
}.

Definition empty_world : World :=
  {| gauges := ∅; counters := ∅; library_names := []; topics := [];
     highwater := ∅; log := []; sent := []; callbacks := []; scheduled := [] |}.

(** The timeseries names the default registry holds: those of the library's
    own collectors and those of every gauge and counter in the program's
    dicts, each of which was registered when it was constructed. *)
Definition registry_names (w : World) : list pystr :=
  library_names w
  ++ flat_map (timeseries_names GaugeKind) (map fst (map_to_list (gauges w)))
  ++ flat_map (timeseries_names CounterKind) (map fst (map_to_list (counters w))).

Definition set_gauges (g : gmap pystr Metric) (w : World) : World :=
  {| gauges := g; counters := counters w; library_names := library_names w;
     topics := topics w;
     highwater := highwater w; log := log w; sent := sent w;
     callbacks := callbacks w; scheduled := scheduled w |}.

Definition set_counters (c : gmap pystr Metric) (w : World) : World :=
  {| gauges := gauges w; counters := c; library_names := library_names w;
     topics := topics w;
     highwater := highwater w; log := log w; sent := sent w;
     callbacks := callbacks w; scheduled := scheduled w |}.

Definition set_topics (t : pydict pystr (pydict Z Z)) (w : World) : World :=
  {| gauges := gauges w; counters := counters w; library_names := library_names w;
     topics := t;
     highwater := highwater w; log := log w; sent := sent w;
     callbacks := callbacks w; scheduled := scheduled w |}.

Definition set_highwater (h : gmap pystr (gmap Z Z)) (w : World) : World :=
  {| gauges := gauges w; counters := counters w; library_names := library_names w;
     topics := topics w;
     highwater := h; log := log w; sent := sent w;
     callbacks := callbacks w; scheduled := scheduled w |}.

Definition add_log (l : log_level) (msg : string) (w : World) : World :=
  {| gauges := gauges w; counters := counters w; library_names := library_names w;
     topics := topics w;
     highwater := highwater w; log := log w ++ [(l, msg)]; sent := sent w;
     callbacks := callbacks w; scheduled := scheduled w |}.

Definition add_sent (node : option Z) (r : Request) (w : World) : World :=
  {| gauges := gauges w; counters := counters w; library_names := library_names w;
     topics := topics w;
     highwater := highwater w; log := log w; sent := sent w ++ [(node, r)];
     callbacks := callbacks w; scheduled := scheduled w |}.

Definition add_callback_entry (f : nat) (c : Callback) (w : World) : World :=
  {| gauges := gauges w; counters := counters w; library_names := library_names w;
     topics := topics w;
     highwater := highwater w; log := log w; sent := sent w;
     callbacks := callbacks w ++ [(f, c)]; scheduled := scheduled w |}.

Definition add_scheduled (at_time : float) (t : Task) (w : World) : World :=
  {| gauges := gauges w; counters := counters w; library_names := library_names w;
     topics := topics w;
     highwater := highwater w; log := log w; sent := sent w;
     callbacks := callbacks w; scheduled := scheduled w ++ [(at_time, t)] |}.

(** A statement of the program: it changes the world and returns or
    raises. The changes made before a raise stay. *)
Definition M (A : Type) : Type := World -> World * result A.

#[global] Instance M_ret : MRet M := fun _ a w => (w, Ok a).
#[global] Instance M_bind : MBind M := fun _ _ f m w =>
  match m w with
  | (w', Ok a) => f a w'
  | (w', Raise e) => (w', Raise e)
  end.

Definition get_world : M World := fun w => (w, Ok w).
Definition modify (f : World -> World) : M unit := fun w => (f w, Ok tt).
Definition raise {A} (e : exn) : M A := fun w => (w, Raise e).
Definition lift {A} (r : result A) : M A := fun w => (w, r).

(** [try: body / except Exception: handler / finally: final]. The handler
    takes exceptions derived from [Exception]; the final block runs in
    every case, and an exception still pending after it is raised again
    unless the final block raises itself. *)
Definition try_except_finally (body handler final : M unit) : M unit :=
  fun w =>
    let '(w1, r1) := body w in
    let '(w2, r2) :=
      match r1 with
      | Ok tt => (w1, Ok tt)
      | Raise e => if is_Exception e then handler w1 else (w1, Raise e)
      end in
    let '(w3, r3) := final w2 in
    match r3 with
    | Ok tt => (w3, r2)
    | Raise e => (w3, Raise e)
    end.

(** [logging.info] and [logging.exception] (level ERROR). *)
Definition logging_info (msg : string) : M unit := modify (add_log INFO msg).
Definition logging_exception (msg : string) : M unit := modify (add_log ERROR msg).

Definition METRIC_PREFIX : pystr := py "kafka_consumer_group_".

(** ** [update_gauge] and [increment_counter] *)

Definition update_gauge (metric_name : pystr) (label_dict : pydict pystr pyval)
    (value : pynum) : M unit :=
  let label_keys := dict_keys label_dict in
  let label_values := dict_values label_dict in
  w ← get_world;
  _ ← match gauges w !! metric_name with
      | Some _ => mret tt
      | None =>
        g ← lift (new_metric GaugeKind metric_name label_keys (registry_names w));
        modify (set_gauges (<[metric_name := g]> (gauges w)))
      end;
  w ← get_world;
  match gauges w !! metric_name with
  | None => raise KeyError (* not reached: the name was just bound *)
  | Some gauge =>
    match label_values with
    | _ :: _ =>
      '(key, gauge) ← lift (metric_labels label_values gauge);
      _ ← modify (set_gauges (<[metric_name := gauge]> (gauges w)));
      v ← lift (py_float value);
      modify (set_gauges (<[metric_name := set_child key v gauge]> (gauges w)))
    | [] =>
      _ ← lift (check_observable gauge);
      v ← lift (py_float value);
      modify (set_gauges (<[metric_name := set_own_value v gauge]> (gauges w)))
    end
  end.

Definition increment_counter (metric_name : pystr)
    (label_dict : pydict pystr pyval) : M unit :=
  let label_keys := dict_keys label_dict in
  let label_values := dict_values label_dict in
  w ← get_world;
  _ ← match counters w !! metric_name with
      | Some _ => mret tt
      | None =>
        c ← lift (new_metric CounterKind metric_name label_keys (registry_names w));
        modify (set_counters (<[metric_name := c]> (counters w)))
      end;
  w ← get_world;
  match counters w !! metric_name with
  | None => raise KeyError (* not reached: the name was just bound *)
  | Some counter =>
    match label_values with
    | _ :: _ =>
      '(key, counter) ← lift (metric_labels label_values counter);
      let v := default 0%float (children counter !! key) in
      modify (set_counters
                (<[metric_name := set_child key (v + 1)%float counter]> (counters w)))
    | [] =>
      _ ← lift (check_observable counter);
      modify (set_counters
                (<[metric_name := set_own_value (own_value counter + 1)%float counter]>
                   (counters w)))
    end
  end.

(** ** The Kafka client

    The client is outside the program. A [Client] says how it behaves
    during one call of a periodic task: the protocol version it
    negotiated, and what [least_loaded_node] and [send] return or raise. *)
Record Client : Type := {
  config_api_version : list Z;               (* client.config['api_version'] *)
  least_loaded_node : result (option Z);
  send_result : option Z -> Request -> result unit
}.

(** [client.send(node, request)]: the request is handed over and a future
    comes back, named by the position of the request among those sent. *)
Definition client_send (cl : Client) (node : option Z) (request : Request)
  : M nat :=
  fun w =>
    match send_result cl node request with
    | Ok _ => (add_sent node request w, Ok (length (sent w)))
    | Raise e => (w, Raise e)
    end.

(** [f.add_callback(callback)] on the future of a request in flight: the
    callback is kept for the response. *)
Definition add_callback (f : nat) (c : Callback) : M unit :=
  modify (add_callback_entry f c).

(** [client.schedule(task, at)] *)
Definition client_schedule (task : Task) (at_time : float) : M unit :=
  modify (add_scheduled at_time task).

(** Comparison of tuples of integers, as [<] orders them. *)
Fixpoint tuple_lt (a b : list Z) : bool :=
  match a, b with
  | _, [] => false
  | [], _ :: _ => true
  | x :: a', y :: b' =>
    if x <? y then true else if y <? x then false else tuple_lt a' b'
  end.

(** ** The topology tracker *)

(** A partition entry of a metadata response, the tuple
    [(error_code, partition, leader, replicas, isr)]. *)
Record PartitionMetadata : Type := {
  p_error_code : Z;
  p_partition : Z;
  p_leader : Z;
  p_replicas : list Z;
  p_isr : list Z
}.

(** A topic entry of a metadata response: [(error_code, topic, partitions)]
    in version 0 and [(error_code, topic, is_internal, partitions)] in
    version 1. *)
Inductive TopicMetadata : Type :=
  | TopicV0 (error_code : Z) (topic : pystr) (partitions : list PartitionMetadata)
  | TopicV1 (error_code : Z) (topic : pystr) (is_internal : bool)
            (partitions : list PartitionMetadata).

(** [t[1]] *)
Definition topic_name (t : TopicMetadata) : pystr :=
  match t with
  | TopicV0 _ topic _ => topic
  | TopicV1 _ topic _ _ => topic
  end.

(** [for p in t[i]] for [i] 2 or 3: a version 0 entry has no index 3, and
    index 2 of a version 1 entry is a bool, which cannot be iterated. *)
Definition topic_partitions (i : nat) (t : TopicMetadata)
  : result (list PartitionMetadata) :=
  match t, i with
  | TopicV0 _ _ partitions, 2%nat => Ok partitions
  | TopicV0 _ _ _, _ => Raise IndexError
  | TopicV1 _ _ _ partitions, 3%nat => Ok partitions
  | TopicV1 _ _ _ _, 2%nat => Raise TypeError
  | TopicV1 _ _ _ _, _ => Raise IndexError
  end.

(** [{p[1]: p[2] for p in partitions}] *)
Definition partition_leaders (partitions : list PartitionMetadata)
  : pydict Z Z :=
  fold_left (fun d p => dict_set (p_partition p) (p_leader p) d) partitions [].

(** [{t[1]: {p[1]: p[2] for p in t[i]} for t in metadata.topics}] *)
Fixpoint topics_comprehension (i : nat) (ts : list TopicMetadata)
    (acc : pydict pystr (pydict Z Z)) : result (pydict pystr (pydict Z Z)) :=
  match ts with
  | [] => Ok acc
  | t :: ts' =>
    partitions ← topic_partitions i t;
    topics_comprehension i ts'
      (dict_set (topic_name t) (partition_leaders partitions) acc)
  end.

(** [update_topics(api_version, metadata)], where [metadata_topics] is
    [metadata.topics]. The global is assigned once the comprehension has
    been evaluated; with a version other than 0 and 1 nothing is assigned. *)
Definition update_topics (api_version : Z) (metadata_topics : list TopicMetadata)
  : M unit :=
  _ ← logging_info "Received topics and partition assignments";
  if api_version =? 0 then
    t ← lift (topics_comprehension 2 metadata_topics []);
    modify (set_topics t)
  else if api_version =? 1 then
    t ← lift (topics_comprehension 3 metadata_topics []);
    modify (set_topics t)
  else mret tt.

(** The body of the [try] of [fetch_topics]. *)
Definition fetch_topics_request (cl : Client) : M unit :=
  let api_version := if tuple_lt (config_api_version cl) [0; 10] then 0 else 1 in
  let request := MetadataRequest api_version None in
  node ← lift (least_loaded_node cl);
  f ← client_send cl node request;
  add_callback f (UpdateTopics api_version).

Definition fetch_topics (cl : Client) (this_time : float) : M unit :=
  _ ← logging_info "Requesting topics and partition assignments";
  let next_time := (this_time + 30)%float in
  try_except_finally
    (fetch_topics_request cl)
    (logging_exception "Error requesting topics and partition assignments")
    (client_schedule (FetchTopics next_time) next_time).

(** ** The highwater poller *)

(** [offsets.topics] of an offset response: per topic, triples
    [(partition, error_code, offsets)]. *)
Definition OffsetResponse : Type := list (pystr * list (Z * Z * list Z)).

Definition highwater_labels (topic : pystr) (partition : Z)
  : pydict pystr pyval :=
  [(py "topic", PStr topic); (py "partition", PInt partition)].

(** The inner loop of [update_highwater]. [offsets[0]] is evaluated before
    anything is stored and raises [IndexError] on an empty list. *)
Fixpoint update_highwater_partitions (topic : pystr)
    (partitions : list (Z * Z * list Z)) : M unit :=
  match partitions with
  | [] => mret tt
  | (partition, error_code, offsets) :: rest =>
    match offsets with
    | [] => raise IndexError
    | first :: _ =>
      w ← get_world;
      _ ← modify (set_highwater
             (<[topic := <[partition := first]> (default ∅ (highwater w !! topic))]>
                (highwater w)));
      _ ← update_gauge (METRIC_PREFIX ++ py "highwater")
            (highwater_labels topic partition) (NInt first);
      update_highwater_partitions topic rest
    end
  end.

Fixpoint update_highwater_topics (ts : OffsetResponse) : M unit :=
  match ts with
  | [] => mret tt
  | (topic, partitions) :: rest =>
    w ← get_world;
    _ ← match highwater w !! topic with
        | Some _ => mret tt
        | None => modify (set_highwater (<[topic := ∅]> (highwater w)))
        end;
    _ ← update_highwater_partitions topic partitions;
    update_highwater_topics rest
  end.

Definition update_highwater (offsets : OffsetResponse) : M unit :=
  _ ← logging_info "Received high-water marks";
  update_highwater_topics offsets.

(** One step of the grouping loop of [fetch_highwater]: the body run for
    [topic], [partition] and [leader]. *)
Definition group_step (topic : pystr) (nodes : pydict Z (pydict pystr (list Z)))
    (pl : Z * Z) : pydict Z (pydict pystr (list Z)) :=
  let '(partition, leader) := pl in
  let nodes := if dict_mem leader nodes then nodes else dict_set leader [] nodes in
  let topic_map := default [] (dict_get leader nodes) in
  let topic_map :=
    if dict_mem topic topic_map then topic_map else dict_set topic [] topic_map in
  let partitions := default [] (dict_get topic topic_map) in
  dict_set leader (dict_set topic (partitions ++ [partition]) topic_map) nodes.

(** The dict [nodes] after the grouping loops. *)
Definition group_by_leader (ts : pydict pystr (pydict Z Z))
  : pydict Z (pydict pystr (list Z)) :=
  fold_left (fun nodes '(topic, partition_map) =>
               fold_left (group_step topic) partition_map nodes) ts [].

(** [OffsetResetStrategy.LATEST] *)
Definition LATEST : Z := -1.

(** The request built for [topic] and the partitions of it a node leads. *)
Definition offset_request (topic : pystr) (partitions : list Z) : Request :=
  OffsetRequest0 (-1) [(topic, map (fun partition => (partition, LATEST, 1)) partitions)].

(** The requests of the sending loops, with the node each one goes to, in
    the order of the loops. *)
Definition offset_requests (nodes : pydict Z (pydict pystr (list Z)))
  : list (Z * Request) :=
  flat_map (fun '(node, topic_map) =>
              map (fun '(topic, partitions) =>
                     (node, offset_request topic partitions)) topic_map) nodes.

Fixpoint send_offset_requests (cl : Client) (reqs : list (Z * Request)) : M unit :=
  match reqs with
  | [] => mret tt
  | (node, request) :: rest =>
    f ← client_send cl (Some node) request;
    _ ← add_callback f UpdateHighwater;
    send_offset_requests cl rest
  end.

(** The body of the [try] of [fetch_highwater]. *)
Definition fetch_highwater_request (cl : Client) : M unit :=
  w ← get_world;
  match topics w with
  | [] => mret tt
  | _ :: _ => send_offset_requests cl (offset_requests (group_by_leader (topics w)))
  end.

Definition fetch_highwater (cl : Client) (this_time : float) : M unit :=
  _ ← logging_info "Requesting high-water marks";
  let next_time := (this_time + 10)%float in
  try_except_finally
    (fetch_highwater_request cl)
    (logging_exception "Error requesting high-water marks")
    (client_schedule (FetchHighwater next_time) next_time).

(** ** The periodic tasks *)

Definition run_task (cl : Client) (task : Task) : M unit :=
  match task with
  | FetchTopics t => fetch_topics cl t
  | FetchHighwater t => fetch_highwater cl t
  end.

(** Successive cycles of a periodic task: each cycle runs, under the
    client behaviour of its time, the task that the cycle before it
    scheduled last. *)
Fixpoint run_cycles (cls : list Client) (task : Task) : M unit :=
  match cls with
  | [] => mret tt
  | cl :: cls' =>
    _ ← run_task cl task;
    w ← get_world;
    match last (scheduled w) with
    | Some (_, next) => run_cycles cls' next
    | None => mret tt
    end
  end.

(** ** The offset stream consumer *)

(** A message of the consumer: [key] and [value] are [None] or bytes. *)
Record Message : Type := {
  msg_partition : Z;
  msg_offset : Z;
  msg_key : option bytes;
  msg_value : option bytes
}.

(** [value[1]] *)
Definition value_offset (v : value_tuple) : Z :=
  match v with
  | Value4 _ offset _ _ => offset
  | Value5 _ offset _ _ _ => offset
  end.

Definition offset_labels (group topic : pystr) (partition : Z)
  : pydict pystr pyval :=
  [(py "group", PStr group); (py "topic", PStr topic);
   (py "partition", PInt partition)].

(** The body of [for message in consumer]. [message.key and message.value]
    holds for bytes that are neither [None] nor empty; [value[1]] on
    [None] raises [TypeError], before [update_gauge] is called. *)
Definition process_message (message : Message) : M unit :=
  _ ← update_gauge (METRIC_PREFIX ++ py "exporter_offset")
        [(py "partition", PInt (msg_partition message))]
        (NInt (msg_offset message));
  match msg_key message, msg_value message with
  | Some (kb :: kbs), Some (vb :: vbs) =>
    key ← lift (parse_key (kb :: kbs));
    match key with
    | Some (version, group, topic, partition) =>
      value ← lift (parse_value (vb :: vbs));
      match value with
      | None => raise TypeError
      | Some value =>
        _ ← update_gauge (METRIC_PREFIX ++ py "offset")
              (offset_labels group topic partition)
              (NInt (value_offset value));
        increment_counter (METRIC_PREFIX ++ py "commits")
          (offset_labels group topic partition)
      end
    | None => mret tt
    end
  | _, _ => mret tt
  end.

(** The loop over the messages the consumer yields: an exception raised in
    the body leaves the loop. *)
Fixpoint consume (messages : list Message) : M unit :=
  match messages with
  | [] => mret tt
  | message :: rest =>
    _ ← process_message message;
    consume rest
  end.

(** [shutdown()]: logs and raises [SystemExit] through [sys.exit(1)]. *)
Definition shutdown : M unit :=
  _ ← logging_info "Shutting down";
  raise SystemExit.

(** The [try] around the loop in [main], for the messages the consumer
    yields before it is interrupted: only [KeyboardInterrupt] is caught,
    and [shutdown] follows; any other exception leaves [main]. *)
Definition main_loop (messages : list Message) : M unit :=
  fun w =>
    match consume messages w with
    | (w', Raise KeyboardInterrupt) => shutdown w'
    | (w', Raise e) => (w', Raise e)
    | (w', Ok tt) => (w', Ok tt)
    end.

(** ** Notions used in the statements *)

(** The value of a metric after a sample is stored under [key]. *)
Definition store_sample (key : list pystr) (v : float) (m : Metric) : Metric :=
  match labelnames m with
  | [] => set_own_value v m
  | _ => set_child key v m
  end.

(** The tuple of label values of a call, each converted with [str]: it
    names the child the call works on. *)
Definition label_key (label_dict : pydict pystr pyval) : list pystr :=
  map py_str (dict_values label_dict).

(** The value a metric holds for [key]; a child not yet created counts
    as [0.0], the value it is created with. *)
Definition current_value (key : list pystr) (m : Metric) : float :=
  match labelnames m with
  | [] => own_value m
  | _ => default 0%float (children m !! key)
  end.

(** A client whose calls raise nothing but exceptions derived from
    [Exception]: request and response errors are of this kind. *)
Definition raises_only_Exceptions (cl : Client) : Prop :=
  (forall e, least_loaded_node cl = Raise e -> is_Exception e = true) /\
  (forall node request e,
     send_result cl node request = Raise e -> is_Exception e = true).

(** The fire times of the cycles after the one fired at [t]. *)
Fixpoint refresh_times (n : nat) (t : float) : list float :=
  match n with
  | O => []
  | S n' => (t + 30)%float :: refresh_times n' (t + 30)%float
  end.

(** A client that finds no node to talk to, and one that works. *)
Definition failing_client : Client :=
  {| config_api_version := [0; 10; 1];
     least_loaded_node := Raise KafkaError;
     send_result := fun _ _ => Raise KafkaError |}.

Definition working_client : Client :=
  {| config_api_version := [0; 10; 1];
     least_loaded_node := Ok (Some 1);
     send_result := fun _ _ => Ok tt |}.

(** Example messages: a commit of group g1 on partition 0 of topic t1 with
    a key of version 1; its value is of version 0 (offset 42), of the
    unknown version 2, or of version 1 without its expire timestamp. *)
Definition commit_key : bytes :=
  default [] (encode_key 1 (py "g1") (py "t1") 0).

Definition value_v0 : bytes :=
  pack_be 2 0 ++ pack_be 8 42 ++ pack_be 2 0 ++ pack_be 8 0.

Definition value_unknown_version : bytes := pack_be 2 2.

Definition value_v1_truncated : bytes :=
  default [] (encode_value_v1_head 42 [] 0).

Definition commit_message (offset : Z) (value : bytes) : Message :=
  {| msg_partition := 3; msg_offset := offset;
     msg_key := Some commit_key; msg_value := Some value |}.

(** The first statement of the loop body. *)
Definition exporter_offset_gauge (message : Message) : M unit :=
  update_gauge (METRIC_PREFIX ++ py "exporter_offset")
    [(py "partition", PInt (msg_partition message))] (NInt (msg_offset message)).


(** The entries of an offset response in the order [update_highwater]
    meets them: [(topic, partition, error_code, offsets)]. *)
Definition response_entries (resp : OffsetResponse)
  : list (pystr * Z * Z * list Z) :=
  flat_map (fun '(topic, partitions) =>
              map (fun '(partition, error_code, offsets) =>
                     (topic, partition, error_code, offsets)) partitions) resp.

(** Every entry carries at least one offset, and the first one is a 64-bit
    integer, as the wire format has it. *)
Definition entries_have_offsets (resp : OffsetResponse) : bool :=
  forallb (fun '(_, _, _, offsets) =>
             match offsets with
             | first :: _ => fits_signed 8 first
             | [] => false
             end) (response_entries resp).

(** What is stored for [(topic, partition)] once the entries are written
    one after the other over [init]: the first offset of the last entry for
    this topic and partition, passed through [f]; the error code plays no
    part. *)
Definition last_write {A} (f : Z -> A) (entries : list (pystr * Z * Z * list Z))
    (topic : pystr) (partition : Z) (init : option A) : option A :=
  fold_left (fun acc '(t, p, _, offsets) =>
               if decide (t = topic /\ p = partition)
               then f <$> head offsets else acc) entries init.

(** [highwater[topic][partition]], when it is there. *)
Definition highwater_entry (w : World) (topic : pystr) (partition : Z)
  : option Z :=
  m ← highwater w !! topic; m !! partition.

Definition highwater_name : pystr := METRIC_PREFIX ++ py "highwater".

(** The highwater gauge is as [update_highwater] registers it, with two
    label names, or it is not registered and the registry does not hold
    its name. *)
Definition highwater_gauge_ready (w : World) : bool :=
  match gauges w !! highwater_name with
  | Some g => bool_decide (length (labelnames g) = 2%nat)
  | None => negb (bool_decide (highwater_name ∈ registry_names w))
  end.

(** The sample of the highwater gauge for a topic and a partition. *)
Definition highwater_sample (w : World) (topic : pystr) (partition : Z)
  : option float :=
  sample (gauges w) highwater_name [topic; py_str (PInt partition)].

(** A response whose first entry has an error code and no offset. *)
Definition response_with_error : OffsetResponse :=
  [(py "t1", [(0, 6, []); (1, 0, [100])])].

(** One partition entry of a response has a first offset of 64 bits. *)
Definition entry_ok (entry : Z * Z * list Z) : bool :=
  match entry with
  | (_, _, first :: _) => fits_signed 8 first
  | (_, _, []) => false
  end.


(** The partitions of [topic] that [node] leads in an Assignment Map, in
    the order of the map. *)
Definition led_partitions (ts : pydict pystr (pydict Z Z)) (node : Z)
    (topic : pystr) : list Z :=
  match dict_get topic ts with
  | Some partition_map => map fst (filter (fun pl => pl.2 = node) partition_map)
  | None => []
  end.

(** The topics a request names. *)
Definition request_topic_names (r : Request) : list pystr :=
  match r with
  | OffsetRequest0 _ request_topics => map fst request_topics
  | MetadataRequest _ _ => []
  end.

(** The requests of a cycle that go to [node] and name [topic] alone. *)
Definition requests_for (node : Z) (topic : pystr) (reqs : list (Z * Request))
  : list (Z * Request) :=
  filter (fun nr => nr.1 = node /\ request_topic_names nr.2 = [topic]) reqs.

(** The requests of a cycle that go to [node]. *)
Definition requests_to (node : Z) (reqs : list (Z * Request))
  : list (Z * Request) :=
  filter (fun nr => nr.1 = node) reqs.

(** The triples [(topic, partition, leader)] of an Assignment Map, in the
    order the grouping loops meet them. *)
Definition assignments (ts : pydict pystr (pydict Z Z)) : list (pystr * Z * Z) :=
  flat_map (fun '(topic, partition_map) =>
              map (fun '(partition, leader) => (topic, partition, leader))
                  partition_map) ts.

(** [nodes[node][topic]], or the empty list when it is not there. *)
Definition grouped (nodes : pydict Z (pydict pystr (list Z))) (node : Z)
    (topic : pystr) : list Z :=
  default [] (topic_map ← dict_get node nodes; dict_get topic topic_map).

(** The dict [nodes] has each node once, each topic once per node, and no
    empty list of partitions. *)
Definition nodes_wf (nodes : pydict Z (pydict pystr (list Z))) : Prop :=
  NoDup (dict_keys nodes) /\
  forall node topic_map,
    dict_get node nodes = Some topic_map ->
    NoDup (dict_keys topic_map) /\
    forall topic partitions,
      dict_get topic topic_map = Some partitions -> partitions <> [].

(** An Assignment Map in which one node leads partitions of two topics. *)
Definition two_topics_one_leader : pydict pystr (pydict Z Z) :=
  [(py "t1", [(0, 1); (1, 2)]); (py "t2", [(0, 1)])].

(** ** More of the reference encoder *)

(** The value layouts: version 0 ends with one timestamp, version 1 with
    the commit and the expire timestamp. The tuple carries the version. *)
Definition encode_value (v : value_tuple) : option bytes :=
  match v with
  | Value4 version offset metadata timestamp =>
    m ← encode_string metadata;
    if fits_signed 2 version && fits_signed 8 offset && fits_signed 8 timestamp
    then Some (pack_be 2 version ++ pack_be 8 offset ++ m ++ pack_be 8 timestamp)
    else None
  | Value5 version offset metadata commit_timestamp expire_timestamp =>
    m ← encode_string metadata;
    if fits_signed 2 version && fits_signed 8 offset
       && fits_signed 8 commit_timestamp && fits_signed 8 expire_timestamp
    then Some (pack_be 2 version ++ pack_be 8 offset ++ m
               ++ pack_be 8 commit_timestamp ++ pack_be 8 expire_timestamp)
    else None
  end.

(** The tuple has the number of fields its version calls for. *)
Definition value_version_ok (v : value_tuple) : bool :=
  match v with
  | Value4 version _ _ _ => version =? 0
  | Value5 version _ _ _ _ => version =? 1
  end.

(** The errors of the decoder: [struct.error] and [UnicodeDecodeError]. *)
Definition is_decode_error (e : exn) : bool :=
  match e with
  | StructError | UnicodeDecodeError => true
  | _ => false
  end.

(** A result that is a decode error. *)
Definition raises_decode_error {A} (r : result A) : bool :=
  match r with
  | Raise e => is_decode_error e
  | Ok _ => false
  end.

(** ** Notions for the topology tracker *)

(** The partitions of a topic entry and the protocol version whose shape
    the entry has. *)
Definition entry_partitions (t : TopicMetadata) : list PartitionMetadata :=
  match t with
  | TopicV0 _ _ partitions => partitions
  | TopicV1 _ _ _ partitions => partitions
  end.

Definition entry_version (t : TopicMetadata) : Z :=
  match t with
  | TopicV0 _ _ _ => 0
  | TopicV1 _ _ _ _ => 1
  end.

(** Every topic entry of the response has the shape of [api_version]. *)
Definition metadata_shape (api_version : Z) (metadata_topics : list TopicMetadata)
  : bool :=
  forallb (fun t => entry_version t =? api_version) metadata_topics.

(** The last entry of a response for a topic, and the leader in the last
    entry of a list of partition entries for a partition. *)
Definition latest_topic (metadata_topics : list TopicMetadata) (topic : pystr)
  : option TopicMetadata :=
  last (filter (fun t => topic_name t = topic) metadata_topics).

Definition latest_leader (partitions : list PartitionMetadata) (partition : Z)
  : option Z :=
  p_leader <$> last (filter (fun p => p_partition p = partition) partitions).

(** ** Notions for the consumer loop *)

Definition exporter_offset_name : pystr := METRIC_PREFIX ++ py "exporter_offset".
Definition offset_name : pystr := METRIC_PREFIX ++ py "offset".
Definition commits_name : pystr := METRIC_PREFIX ++ py "commits".

(** The program's dict of a kind. *)
Definition metrics_of (kind : MetricKind) (w : World) : gmap pystr Metric :=
  match kind with
  | GaugeKind => gauges w
  | CounterKind => counters w
  end.

(** A metric of a kind is in the program's dict with [n] label names, or
    it is not there and the registry holds none of the timeseries names
    it would occupy. *)
Definition metric_ready (kind : MetricKind) (name : pystr) (n : nat) (w : World)
  : bool :=
  match metrics_of kind w !! name with
  | Some m => bool_decide (length (labelnames m) = n)
  | None =>
    negb (existsb (fun s => bool_decide (s ∈ registry_names w))
            (timeseries_names kind name))
  end.

(** The three metrics of the consumer loop have the label names the loop
    gives them, where they are registered, and can be registered where
    they are not. *)
Definition store_ready (w : World) : bool :=
  metric_ready GaugeKind exporter_offset_name 1 w
  && metric_ready GaugeKind offset_name 3 w
  && metric_ready CounterKind commits_name 3 w.

(** The offset of a message is a 64-bit integer, as Kafka has it. *)
Definition message_offset_ok (message : Message) : bool :=
  fits_signed 8 (msg_offset message).

(** The exceptions that leave the consumer loop: a decode error, or the
    [TypeError] of the subscript on a value that is [None]. *)
Definition leaves_loop_with (r : result unit) : bool :=
  match r with
  | Ok _ => true
  | Raise TypeError => true
  | Raise e => is_decode_error e
  end.

(** The world after a metric object was put under [name] in the program's
    dict of its kind. *)
Definition store_metric (kind : MetricKind) (name : pystr) (m : Metric) (w : World)
  : World :=
  match kind with
  | GaugeKind => set_gauges (<[name := m]> (gauges w)) w
  | CounterKind => set_counters (<[name := m]> (counters w)) w
  end.

(** No timeseries name of the first metric is one of the second. *)
Definition names_apart (kind1 : MetricKind) (name1 : pystr)
    (kind2 : MetricKind) (name2 : pystr) : bool :=
  forallb (fun s => negb (bool_decide (s ∈ timeseries_names kind2 name2)))
    (timeseries_names kind1 name1).

(** ** Requests in flight

    [client.send] hands the request over and returns a future, which the
    client completes later: with the response, given to the callbacks of
    the future, or with an error (a failed or timed-out request, a lost
    connection), given to its errbacks. The program attaches a callback to
    every future and never an errback ([add_errback] is not called), so
    when the request of the future [f] fails, no statement of the program
    runs: nothing is logged, and the callback is not called. *)
Definition future_failure (f : nat) (error : exn) : M unit :=
  mret tt.
(* ===================================================================== *)
(** * Properties *)
(* ===================================================================== *)

(** ** Integers on the wire *)

Lemma byte_val_range b : 0 <= byte_val b < 256.
Proof.
  unfold byte_val. pose proof (Byte.to_N_bounded b). lia.
Qed.

Lemma byte_val_of_Z z : byte_val (byte_of_Z z) = z mod 256.
Proof.
  unfold byte_val, byte_of_Z.
  pose proof (Z.mod_pos_bound z 256 eq_refl) as Hr.
  destruct (Byte.of_N (Z.to_N (z mod 256))) as [b|] eqn:E.
  - apply Byte.to_of_N in E. rewrite E. lia.
  - apply Byte.of_N_None_iff in E. lia.
Qed.

Lemma byte_val_of_Z_small z : 0 <= z < 256 -> byte_val (byte_of_Z z) = z.
Proof. intros H. rewrite byte_val_of_Z. apply Z.mod_small; lia. Qed.

Lemma be_unsigned_snoc bs b :
  be_unsigned (bs ++ [b]) = be_unsigned bs * 256 + byte_val b.
Proof. unfold be_unsigned. rewrite fold_left_app. reflexivity. Qed.

Lemma pack_be_length w z : length (pack_be w z) = w.
Proof.
  revert z. induction w as [|w IH]; intros z; simpl; [reflexivity|].
  rewrite length_app, IH. simpl. lia.
Qed.

Lemma be_unsigned_pack_be w z :
  be_unsigned (pack_be w z) = z mod 256 ^ Z.of_nat w.
Proof.
  revert z. induction w as [|w IH]; intros z.
  - simpl. rewrite Z.mod_1_r. reflexivity.
  - cbn [pack_be]. rewrite be_unsigned_snoc, IH, byte_val_of_Z.
    rewrite Nat2Z.inj_succ, Z.pow_succ_r by lia.
    rewrite (Z.rem_mul_r z 256 (256 ^ Z.of_nat w)) by lia. lia.
Qed.

Lemma to_signed_mod w z :
  0 < w -> - 2 ^ (w - 1) <= z < 2 ^ (w - 1) ->
  to_signed w (z mod 2 ^ w) = z.
Proof.
  intros Hw Hz. unfold to_signed.
  assert (Hp : 2 ^ w = 2 * 2 ^ (w - 1)).
  { rewrite <- Z.pow_succ_r by lia. f_equal. lia. }
  assert (0 < 2 ^ (w - 1)) by (apply Z.pow_pos_nonneg; lia).
  destruct (Z.ltb_spec (z mod 2 ^ w) (2 ^ (w - 1))) as [Hlt|Hge].
  - destruct (Z_lt_le_dec z 0) as [Hneg|Hpos].
    + rewrite <- (Z.mod_add z 1 (2 ^ w)) in Hlt by lia.
      rewrite Z.mod_small in Hlt by lia. lia.
    + apply Z.mod_small. lia.
  - destruct (Z_lt_le_dec z 0) as [Hneg|Hpos].
    + rewrite <- (Z.mod_add z 1 (2 ^ w)) by lia.
      rewrite Z.mod_small by lia. lia.
    + rewrite Z.mod_small in Hge by lia. lia.
Qed.

Lemma fits_signed_spec w z :
  fits_signed w z = true <->
  - 2 ^ (8 * Z.of_nat w - 1) <= z < 2 ^ (8 * Z.of_nat w - 1).
Proof. unfold fits_signed. rewrite andb_true_iff. lia. Qed.

(** Unpacking what was packed gives the number back, whatever follows. *)
Lemma unpack_pack w z rest :
  (0 < w)%nat -> fits_signed w z = true ->
  unpack_from w (pack_be w z ++ rest) = Ok z.
Proof.
  intros Hw Hz. apply fits_signed_spec in Hz. unfold unpack_from.
  rewrite length_app, pack_be_length.
  destruct (Nat.ltb_spec (w + length rest) w) as [?|_]; [lia|].
  rewrite take_app_length' by (symmetry; apply pack_be_length).
  rewrite be_unsigned_pack_be.
  replace (256 ^ Z.of_nat w) with (2 ^ (8 * Z.of_nat w)).
  - rewrite to_signed_mod by lia. reflexivity.
  - rewrite Z.pow_mul_r by lia. reflexivity.
Qed.

Lemma slice_from_pack w z rest :
  slice_from (Z.of_nat w) (pack_be w z ++ rest) = rest.
Proof.
  unfold slice_from, slice_index.
  destruct (Z.ltb_spec (Z.of_nat w) 0) as [?|_]; [lia|].
  rewrite Nat2Z.id. apply drop_app_length'. symmetry. apply pack_be_length.
Qed.

Lemma read_short_pack z rest :
  fits_signed 2 z = true -> read_short (pack_be 2 z ++ rest) = Ok (z, rest).
Proof.
  intros Hz. unfold read_short. rewrite unpack_pack by (auto; lia).
  cbn [mbind result_bind]. rewrite (slice_from_pack 2). reflexivity.
Qed.

Lemma read_int_pack z rest :
  fits_signed 4 z = true -> read_int (pack_be 4 z ++ rest) = Ok (z, rest).
Proof.
  intros Hz. unfold read_int. rewrite unpack_pack by (auto; lia).
  cbn [mbind result_bind]. rewrite (slice_from_pack 4). reflexivity.
Qed.

Lemma read_long_long_pack z rest :
  fits_signed 8 z = true ->
  read_long_long (pack_be 8 z ++ rest) = Ok (z, rest).
Proof.
  intros Hz. unfold read_long_long. rewrite unpack_pack by (auto; lia).
  cbn [mbind result_bind]. rewrite (slice_from_pack 8). reflexivity.
Qed.

Lemma read_long_long_short bs :
  (length bs < 8)%nat -> read_long_long bs = Raise StructError.
Proof.
  intros H. unfold read_long_long, unpack_from.
  destruct (Nat.ltb_spec (length bs) 8) as [_|?]; [reflexivity|lia].
Qed.

(** ** UTF-8: decoding what was encoded *)

Ltac case_compare :=
  repeat match goal with
  | |- context [?a <? ?b] => destruct (Z.ltb_spec a b)
  | |- context [?a <=? ?b] => destruct (Z.leb_spec a b)
  end.

Lemma utf8_decode_cons b0 r0 :
  utf8_decode (b0 :: r0) =
    let v0 := byte_val b0 in
    if v0 <? 0x80 then cons v0 <$> utf8_decode r0
    else if v0 <? 0xC0 then None
    else if v0 <? 0xE0 then
      match r0 with
      | b1 :: r1 =>
        let v1 := byte_val b1 in
        let c := (v0 - 0xC0) * 64 + (v1 - 0x80) in
        if is_continuation v1 && (0x80 <=? c)
        then cons c <$> utf8_decode r1 else None
      | _ => None
      end
    else if v0 <? 0xF0 then
      match r0 with
      | b1 :: b2 :: r2 =>
        let v1 := byte_val b1 in
        let v2 := byte_val b2 in
        let c := (v0 - 0xE0) * 4096 + (v1 - 0x80) * 64 + (v2 - 0x80) in
        if is_continuation v1 && is_continuation v2
           && (0x800 <=? c) && negb (is_surrogate c)
        then cons c <$> utf8_decode r2 else None
      | _ => None
      end
    else if v0 <? 0xF8 then
      match r0 with
      | b1 :: b2 :: b3 :: r3 =>
        let v1 := byte_val b1 in
        let v2 := byte_val b2 in
        let v3 := byte_val b3 in
        let c := (v0 - 0xF0) * 262144 + (v1 - 0x80) * 4096
                 + (v2 - 0x80) * 64 + (v3 - 0x80) in
        if is_continuation v1 && is_continuation v2 && is_continuation v3
           && (0x10000 <=? c) && (c <=? 0x10FFFF)
        then cons c <$> utf8_decode r3 else None
      | _ => None
      end
    else None.
Proof. reflexivity. Qed.

(** A code point written in base 64: the digits the encoder spreads over
    the bytes of a sequence. *)
Lemma split_sextets c :
  exists a b d e,
    c = a * 262144 + b * 4096 + d * 64 + e /\
    0 <= b < 64 /\ 0 <= d < 64 /\ 0 <= e < 64 /\
    c / 64 = a * 4096 + b * 64 + d /\ c / 4096 = a * 64 + b /\
    c / 262144 = a /\
    c mod 64 = e /\ (c / 64) mod 64 = d /\ (c / 4096) mod 64 = b.
Proof.
  exists (c / 262144), ((c / 4096) mod 64), ((c / 64) mod 64), (c mod 64).
  Z.div_mod_to_equations; lia.
Qed.

Lemma utf8_decode_encode_cp c bc rest :
  utf8_encode_cp c = Some bc ->
  utf8_decode (bc ++ rest) = cons c <$> utf8_decode rest.
Proof.
  destruct (split_sextets c)
    as (a & b & d & e & Hc & Hb & Hd & He & E64 & E4096 & Ea & Ee & Ed & Eb).
  unfold utf8_encode_cp, is_surrogate.
  rewrite ?Ee, ?Ed, ?Eb, ?Ea, ?E4096, ?E64. clear Ee Ed Eb Ea E4096 E64.
  subst c.
  case_compare; cbn [andb]; intros E; try discriminate;
  injection E as <-; cbn [app]; rewrite utf8_decode_cons; cbv zeta;
  rewrite !byte_val_of_Z_small by lia;
  unfold is_continuation, is_surrogate;
  case_compare; cbn [andb negb]; try (exfalso; lia);
  f_equal; f_equal; lia.
Qed.

Lemma utf8_decode_encode s bs :
  utf8_encode s = Some bs -> utf8_decode bs = Some s.
Proof.
  revert bs. induction s as [|c s IH]; intros bs; cbn [utf8_encode].
  - intros [= <-]. reflexivity.
  - destruct (utf8_encode_cp c) as [bc|] eqn:Ec; [|discriminate].
    destruct (utf8_encode s) as [bs'|] eqn:Es; [|discriminate].
    cbn. intros [= <-].
    rewrite (utf8_decode_encode_cp _ _ _ Ec), (IH _ eq_refl). reflexivity.
Qed.

(** ** The wire decoder on encoded fields *)

Lemma read_string_encode s bs rest :
  encode_string s = Some bs -> read_string (bs ++ rest) = Ok (s, rest).
Proof.
  unfold encode_string.
  destruct (utf8_encode s) as [u|] eqn:Eu; [|discriminate].
  cbn [mbind option_bind].
  destruct (fits_signed 2 (Z.of_nat (length u))) eqn:Ef; [|discriminate].
  intros E.
  replace bs with (pack_be 2 (Z.of_nat (length u)) ++ u) by congruence.
  unfold read_string.
  rewrite <- app_assoc, read_short_pack by exact Ef.
  cbn [mbind result_bind].
  unfold slice_to, slice_from, slice_index.
  destruct (Z.ltb_spec (Z.of_nat (length u)) 0) as [?|_]; [lia|].
  rewrite Nat2Z.id, take_app_length, drop_app_length.
  unfold decode_utf8. rewrite (utf8_decode_encode _ _ Eu). reflexivity.
Qed.

(** C6: for every key buffer built by the reference encoder from a schema
    version 0 or 1, a group, a topic and a partition, [parse_key] returns
    exactly (version, group, topic, partition). *)
Theorem parse_key_encode_key version group topic partition bs :
  version = 0 \/ version = 1 ->
  encode_key version group topic partition = Some bs ->
  parse_key bs = Ok (Some (version, group, topic, partition)).
Proof.
  intros Hv. unfold encode_key.
  destruct (encode_string group) as [g|] eqn:Eg; [|discriminate].
  destruct (encode_string topic) as [t|] eqn:Et; [|discriminate].
  cbn [mbind option_bind].
  destruct (fits_signed 2 version) eqn:Fv; [|discriminate].
  destruct (fits_signed 4 partition) eqn:Fp; [|discriminate].
  cbn [andb]. intros E.
  replace bs with (pack_be 2 version ++ g ++ t ++ pack_be 4 partition)
    by congruence.
  unfold parse_key.
  rewrite read_short_pack by exact Fv. cbn [mbind result_bind].
  replace ((version =? 1) || (version =? 0)) with true
    by (destruct Hv; subst; reflexivity).
  rewrite (read_string_encode _ _ _ Eg). cbn [mbind result_bind].
  rewrite (read_string_encode _ _ _ Et). cbn [mbind result_bind].
  rewrite <- (app_nil_r (pack_be 4 partition)), read_int_pack by exact Fp.
  reflexivity.
Qed.

Lemma parse_key_encode_key_witness :
  parse_key (default [] (encode_key 1 (py "g1") (py "t1") 0))
  = Ok (Some (1, py "g1", py "t1", 0)).
Proof.
  apply (parse_key_encode_key 1 (py "g1") (py "t1") 0).
  - right. reflexivity.
  - reflexivity.
Defined.

(** C4: for every key or value buffer whose leading two bytes, read as a
    signed big-endian integer, give a schema version other than 0 and 1,
    [parse_key] and [parse_value] return [None] and raise nothing. *)
Theorem unknown_version_is_none bs version :
  unpack_from 2 bs = Ok version ->
  version <> 0 -> version <> 1 ->
  parse_key bs = Ok None /\ parse_value bs = Ok None.
Proof.
  intros Hu H0 H1. unfold parse_key, parse_value, read_short.
  rewrite Hu. cbn [mbind result_bind].
  destruct (Z.eqb_spec version 0); [contradiction|].
  destruct (Z.eqb_spec version 1); [contradiction|].
  split; reflexivity.
Qed.

Lemma unknown_version_is_none_witness :
  parse_key [Byte.x00; Byte.x02; Byte.xff] = Ok None /\
  parse_value [Byte.x00; Byte.x02; Byte.xff] = Ok None.
Proof.
  apply (unknown_version_is_none [Byte.x00; Byte.x02; Byte.xff] 2).
  - reflexivity.
  - lia.
  - lia.
Defined.

(** A value of version 1 cut before the end of its expire timestamp: the
    last read finds fewer than eight bytes. *)
Lemma parse_value_truncated_v1 offset metadata commit_timestamp head tail :
  encode_value_v1_head offset metadata commit_timestamp = Some head ->
  (length tail < 8)%nat ->
  parse_value (head ++ tail) = Raise StructError.
Proof.
  unfold encode_value_v1_head.
  destruct (encode_string metadata) as [m|] eqn:Em; [|discriminate].
  cbn [mbind option_bind].
  destruct (fits_signed 8 offset) eqn:Fo; [|discriminate].
  destruct (fits_signed 8 commit_timestamp) eqn:Fc; [|discriminate].
  cbn [andb]. intros E Hlen.
  replace head
    with (pack_be 2 1 ++ pack_be 8 offset ++ m ++ pack_be 8 commit_timestamp)
    by congruence.
  unfold parse_value.
  rewrite <- !app_assoc.
  rewrite read_short_pack by reflexivity. cbn [mbind result_bind].
  change (1 =? 0) with false. change (1 =? 1) with true. cbv iota.
  rewrite read_long_long_pack by exact Fo. cbn [mbind result_bind].
  rewrite (read_string_encode _ _ _ Em). cbn [mbind result_bind].
  rewrite read_long_long_pack by exact Fc. cbn [mbind result_bind].
  rewrite read_long_long_short by exact Hlen. reflexivity.
Qed.

(** ** The metric store *)

Ltac run_M :=
  unfold mbind, M_bind, mret, M_ret, get_world, modify, lift, raise;
  cbn beta iota.

Lemma dict_values_length {K V} (d : pydict K V) : length (dict_values d) = length d.
Proof. apply length_map. Qed.

Lemma dict_keys_length {K V} (d : pydict K V) : length (dict_keys d) = length d.
Proof. apply length_map. Qed.

Lemma metric_labels_ok values m :
  labelnames m <> [] -> length values = length (labelnames m) ->
  exists m',
    metric_labels values m = Ok (map py_str values, m') /\
    labelnames m' = labelnames m /\
    children m' !! map py_str values
      = Some (default 0%float (children m !! map py_str values)) /\
    forall v, set_child (map py_str values) v m' = set_child (map py_str values) v m.
Proof.
  intros Hn Hlen. unfold metric_labels.
  destruct (labelnames m) as [|n ns] eqn:En; [contradiction|].
  rewrite bool_decide_eq_true_2 by exact Hlen.
  destruct (children m !! map py_str values) as [c|] eqn:Ec.
  - exists m. rewrite Ec. auto.
  - eexists. split; [reflexivity|]. cbn [labelnames children].
    rewrite lookup_insert_eq. repeat split.
    intros v. unfold set_child. cbn [labelnames children own_value].
    rewrite insert_insert_eq, En. reflexivity.
Qed.

Lemma metric_labels_mismatch values m :
  length values <> length (labelnames m) ->
  metric_labels values m = Raise ValueError.
Proof.
  intros Hlen. unfold metric_labels.
  destruct (labelnames m); [reflexivity|].
  rewrite bool_decide_eq_false_2 by exact Hlen. reflexivity.
Qed.

(** [update_gauge] on a metric that is registered, with as many labels as
    it has label names: the sample is stored under the label values. *)
Lemma update_gauge_registered w name labels value g v :
  gauges w !! name = Some g ->
  length labels = length (labelnames g) ->
  py_float value = Ok v ->
  update_gauge name labels value w
  = (set_gauges (<[name := store_sample (label_key labels) v g]> (gauges w)) w, Ok tt).
Proof.
  intros Hg Hlen Hv. unfold update_gauge. run_M. rewrite Hg. cbn beta iota.
  rewrite Hg. unfold store_sample, label_key.
  rewrite <- dict_values_length in Hlen.
  destruct (dict_values labels) as [|x xs] eqn:Ex.
  - destruct (labelnames g) eqn:En; [|discriminate].
    unfold check_observable. rewrite En, Hv. reflexivity.
  - destruct (metric_labels_ok (x :: xs) g) as (g' & E & _ & _ & Hset);
      [intros En; rewrite En in Hlen; discriminate | exact Hlen |].
    rewrite E. cbn beta iota. rewrite Hv, Hset.
    destruct (labelnames g); [discriminate|]. reflexivity.
Qed.

(** With a number of labels other than that of the registered label names
    the call raises [ValueError] and changes nothing. *)
Lemma update_gauge_mismatch w name labels value g :
  gauges w !! name = Some g ->
  length labels <> length (labelnames g) ->
  update_gauge name labels value w = (w, Raise ValueError).
Proof.
  intros Hg Hlen. unfold update_gauge. run_M. rewrite Hg. cbn beta iota.
  rewrite Hg. rewrite <- dict_values_length in Hlen.
  destruct (dict_values labels) as [|x xs] eqn:Ex.
  - unfold check_observable. destruct (labelnames g); [contradiction|]. reflexivity.
  - rewrite metric_labels_mismatch by exact Hlen. reflexivity.
Qed.

(** A first call registers the metric with the keys of its label dict. *)
Lemma update_gauge_first w name labels value w1 :
  gauges w !! name = None ->
  update_gauge name labels value w = (w1, Ok tt) ->
  exists g v,
    new_metric GaugeKind name (dict_keys labels) (registry_names w) = Ok g /\
    labelnames g = dict_keys labels /\
    py_float value = Ok v /\
    w1 = set_gauges (<[name := store_sample (label_key labels) v g]> (gauges w)) w.
Proof.
  intros Hg. unfold update_gauge. run_M. rewrite Hg.
  destruct (new_metric GaugeKind name (dict_keys labels) (registry_names w)) as [g|e] eqn:En;
    [|discriminate].
  cbn beta iota. cbn [gauges set_gauges]. rewrite lookup_insert_eq.
  assert (Hl : labelnames g = dict_keys labels).
  { unfold new_metric in En.
    repeat match type of En with (if ?c then _ else _) = _ =>
      destruct c; [discriminate|] end.
    injection En as <-. reflexivity. }
  intros H. exists g.
  pose proof (dict_keys_length labels) as Hk. rewrite <- Hl in Hk.
  pose proof (dict_values_length labels) as Hd.
  unfold store_sample, label_key.
  destruct (dict_values labels) as [|x xs] eqn:Ex.
  - destruct (labelnames g) eqn:Eg; [|cbn in *; lia].
    unfold check_observable in H. rewrite Eg in H.
    destruct (py_float value) as [v|] eqn:Ev; [|discriminate].
    exists v. injection H as <-.
    rewrite insert_insert_eq. auto.
  - destruct (metric_labels_ok (x :: xs) g) as (g' & E & _ & _ & Hset);
      [intros Eg; rewrite Eg in Hk; cbn in *; lia | cbn in *; lia |].
    rewrite E in H. cbn beta iota in H.
    destruct (py_float value) as [v|] eqn:Ev; [|discriminate].
    exists v. injection H as <-. rewrite Hset.
    destruct (labelnames g); [cbn in *; lia|].
    rewrite insert_insert_eq. auto.
Qed.

Lemma sample_store_sample reg name key v g :
  (labelnames g = [] -> key = []) ->
  sample (<[name := store_sample key v g]> reg) name key = Some v.
Proof.
  intros Hk. unfold sample. rewrite lookup_insert_eq. cbn [mbind option_bind].
  unfold store_sample. destruct (labelnames g) as [|n ns] eqn:En.
  - cbn [labelnames set_own_value]. rewrite En, Hk by reflexivity. reflexivity.
  - cbn [labelnames set_child children]. rewrite En. apply lookup_insert_eq.
Qed.

Lemma increment_counter_registered w name labels c :
  counters w !! name = Some c ->
  length labels = length (labelnames c) ->
  increment_counter name labels w
  = (set_counters
       (<[name := store_sample (label_key labels)
                    (current_value (label_key labels) c + 1)%float c]> (counters w)) w,
     Ok tt).
Proof.
  intros Hc Hlen. unfold increment_counter. run_M. rewrite Hc. cbn beta iota.
  rewrite Hc. unfold store_sample, current_value, label_key.
  rewrite <- dict_values_length in Hlen.
  destruct (dict_values labels) as [|x xs] eqn:Ex.
  - destruct (labelnames c) eqn:En; [|discriminate].
    unfold check_observable. rewrite En. reflexivity.
  - destruct (metric_labels_ok (x :: xs) c) as (c' & E & _ & Hch & Hset);
      [intros En; rewrite En in Hlen; discriminate | exact Hlen |].
    rewrite E. cbn beta iota. rewrite Hch, Hset. cbn [default].
    destruct (labelnames c); [discriminate|]. reflexivity.
Qed.

Lemma increment_counter_mismatch w name labels c :
  counters w !! name = Some c ->
  length labels <> length (labelnames c) ->
  increment_counter name labels w = (w, Raise ValueError).
Proof.
  intros Hc Hlen. unfold increment_counter. run_M. rewrite Hc. cbn beta iota.
  rewrite Hc. rewrite <- dict_values_length in Hlen.
  destruct (dict_values labels) as [|x xs] eqn:Ex.
  - unfold check_observable. destruct (labelnames c); [contradiction|]. reflexivity.
  - rewrite metric_labels_mismatch by exact Hlen. reflexivity.
Qed.

Lemma new_metric_labelnames kind name keys registered m :
  new_metric kind name keys registered = Ok m ->
  labelnames m = keys /\ own_value m = 0%float /\ children m = ∅.
Proof.
  unfold new_metric. intros En.
  repeat match type of En with (if ?c then _ else _) = _ =>
    destruct c; [discriminate|] end.
  injection En as <-. auto.
Qed.

Lemma increment_counter_first w name labels w1 :
  counters w !! name = None ->
  increment_counter name labels w = (w1, Ok tt) ->
  exists c,
    new_metric CounterKind name (dict_keys labels) (registry_names w) = Ok c /\
    labelnames c = dict_keys labels /\
    w1 = set_counters
           (<[name := store_sample (label_key labels) (0 + 1)%float c]> (counters w)) w.
Proof.
  intros Hc. unfold increment_counter. run_M. rewrite Hc.
  destruct (new_metric CounterKind name (dict_keys labels) (registry_names w)) as [c|e] eqn:En;
    [|discriminate].
  cbn beta iota. cbn [counters set_counters]. rewrite lookup_insert_eq.
  destruct (new_metric_labelnames _ _ _ _ _ En) as (Hl & Ho & Hch).
  intros H. exists c.
  pose proof (dict_keys_length labels) as Hk. rewrite <- Hl in Hk.
  pose proof (dict_values_length labels) as Hd.
  unfold store_sample, label_key.
  destruct (dict_values labels) as [|x xs] eqn:Ex.
  - destruct (labelnames c) eqn:Eg; [|cbn in *; lia].
    unfold check_observable in H. rewrite Eg in H.
    injection H as <-. rewrite insert_insert_eq, Ho. auto.
  - destruct (metric_labels_ok (x :: xs) c) as (c' & E & _ & Hch' & Hset);
      [intros Eg; rewrite Eg in Hk; cbn in *; lia | cbn in *; lia |].
    rewrite E in H. cbn beta iota in H.
    rewrite Hch', Hset, Hch, lookup_empty in H. cbn [default] in H.
    injection H as <-.
    destruct (labelnames c); [cbn in *; lia|].
    rewrite insert_insert_eq. auto.
Qed.

(** What a successful call leaves behind, whether or not the metric was
    registered before it. *)
Lemma update_gauge_ok w name labels value w1 :
  update_gauge name labels value w = (w1, Ok tt) ->
  exists g v,
    py_float value = Ok v /\
    length labels = length (labelnames g) /\
    (gauges w !! name = None -> labelnames g = dict_keys labels) /\
    (forall g0, gauges w !! name = Some g0 -> g = g0) /\
    w1 = set_gauges (<[name := store_sample (label_key labels) v g]> (gauges w)) w.
Proof.
  intros H. destruct (gauges w !! name) as [g0|] eqn:Hg.
  - destruct (decide (length labels = length (labelnames g0))) as [Hlen|Hlen].
    + destruct (py_float value) as [v|e] eqn:Hv.
      * rewrite (update_gauge_registered _ _ _ _ _ _ Hg Hlen Hv) in H.
        injection H as <-. exists g0, v.
        repeat split; intros; auto; congruence.
      * exfalso. revert H. unfold update_gauge. run_M. rewrite Hg.
        cbn beta iota. rewrite Hg. rewrite <- dict_values_length in Hlen.
        destruct (dict_values labels) as [|x xs] eqn:Ex.
        -- unfold check_observable. destruct (labelnames g0); [|discriminate].
           rewrite Hv. discriminate.
        -- destruct (metric_labels (x :: xs) g0) as [[k g']|]; [|discriminate].
           cbn beta iota. rewrite Hv. discriminate.
    + rewrite (update_gauge_mismatch _ _ _ _ _ Hg Hlen) in H. discriminate.
  - destruct (update_gauge_first _ _ _ _ _ Hg H) as (g & v & _ & Hl & Hv & ->).
    exists g, v. repeat split; auto.
    + rewrite Hl, dict_keys_length. reflexivity.
    + discriminate.
Qed.

Lemma increment_counter_ok w name labels w1 :
  increment_counter name labels w = (w1, Ok tt) ->
  exists c,
    length labels = length (labelnames c) /\
    (counters w !! name = None -> labelnames c = dict_keys labels) /\
    (forall c0, counters w !! name = Some c0 -> c = c0) /\
    current_value (label_key labels) c
      = default 0%float (sample (counters w) name (label_key labels)) /\
    w1 = set_counters
           (<[name := store_sample (label_key labels)
                        (current_value (label_key labels) c + 1)%float c]>
              (counters w)) w.
Proof.
  intros H. destruct (counters w !! name) as [c0|] eqn:Hc.
  - destruct (decide (length labels = length (labelnames c0))) as [Hlen|Hlen].
    + rewrite (increment_counter_registered _ _ _ _ Hc Hlen) in H.
      injection H as <-. exists c0.
      repeat split; intros; auto; try congruence.
      unfold current_value, sample. rewrite Hc. cbn [mbind option_bind].
      unfold label_key. rewrite <- dict_values_length in Hlen.
      destruct (labelnames c0); [|reflexivity].
      destruct (dict_values labels); [reflexivity|discriminate].
    + rewrite (increment_counter_mismatch _ _ _ _ Hc Hlen) in H. discriminate.
  - destruct (increment_counter_first _ _ _ _ Hc H) as (c & Hn & Hl & ->).
    destruct (new_metric_labelnames _ _ _ _ _ Hn) as (_ & Ho & Hch).
    assert (Hcur : current_value (label_key labels) c = 0%float).
    { unfold current_value. rewrite Ho, Hch, lookup_empty.
      destruct (labelnames c); reflexivity. }
    exists c. rewrite Hcur. repeat split; auto.
    + rewrite Hl, dict_keys_length. reflexivity.
    + discriminate.
    + unfold sample. rewrite Hc. reflexivity.
Qed.

Lemma label_key_nil labels (m : Metric) :
  length labels = length (labelnames m) ->
  labelnames m = [] -> label_key labels = [].
Proof.
  intros Hlen Hn. rewrite Hn in Hlen. destruct labels; [reflexivity|discriminate].
Qed.

Lemma labelnames_store_sample key v m :
  labelnames (store_sample key v m) = labelnames m.
Proof.
  unfold store_sample. destruct (labelnames m) eqn:E; cbn; rewrite ?E; reflexivity.
Qed.

Lemma current_value_store_sample key v m :
  current_value key (store_sample key v m) = v.
Proof.
  unfold current_value. rewrite labelnames_store_sample. unfold store_sample.
  destruct (labelnames m) eqn:E; cbn; [reflexivity|].
  rewrite lookup_insert_eq. reflexivity.
Qed.

(** C7: gauges are last-write-wins and counters count by one. Whenever a
    first [update_gauge] returns, a second one for the same metric name and
    labels returns too and the sample then is the value written last; each
    [increment_counter] that returns leaves the sample one above what it
    was (a sample not yet there counting as [0.0]), and a second one
    returns as well and adds one more. *)
Theorem gauge_last_write_wins_counter_adds_one
    (w : World) (g : pystr) (gl : pydict pystr pyval) (v1 v2 : float)
    (c : pystr) (cl : pydict pystr pyval) (wg wc : World) :
  update_gauge g gl (NFloat v1) w = (wg, Ok tt) ->
  increment_counter c cl w = (wc, Ok tt) ->
  (exists wg',
     update_gauge g gl (NFloat v2) wg = (wg', Ok tt) /\
     sample (gauges wg') g (label_key gl) = Some v2) /\
  sample (counters wc) c (label_key cl)
    = Some (default 0%float (sample (counters w) c (label_key cl)) + 1)%float /\
  (exists wc',
     increment_counter c cl wc = (wc', Ok tt) /\
     sample (counters wc') c (label_key cl)
       = Some (default 0%float (sample (counters w) c (label_key cl)) + 1 + 1)%float).
Proof.
  intros Hg Hc.
  destruct (update_gauge_ok _ _ _ _ _ Hg) as (m & v & _ & Hlen & _ & _ & ->).
  destruct (increment_counter_ok _ _ _ _ Hc) as (k & Hlenk & _ & _ & Hcur & ->).
  split; [|split].
  - eexists. split.
    + apply update_gauge_registered with (v := v2);
        [apply lookup_insert_eq | | reflexivity].
      rewrite labelnames_store_sample. exact Hlen.
    + cbn [gauges set_gauges]. apply sample_store_sample.
      rewrite labelnames_store_sample. apply label_key_nil. exact Hlen.
  - cbn [counters set_counters]. rewrite <- Hcur. apply sample_store_sample.
    apply label_key_nil. exact Hlenk.
  - eexists. split.
    + apply increment_counter_registered; [apply lookup_insert_eq |].
      rewrite labelnames_store_sample. exact Hlenk.
    + cbn [counters set_counters]. rewrite current_value_store_sample, Hcur.
      apply sample_store_sample. rewrite labelnames_store_sample.
      apply label_key_nil. exact Hlenk.
Qed.

Lemma gauge_last_write_wins_counter_adds_one_witness :
  (exists wg',
     update_gauge (py "g") [(py "a", PStr (py "1"))] (NFloat 3%float)
       (update_gauge (py "g") [(py "a", PStr (py "1"))] (NFloat 5%float) empty_world).1
     = (wg', Ok tt) /\
     sample (gauges wg') (py "g") [py "1"] = Some 3%float) /\
  sample (counters (increment_counter (py "c") [(py "a", PStr (py "1"))] empty_world).1)
    (py "c") [py "1"] = Some 1%float /\
  (exists wc',
     increment_counter (py "c") [(py "a", PStr (py "1"))]
       (increment_counter (py "c") [(py "a", PStr (py "1"))] empty_world).1
     = (wc', Ok tt) /\
     sample (counters wc') (py "c") [py "1"] = Some 2%float).
Proof.
  exact (gauge_last_write_wins_counter_adds_one
           empty_world (py "g") [(py "a", PStr (py "1"))] 5%float 3%float
           (py "c") [(py "a", PStr (py "1"))] _ _ eq_refl eq_refl).
Defined.

(** C5 (as the code has it): the first call for a metric name fixes its
    label names, in the order of the keys of that call's label dict. A
    later call for the same name with another number of labels raises
    [ValueError] and changes nothing. A later call with the same number of
    labels is accepted whatever its keys are: the label names stay those
    registered first and the sample is stored under the call's label
    values, taken by position. This holds for [update_gauge] and for
    [increment_counter]. *)
Theorem label_names_fixed_values_by_position
    (w : World) (g : pystr) (gl : pydict pystr pyval) (gv : pynum) (wg : World)
    (c : pystr) (cl : pydict pystr pyval) (wc : World) :
  gauges w !! g = None ->
  update_gauge g gl gv w = (wg, Ok tt) ->
  counters w !! c = None ->
  increment_counter c cl w = (wc, Ok tt) ->
  (labelnames <$> gauges wg !! g = Some (dict_keys gl) /\
   forall gl' gv',
     (length gl' <> length gl ->
      update_gauge g gl' gv' wg = (wg, Raise ValueError)) /\
     (length gl' = length gl ->
      forall v, py_float gv' = Ok v ->
      exists wg',
        update_gauge g gl' gv' wg = (wg', Ok tt) /\
        labelnames <$> gauges wg' !! g = Some (dict_keys gl) /\
        sample (gauges wg') g (label_key gl') = Some v)) /\
  (labelnames <$> counters wc !! c = Some (dict_keys cl) /\
   forall cl',
     (length cl' <> length cl ->
      increment_counter c cl' wc = (wc, Raise ValueError)) /\
     (length cl' = length cl ->
      exists wc',
        increment_counter c cl' wc = (wc', Ok tt) /\
        labelnames <$> counters wc' !! c = Some (dict_keys cl) /\
        sample (counters wc') c (label_key cl')
          = Some (default 0%float (sample (counters wc) c (label_key cl')) + 1)%float)).
Proof.
  intros Hg Hug Hc Hic. split.
  - destruct (update_gauge_first _ _ _ _ _ Hg Hug) as (m & v0 & _ & Hl & _ & ->).
    cbn [gauges set_gauges]. rewrite lookup_insert_eq. cbn [fmap option_fmap option_map].
    rewrite labelnames_store_sample, Hl. split; [reflexivity|].
    intros gl' gv'. split.
    + intros Hlen. eapply update_gauge_mismatch; [apply lookup_insert_eq|].
      rewrite labelnames_store_sample, Hl, dict_keys_length. exact Hlen.
    + intros Hlen v Hv.
      assert (Hlen' : length gl' = length (labelnames (store_sample (label_key gl) v0 m)))
        by (rewrite labelnames_store_sample, Hl, dict_keys_length; exact Hlen).
      eexists. split; [|split].
      * eapply update_gauge_registered; [apply lookup_insert_eq | exact Hlen' | exact Hv].
      * cbn [gauges set_gauges]. rewrite lookup_insert_eq.
        cbn [fmap option_fmap option_map].
        rewrite !labelnames_store_sample, Hl. reflexivity.
      * cbn [gauges set_gauges]. apply sample_store_sample.
        apply label_key_nil. exact Hlen'.
  - destruct (increment_counter_first _ _ _ _ Hc Hic) as (m & _ & Hl & ->).
    cbn [counters set_counters]. rewrite lookup_insert_eq.
    cbn [fmap option_fmap option_map].
    rewrite labelnames_store_sample, Hl. split; [reflexivity|].
    intros cl'. split.
    + intros Hlen. eapply increment_counter_mismatch; [apply lookup_insert_eq|].
      rewrite labelnames_store_sample, Hl, dict_keys_length. exact Hlen.
    + intros Hlen.
      set (m1 := store_sample (label_key cl) (0 + 1)%float m).
      assert (Hlen' : length cl' = length (labelnames m1))
        by (unfold m1; rewrite labelnames_store_sample, Hl, dict_keys_length; exact Hlen).
      eexists. split; [|split].
      * eapply increment_counter_registered; [apply lookup_insert_eq | exact Hlen'].
      * cbn [counters set_counters]. rewrite lookup_insert_eq.
        cbn [fmap option_fmap option_map].
        rewrite labelnames_store_sample. unfold m1.
        rewrite labelnames_store_sample, Hl. reflexivity.
      * cbn [counters set_counters].
        replace (default 0%float (sample (<[c:=m1]> (counters w)) c (label_key cl')))
          with (current_value (label_key cl') m1).
        -- apply sample_store_sample. apply label_key_nil. exact Hlen'.
        -- unfold current_value, sample. rewrite lookup_insert_eq.
           cbn [mbind option_bind].
           destruct (labelnames m1) eqn:E; [|reflexivity].
           rewrite <- E in Hlen'.
           rewrite (label_key_nil _ _ Hlen' E). reflexivity.
Qed.

Lemma label_names_fixed_values_by_position_witness :
  let gl := [(py "a", PStr (py "1"))] in
  let wg := (update_gauge (py "g") gl (NFloat 5%float) empty_world).1 in
  let wc := (increment_counter (py "c") gl empty_world).1 in
  (labelnames <$> gauges wg !! py "g" = Some (dict_keys gl) /\
   forall gl' gv',
     (length gl' <> length gl ->
      update_gauge (py "g") gl' gv' wg = (wg, Raise ValueError)) /\
     (length gl' = length gl ->
      forall v, py_float gv' = Ok v ->
      exists wg',
        update_gauge (py "g") gl' gv' wg = (wg', Ok tt) /\
        labelnames <$> gauges wg' !! py "g" = Some (dict_keys gl) /\
        sample (gauges wg') (py "g") (label_key gl') = Some v)) /\
  (labelnames <$> counters wc !! py "c" = Some (dict_keys gl) /\
   forall cl',
     (length cl' <> length gl ->
      increment_counter (py "c") cl' wc = (wc, Raise ValueError)) /\
     (length cl' = length gl ->
      exists wc',
        increment_counter (py "c") cl' wc = (wc', Ok tt) /\
        labelnames <$> counters wc' !! py "c" = Some (dict_keys gl) /\
        sample (counters wc') (py "c") (label_key cl')
          = Some (default 0%float (sample (counters wc) (py "c") (label_key cl')) + 1)%float)).
Proof.
  exact (label_names_fixed_values_by_position
           empty_world (py "g") [(py "a", PStr (py "1"))] (NFloat 5%float) _
           (py "c") [(py "a", PStr (py "1"))] _
           eq_refl eq_refl eq_refl eq_refl).
Defined.

(** C5 fails as stated: after [update_gauge("g", {a: "1"}, 5.0)] the call
    [update_gauge("g", {b: "1"}, 3.0)], whose only key is another one, is
    not rejected; the gauge keeps the label name [a] and its series for
    the value "1" goes from 5.0 to 3.0. *)
Lemma changed_label_keys_not_rejected :
  let w1 := (update_gauge (py "g") [(py "a", PStr (py "1"))] (NFloat 5%float)
               empty_world).1 in
  let '(w2, r) := update_gauge (py "g") [(py "b", PStr (py "1"))] (NFloat 3%float) w1 in
  dict_keys [(py "b", PStr (py "1"))] <> dict_keys [(py "a", PStr (py "1"))] /\
  r = Ok tt /\
  labelnames <$> gauges w2 !! py "g" = Some [py "a"] /\
  sample (gauges w1) (py "g") [py "1"] = Some 5%float /\
  sample (gauges w2) (py "g") [py "1"] = Some 3%float.
Proof.
  vm_compute. repeat split. discriminate.
Qed.

(** ** The topology tracker *)

(** C10: when [update_topics] is called with a protocol version other than
    0 and 1, it returns without raising and the Assignment Map is what it
    was; only the log line is added. *)
Theorem update_topics_other_version_keeps_topics
    (api_version : Z) (metadata_topics : list TopicMetadata) (w : World) :
  api_version <> 0 -> api_version <> 1 ->
  update_topics api_version metadata_topics w
  = (add_log INFO "Received topics and partition assignments" w, Ok tt) /\
  topics (update_topics api_version metadata_topics w).1 = topics w.
Proof.
  intros H0 H1. unfold update_topics. run_M. unfold logging_info. run_M.
  destruct (Z.eqb_spec api_version 0); [contradiction|].
  destruct (Z.eqb_spec api_version 1); [contradiction|].
  split; reflexivity.
Qed.

Lemma update_topics_other_version_keeps_topics_witness :
  let w := set_topics [(py "t1", [(0, 1); (1, 2)])] empty_world in
  let metadata_topics := [TopicV1 0 (py "t2") false []] in
  update_topics 2 metadata_topics w
  = (add_log INFO "Received topics and partition assignments" w, Ok tt) /\
  topics (update_topics 2 metadata_topics w).1 = topics w.
Proof.
  apply (update_topics_other_version_keeps_topics 2); lia.
Defined.

Lemma fetch_topics_request_scheduled cl w :
  scheduled (fetch_topics_request cl w).1 = scheduled w.
Proof.
  unfold fetch_topics_request. run_M.
  destruct (least_loaded_node cl) as [node|e]; [|reflexivity].
  unfold client_send.
  destruct (send_result cl node _) as [[]|e]; reflexivity.
Qed.

Lemma fetch_topics_request_raises cl w w1 e :
  raises_only_Exceptions cl ->
  fetch_topics_request cl w = (w1, Raise e) -> is_Exception e = true.
Proof.
  intros [Hn Hs]. unfold fetch_topics_request. run_M.
  destruct (least_loaded_node cl) as [node|e'] eqn:En.
  - unfold client_send.
    destruct (send_result cl node _) as [[]|e'] eqn:Es.
    + unfold add_callback. run_M. discriminate.
    + intros [= _ <-]. eapply Hs, Es.
  - intros [= _ <-]. apply Hn. reflexivity.
Qed.

(** One cycle of [fetch_topics], whatever the request does. *)
Lemma fetch_topics_cycle cl t w :
  raises_only_Exceptions cl ->
  exists w',
    fetch_topics cl t w = (w', Ok tt) /\
    scheduled w' = scheduled w ++ [((t + 30)%float, FetchTopics (t + 30)%float)].
Proof.
  intros Hcl. unfold fetch_topics. run_M. unfold logging_info. run_M.
  unfold try_except_finally.
  pose proof (fetch_topics_request_scheduled cl
                (add_log INFO "Requesting topics and partition assignments" w)) as Hs.
  destruct (fetch_topics_request cl _) as [w1 [[]|e]] eqn:Er.
  - eexists. split; [reflexivity|]. cbn in *. rewrite Hs. reflexivity.
  - rewrite (fetch_topics_request_raises _ _ _ _ Hcl Er).
    eexists. split; [reflexivity|]. cbn in *. rewrite Hs. reflexivity.
Qed.

Lemma run_cycles_fetch_topics cls t w :
  Forall raises_only_Exceptions cls ->
  exists w',
    run_cycles cls (FetchTopics t) w = (w', Ok tt) /\
    scheduled w'
    = scheduled w ++ map (fun t' => (t', FetchTopics t')) (refresh_times (length cls) t).
Proof.
  intros Hcls. revert t w. induction Hcls as [|cl cls Hcl _ IH]; intros t w.
  - exists w. split; [reflexivity|]. cbn. rewrite app_nil_r. reflexivity.
  - destruct (fetch_topics_cycle cl t w Hcl) as (w1 & E1 & S1).
    destruct (IH (t + 30)%float w1) as (w2 & E2 & S2).
    exists w2. split.
    + cbn [run_cycles run_task]. run_M. rewrite E1. cbn beta iota.
      rewrite S1, last_snoc. exact E2.
    + rewrite S2, S1, <- app_assoc. reflexivity.
Qed.

(** A refresh whose request cannot be handed to the client: finding the
    node raises, or sending does. *)
Lemma fetch_topics_request_not_sent cl w e :
  least_loaded_node cl = Raise e
  \/ (exists node,
        least_loaded_node cl = Ok node /\
        send_result cl node
          (MetadataRequest (if tuple_lt (config_api_version cl) [0; 10] then 0 else 1)
             None) = Raise e) ->
  fetch_topics_request cl w = (w, Raise e).
Proof.
  unfold fetch_topics_request. run_M.
  intros [Hn|(node & Hn & Hs)]; rewrite Hn; [reflexivity|].
  unfold client_send. rewrite Hs. reflexivity.
Qed.




(** ** The offset stream consumer *)

Lemma parse_key_nil : parse_key [] = Raise StructError.
Proof. reflexivity. Qed.

(** A message whose key decodes: what happens next is decided by
    [parse_value]. *)
Lemma process_message_decoded_key message kb vb version group topic partition w w1 :
  msg_key message = Some kb -> msg_value message = Some vb -> vb <> [] ->
  parse_key kb = Ok (Some (version, group, topic, partition)) ->
  exporter_offset_gauge message w = (w1, Ok tt) ->
  process_message message w
  = match parse_value vb with
    | Raise e => (w1, Raise e)
    | Ok None => (w1, Raise TypeError)
    | Ok (Some value) =>
      (_ ← update_gauge (METRIC_PREFIX ++ py "offset")
             (offset_labels group topic partition) (NInt (value_offset value));
       increment_counter (METRIC_PREFIX ++ py "commits")
         (offset_labels group topic partition)) w1
    end.
Proof.
  intros Hk Hv Hne Hpk Hg. unfold process_message.
  unfold exporter_offset_gauge in Hg.
  unfold mbind at 1. unfold M_bind at 1. rewrite Hg, Hk, Hv.
  destruct kb as [|kb0 kbs]; [rewrite parse_key_nil in Hpk; discriminate|].
  destruct vb as [|vb0 vbs]; [contradiction|].
  unfold mbind at 1. unfold M_bind at 1. unfold lift at 1. rewrite Hpk.
  unfold mbind at 1. unfold M_bind at 1. unfold lift at 1.
  destruct (parse_value (vb0 :: vbs)) as [[value|]|e]; reflexivity.
Qed.

Lemma consume_raise message rest w w1 e :
  process_message message w = (w1, Raise e) ->
  consume (message :: rest) w = (w1, Raise e) /\
  (e <> KeyboardInterrupt -> main_loop (message :: rest) w = (w1, Raise e)).
Proof.
  intros H. assert (Hc : consume (message :: rest) w = (w1, Raise e)).
  { cbn [consume]. unfold mbind, M_bind. rewrite H. reflexivity. }
  split; [exact Hc|]. intros He. unfold main_loop. rewrite Hc.
  destruct e; try reflexivity. contradiction.
Qed.

(** C1 fails on the code: a message whose key decodes and whose value has
    the unknown schema version 2. [parse_value] returns [None], the
    subscript [value[1]] raises [TypeError], the loop and [main] are left
    with it, and the message after it, a regular commit, is not read: its
    offset gauge and commit counter stay unset. *)
Theorem unknown_value_version_leaves_the_loop :
  let bad := commit_message 7 value_unknown_version in
  let good := commit_message 8 value_v0 in
  let name_offset := METRIC_PREFIX ++ py "offset" in
  let name_commits := METRIC_PREFIX ++ py "commits" in
  let series := [py "g1"; py "t1"; py "0"] in
  parse_key commit_key = Ok (Some (1, py "g1", py "t1", 0)) /\
  parse_value value_unknown_version = Ok None /\
  (consume [bad; good] empty_world).2 = Raise TypeError /\
  (main_loop [bad; good] empty_world).2 = Raise TypeError /\
  sample (gauges (consume [bad; good] empty_world).1) name_offset series = None /\
  sample (counters (consume [bad; good] empty_world).1) name_commits series = None /\
  (consume [good] empty_world).2 = Ok tt /\
  sample (gauges (consume [good] empty_world).1) name_offset series = Some 42%float /\
  sample (counters (consume [good] empty_world).1) name_commits series = Some 1%float.
Proof. vm_compute. repeat split. Qed.

Lemma encode_value_v1_head_not_nil offset metadata commit_timestamp head :
  encode_value_v1_head offset metadata commit_timestamp = Some head -> head <> [].
Proof.
  unfold encode_value_v1_head.
  destruct (encode_string metadata) as [m|]; [|discriminate].
  cbn [mbind option_bind].
  destruct (_ && _); [|discriminate].
  intros E ->. inversion E.
Qed.

(** C3 (as the code has it): a value that declares version 1 and is cut
    before the end of its expire timestamp makes [parse_value] raise
    [struct.error]; no tuple is returned. The loop does not catch the
    error: when the key of the message decodes, the loop and [main] are
    left with it after the gauge of the exporter's own position was set,
    whatever messages follow. *)
Theorem truncated_v1_value_raises
    (offset : Z) (metadata : pystr) (commit_timestamp : Z) (head tail : bytes)
    (message : Message) (kb : bytes) (kt : key_tuple) (w w1 : World) :
  encode_value_v1_head offset metadata commit_timestamp = Some head ->
  (length tail < 8)%nat ->
  msg_value message = Some (head ++ tail) ->
  msg_key message = Some kb ->
  parse_key kb = Ok (Some kt) ->
  exporter_offset_gauge message w = (w1, Ok tt) ->
  parse_value (head ++ tail) = Raise StructError /\
  forall rest,
    consume (message :: rest) w = (w1, Raise StructError) /\
    main_loop (message :: rest) w = (w1, Raise StructError).
Proof.
  intros Hh Ht Hv Hk Hpk Hg.
  pose proof (parse_value_truncated_v1 _ _ _ _ _ Hh Ht) as Hpv.
  split; [exact Hpv|]. intros rest.
  destruct kt as [[[version group] topic] partition].
  assert (Hne : head ++ tail <> []).
  { apply encode_value_v1_head_not_nil in Hh.
    destruct head; [contradiction|discriminate]. }
  pose proof (process_message_decoded_key _ _ _ _ _ _ _ _ _ Hk Hv Hne Hpk Hg) as Hp.
  rewrite Hpv in Hp.
  destruct (consume_raise _ rest _ _ _ Hp) as [Hc Hm].
  split; [exact Hc|]. apply Hm. discriminate.
Qed.

Lemma truncated_v1_value_raises_witness :
  let message := commit_message 7 value_v1_truncated in
  parse_value (value_v1_truncated ++ []) = Raise StructError /\
  forall rest,
    consume (message :: rest) empty_world
    = ((exporter_offset_gauge message empty_world).1, Raise StructError) /\
    main_loop (message :: rest) empty_world
    = ((exporter_offset_gauge message empty_world).1, Raise StructError).
Proof.
  apply (truncated_v1_value_raises 42 [] 0 value_v1_truncated []
           (commit_message 7 (value_v1_truncated ++ [])) commit_key
           (1, py "g1", py "t1", 0) empty_world).
  - reflexivity.
  - cbn. lia.
  - reflexivity.
  - reflexivity.
  - reflexivity.
  - reflexivity.
Defined.

(** C3 fails as stated: a commit whose value of version 1 lacks the expire
    timestamp, followed by a regular commit. [parse_value] raises, the loop
    is left with [struct.error], and the second commit is not processed:
    its offset gauge and commit counter stay unset. *)
Lemma truncated_value_stops_the_loop :
  let bad := commit_message 7 value_v1_truncated in
  let good := commit_message 8 value_v0 in
  parse_value value_v1_truncated = Raise StructError /\
  (consume [bad; good] empty_world).2 = Raise StructError /\
  (main_loop [bad; good] empty_world).2 = Raise StructError /\
  sample (gauges (consume [bad; good] empty_world).1)
    (METRIC_PREFIX ++ py "offset") [py "g1"; py "t1"; py "0"] = None /\
  sample (counters (consume [bad; good] empty_world).1)
    (METRIC_PREFIX ++ py "commits") [py "g1"; py "t1"; py "0"] = None /\
  sample (gauges (consume [bad; good] empty_world).1)
    (METRIC_PREFIX ++ py "exporter_offset") [py "3"] = Some 7%float.
Proof. vm_compute. repeat split. Qed.

(** ** The highwater poller: responses *)

Lemma py_inj s1 s2 : py s1 = py s2 -> s1 = s2.
Proof.
  unfold py. intros H.
  rewrite <- (string_of_list_ascii_of_string s1),
          <- (string_of_list_ascii_of_string s2).
  f_equal. revert H.
  generalize (list_ascii_of_string s1) (list_ascii_of_string s2).
  induction l as [|a l IH]; intros [|b l']; cbn; try discriminate; [reflexivity|].
  intros [= Hab Hl]. f_equal; [|apply IH, Hl].
  apply N2Z.inj in Hab.
  rewrite <- (ascii_N_embedding a), <- (ascii_N_embedding b), Hab. reflexivity.
Qed.

Lemma to_int_not_nil z : Z.to_int z <> Pos Nil /\ Z.to_int z <> Neg Nil.
Proof.
  destruct z as [|p|p]; cbn; split; try discriminate;
    intros [= H]; exact (Unsigned.to_uint_nonnil p H).
Qed.

(** [str] tells integers apart. *)
Lemma py_str_int_inj z1 z2 : py_str (PInt z1) = py_str (PInt z2) -> z1 = z2.
Proof.
  cbn [py_str]. intros H. apply py_inj in H.
  apply DecimalZ.to_int_inj.
  destruct (to_int_not_nil z1) as [A1 B1], (to_int_not_nil z2) as [A2 B2].
  pose proof (NilZero.isi _ A1 B1) as E1.
  pose proof (NilZero.isi _ A2 B2) as E2.
  rewrite H in E1. congruence.
Qed.

Lemma py_float_int64 o :
  fits_signed 8 o = true -> py_float (NInt o) = Ok (py_float_value o).
Proof.
  intros H. apply fits_signed_spec in H.
  change (8 * Z.of_nat 8 - 1) with 63 in H.
  unfold py_float.
  assert (2 ^ 63 < 2 ^ 1024 - 2 ^ 970) by (vm_compute; reflexivity).
  destruct (Z.ltb_spec (Z.abs o) (2 ^ 1024 - 2 ^ 970)); [reflexivity|lia].
Qed.

(** A first call does what a call on the freshly registered metric does. *)
Lemma update_gauge_new w name labels value g :
  gauges w !! name = None ->
  new_metric GaugeKind name (dict_keys labels) (registry_names w) = Ok g ->
  update_gauge name labels value w
  = update_gauge name labels value (set_gauges (<[name := g]> (gauges w)) w).
Proof.
  intros Hg Hn. unfold update_gauge. run_M. rewrite Hg, Hn. cbn beta iota.
  cbn [gauges set_gauges]. rewrite lookup_insert_eq. cbn beta iota.
  cbn [gauges set_gauges]. rewrite lookup_insert_eq.
  destruct (dict_values labels); reflexivity.
Qed.

Lemma highwater_gauge_new w :
  gauges w !! highwater_name = None -> highwater_gauge_ready w = true ->
  forall topic partition,
    new_metric GaugeKind highwater_name (dict_keys (highwater_labels topic partition))
      (registry_names w)
    = Ok {| labelnames := [py "topic"; py "partition"]; own_value := 0%float;
            children := ∅ |}.
Proof.
  intros Hg Hr topic partition. unfold highwater_gauge_ready in Hr.
  rewrite Hg in Hr. apply negb_true_iff in Hr.
  unfold new_metric.
  change (timeseries_names GaugeKind highwater_name) with [highwater_name].
  cbn [existsb]. rewrite Hr. reflexivity.
Qed.

(** Publishing one highwater sample. *)
Lemma publish_highwater w topic partition o :
  highwater_gauge_ready w = true -> fits_signed 8 o = true ->
  exists w',
    update_gauge highwater_name (highwater_labels topic partition) (NInt o) w
    = (w', Ok tt) /\
    highwater_gauge_ready w' = true /\
    highwater w' = highwater w /\
    forall t p,
      highwater_sample w' t p
      = if decide (topic = t /\ partition = p) then Some (py_float_value o)
        else highwater_sample w t p.
Proof.
  intros Hr Ho.
  assert (Hreg : forall w0 g, gauges w0 !! highwater_name = Some g ->
            length (labelnames g) = 2%nat ->
            exists w',
              update_gauge highwater_name (highwater_labels topic partition) (NInt o) w0
              = (w', Ok tt) /\
              highwater_gauge_ready w' = true /\
              highwater w' = highwater w0 /\
              forall t p,
                highwater_sample w' t p
                = if decide (topic = t /\ partition = p) then Some (py_float_value o)
                  else sample (<[highwater_name := g]> (gauges w0)) highwater_name
                         [t; py_str (PInt p)]).
  { intros w0 g Hg Hlen. eexists. split; [|split; [|split]].
    - apply update_gauge_registered with (v := py_float_value o);
        [exact Hg | rewrite Hlen; reflexivity | apply py_float_int64, Ho].
    - unfold highwater_gauge_ready. cbn [gauges set_gauges].
      rewrite lookup_insert_eq, labelnames_store_sample.
      apply bool_decide_eq_true_2, Hlen.
    - reflexivity.
    - intros t p. unfold highwater_sample, sample. cbn [gauges set_gauges].
      rewrite !lookup_insert_eq. cbn [mbind option_bind].
      rewrite labelnames_store_sample. unfold store_sample.
      destruct (labelnames g) as [|n ns] eqn:En; [discriminate|].
      cbn [children set_child].
      change (label_key (highwater_labels topic partition))
        with [topic; py_str (PInt partition)].
      destruct (decide (topic = t /\ partition = p)) as [[-> ->]|Hne].
      + apply lookup_insert_eq.
      + apply lookup_insert_ne. intros [= Ht Hp].
        apply Hne. split; [exact Ht|]. apply py_str_int_inj.
        cbn [py_str]. exact Hp. }
  destruct (gauges w !! highwater_name) as [g|] eqn:Hg.
  - unfold highwater_gauge_ready in Hr. rewrite Hg in Hr.
    apply bool_decide_eq_true_1 in Hr.
    destruct (Hreg w g Hg Hr) as (w' & E & R & H & S).
    exists w'. repeat split; auto. intros t p. rewrite S.
    rewrite insert_id by exact Hg. reflexivity.
  - pose proof (highwater_gauge_new w Hg Hr topic partition) as Hn.
    set (g0 := {| labelnames := [py "topic"; py "partition"];
                  own_value := 0%float; children := ∅ |}) in Hn.
    rewrite (update_gauge_new _ _ _ _ _ Hg Hn).
    destruct (Hreg (set_gauges (<[highwater_name := g0]> (gauges w)) w) g0)
      as (w' & E & R & H & S);
      [cbn [gauges set_gauges]; apply lookup_insert_eq | reflexivity |].
    exists w'. repeat split; auto. intros t p. rewrite S.
    destruct (decide _); [reflexivity|].
    unfold highwater_sample, sample. cbn [gauges set_gauges].
    rewrite insert_insert_eq, lookup_insert_eq, Hg. reflexivity.
Qed.

Lemma highwater_entry_insert w topic partition o t p :
  highwater_entry
    (set_highwater
       (<[topic := <[partition := o]> (default ∅ (highwater w !! topic))]> (highwater w)) w)
    t p
  = if decide (topic = t /\ partition = p) then Some o else highwater_entry w t p.
Proof.
  unfold highwater_entry. cbn [highwater set_highwater].
  destruct (decide (topic = t)) as [->|Ht].
  - rewrite lookup_insert_eq. cbn [mbind option_bind].
    destruct (decide (partition = p)) as [->|Hp].
    + rewrite lookup_insert_eq. rewrite decide_True by auto. reflexivity.
    + rewrite lookup_insert_ne by exact Hp.
      rewrite decide_False by (intros [_ ?]; contradiction).
      destruct (highwater w !! t); [reflexivity|apply lookup_empty].
  - rewrite lookup_insert_ne by exact Ht.
    rewrite decide_False by (intros [? _]; contradiction). reflexivity.
Qed.

Lemma update_highwater_partitions_ok topic partitions w :
  forallb entry_ok partitions = true ->
  highwater_gauge_ready w = true ->
  exists w',
    update_highwater_partitions topic partitions w = (w', Ok tt) /\
    highwater_gauge_ready w' = true /\
    forall t p,
      let entries :=
        map (fun '(partition, error_code, offsets) =>
               (topic, partition, error_code, offsets)) partitions in
      highwater_entry w' t p = last_write id entries t p (highwater_entry w t p) /\
      highwater_sample w' t p
      = last_write py_float_value entries t p (highwater_sample w t p).
Proof.
  revert w. induction partitions as [|[[partition error_code] offsets] rest IH];
    intros w Hok Hr.
  - exists w. repeat split; auto.
  - cbn [forallb entry_ok] in Hok. apply andb_true_iff in Hok as [Ho Hrest].
    destruct offsets as [|first more]; [discriminate|].
    cbn [update_highwater_partitions]. run_M.
    change (METRIC_PREFIX ++ py "highwater") with highwater_name.
    set (w1 := set_highwater _ w).
    destruct (publish_highwater w1 topic partition first Hr Ho)
      as (w2 & E2 & R2 & H2 & S2).
    rewrite E2. cbn beta iota.
    destruct (IH w2 Hrest R2) as (w3 & E3 & R3 & P3).
    exists w3. split; [exact E3|]. split; [exact R3|].
    intros t p. destruct (P3 t p) as [Pe Ps]. cbn zeta in *.
    cbn [map last_write fold_left head fmap option_fmap option_map].
    unfold last_write in Pe, Ps. rewrite Pe, Ps. split; f_equal.
    + unfold highwater_entry at 1. rewrite H2. fold (highwater_entry w1 t p).
      unfold w1. rewrite highwater_entry_insert.
      destruct (decide _); reflexivity.
    + rewrite S2. destruct (decide _); reflexivity.
Qed.

Lemma last_write_app {A} (f : Z -> A) e1 e2 t p init :
  last_write f (e1 ++ e2) t p init = last_write f e2 t p (last_write f e1 t p init).
Proof. unfold last_write. apply fold_left_app. Qed.

Lemma entries_have_offsets_cons topic partitions rest :
  entries_have_offsets ((topic, partitions) :: rest)
  = forallb entry_ok partitions && entries_have_offsets rest.
Proof.
  unfold entries_have_offsets. cbn [response_entries flat_map].
  rewrite forallb_app. f_equal.
  induction partitions as [|[[p e] o] ps IH]; [reflexivity|].
  cbn [map forallb entry_ok]. rewrite IH. reflexivity.
Qed.

Lemma update_highwater_topics_ok resp w :
  entries_have_offsets resp = true ->
  highwater_gauge_ready w = true ->
  exists w',
    update_highwater_topics resp w = (w', Ok tt) /\
    forall t p,
      highwater_entry w' t p
      = last_write id (response_entries resp) t p (highwater_entry w t p) /\
      highwater_sample w' t p
      = last_write py_float_value (response_entries resp) t p (highwater_sample w t p).
Proof.
  revert w. induction resp as [|[topic partitions] rest IH]; intros w Hok Hr.
  - exists w. repeat split; auto.
  - rewrite entries_have_offsets_cons in Hok.
    apply andb_true_iff in Hok as [Hp Hrest].
    set (w1 := match highwater w !! topic with
               | Some _ => w
               | None => set_highwater (<[topic := ∅]> (highwater w)) w
               end).
    assert (Hr1 : highwater_gauge_ready w1 = true)
      by (unfold w1; destruct (highwater w !! topic); exact Hr).
    assert (He1 : forall t p, highwater_entry w1 t p = highwater_entry w t p).
    { intros t p. unfold w1. destruct (highwater w !! topic) eqn:E; [reflexivity|].
      unfold highwater_entry. cbn [highwater set_highwater].
      destruct (decide (topic = t)) as [->|Hne].
      - rewrite lookup_insert_eq, E. cbn [mbind option_bind]. apply lookup_empty.
      - rewrite lookup_insert_ne by exact Hne. reflexivity. }
    assert (Hs1 : forall t p, highwater_sample w1 t p = highwater_sample w t p)
      by (intros t p; unfold w1; destruct (highwater w !! topic); reflexivity).
    destruct (update_highwater_partitions_ok topic partitions w1 Hp Hr1)
      as (w2 & E2 & R2 & P2).
    destruct (IH w2 Hrest R2) as (w3 & E3 & P3).
    exists w3. split.
    + cbn [update_highwater_topics]. run_M. clear Hr1 He1 Hs1 P2.
      unfold w1 in E2. clear w1.
      destruct (highwater w !! topic); cbn beta iota;
        rewrite E2; cbn beta iota; exact E3.
    + intros t p.
      destruct (P3 t p) as [Pe Ps]. destruct (P2 t p) as [Qe Qs]. cbn zeta in *.
      cbn [response_entries flat_map]. rewrite !last_write_app.
      fold (response_entries rest).
      rewrite Pe, Ps, Qe, Qs, He1, Hs1. split; reflexivity.
Qed.

(** C9 (as the code has it): for a response in which every entry carries
    at least one offset, and with the highwater gauge registered with its
    two label names or its name not yet held by the registry,
    [update_highwater] returns, and the Highwater Table and the highwater
    gauge then hold, for every topic and partition, the first offset of
    the last entry for them in the response, whatever the error codes are;
    topics and partitions the response does not name keep what they
    had. *)
Theorem update_highwater_writes_every_entry (resp : OffsetResponse) (w : World) :
  entries_have_offsets resp = true ->
  highwater_gauge_ready w = true ->
  exists w',
    update_highwater resp w = (w', Ok tt) /\
    forall topic partition,
      highwater_entry w' topic partition
      = last_write id (response_entries resp) topic partition
          (highwater_entry w topic partition) /\
      highwater_sample w' topic partition
      = last_write py_float_value (response_entries resp) topic partition
          (highwater_sample w topic partition).
Proof.
  intros Hok Hr.
  destruct (update_highwater_topics_ok resp
              (add_log INFO "Received high-water marks" w) Hok Hr) as (w' & E & P).
  exists w'. split.
  - unfold update_highwater, logging_info. run_M. exact E.
  - intros topic partition. apply P.
Qed.

Lemma update_highwater_writes_every_entry_witness :
  let resp := [(py "t1", [(0, 6, [100; 90]); (1, 0, [7])])] in
  exists w',
    update_highwater resp empty_world = (w', Ok tt) /\
    forall topic partition,
      highwater_entry w' topic partition
      = last_write id (response_entries resp) topic partition None /\
      highwater_sample w' topic partition
      = last_write py_float_value (response_entries resp) topic partition None.
Proof.
  apply (update_highwater_writes_every_entry
           [(py "t1", [(0, 6, [100; 90]); (1, 0, [7])])] empty_world).
  - reflexivity.
  - reflexivity.
Defined.

(** C9 fails as stated: in a response whose first entry has an error code
    and an empty list of offsets, [offsets[0]] raises [IndexError]; the
    entry after it, partition 1 of t1 with offset 100, is neither written
    to the Highwater Table nor published. *)
Lemma entry_after_empty_offsets_not_written :
  In (py "t1", 1, 0, [100]) (response_entries response_with_error) /\
  (update_highwater response_with_error empty_world).2 = Raise IndexError /\
  highwater_entry (update_highwater response_with_error empty_world).1 (py "t1") 1
  = None /\
  highwater_sample (update_highwater response_with_error empty_world).1 (py "t1") 1
  = None.
Proof. vm_compute. repeat split. right. left. reflexivity. Qed.

(** ** Dicts in insertion order *)

Section PyDictFacts.
Context {K V : Type} `{EqDecision K}.
Implicit Types (d : pydict K V) (k : K) (v : V).

Lemma dict_get_set_eq k v d : dict_get k (dict_set k v d) = Some v.
Proof.
  induction d as [|[k' v'] d IH]; cbn.
  - rewrite decide_True; reflexivity.
  - destruct (decide (k = k')) as [->|Hne]; cbn.
    + rewrite decide_True; reflexivity.
    + rewrite decide_False by exact Hne. exact IH.
Qed.

Lemma dict_get_set_ne k k' v d :
  k <> k' -> dict_get k' (dict_set k v d) = dict_get k' d.
Proof.
  intros Hne. induction d as [|[k0 v0] d IH]; cbn.
  - rewrite decide_False by congruence. reflexivity.
  - destruct (decide (k = k0)) as [->|Hk]; cbn.
    + rewrite !decide_False by congruence. reflexivity.
    + destruct (decide (k' = k0)); [reflexivity|exact IH].
Qed.

Lemma dict_get_None k d : dict_get k d = None <-> k ∉ dict_keys d.
Proof.
  unfold dict_keys. induction d as [|[k' v'] d IH]; cbn.
  - split; [intros _; apply not_elem_of_nil|reflexivity].
  - rewrite not_elem_of_cons. destruct (decide (k = k')) as [->|Hne].
    + split; [discriminate|intros [? _]; contradiction].
    + rewrite IH. tauto.
Qed.

Lemma dict_keys_set k v d :
  dict_keys (dict_set k v d)
  = if dict_mem k d then dict_keys d else dict_keys d ++ [k].
Proof.
  unfold dict_mem, dict_keys. induction d as [|[k' v'] d IH]; cbn; [reflexivity|].
  destruct (decide (k = k')) as [->|Hne]; cbn; [reflexivity|].
  rewrite IH. destruct (dict_get k d); reflexivity.
Qed.

Lemma NoDup_dict_set k v d :
  NoDup (dict_keys d) -> NoDup (dict_keys (dict_set k v d)).
Proof.
  intros Hd. rewrite dict_keys_set. unfold dict_mem.
  destruct (dict_get k d) eqn:E; [exact Hd|].
  apply NoDup_app. split; [exact Hd|]. split.
  - intros x Hx Hk. apply list_elem_of_singleton in Hk as ->.
    apply dict_get_None in E. contradiction.
  - apply NoDup_singleton.
Qed.

(** The entries whose key is [k], in a dict that has each key once. *)
Lemma filter_dict_key k d :
  NoDup (dict_keys d) ->
  filter (fun kv => kv.1 = k) d
  = match dict_get k d with Some v => [(k, v)] | None => [] end.
Proof.
  unfold dict_keys. induction d as [|[k' v'] d IH]; intros Hd; [reflexivity|].
  cbn [map fst] in Hd. apply NoDup_cons in Hd as [Hk' Hd].
  rewrite filter_cons. cbn [fst dict_get].
  destruct (decide (k = k')) as [->|Hne].
  - rewrite decide_True by reflexivity. f_equal.
    rewrite (IH Hd). apply dict_get_None in Hk'. rewrite Hk'. reflexivity.
  - rewrite decide_False by congruence. apply IH, Hd.
Qed.

Lemma dict_get_elem_of k v d : dict_get k d = Some v -> (k, v) ∈ d.
Proof.
  induction d as [|[k' v'] d IH]; cbn; [discriminate|].
  destruct (decide (k = k')) as [->|Hne].
  - intros [= ->]. apply list_elem_of_here.
  - intros H. apply list_elem_of_further, IH, H.
Qed.

(** Binding a key that may be missing, as [if k not in d: d[k] = x]. *)
Lemma dict_get_ensure k k' (x : V) d :
  dict_get k' (if dict_mem k d then d else dict_set k x d)
  = if decide (k = k') then Some (default x (dict_get k d)) else dict_get k' d.
Proof.
  unfold dict_mem. destruct (dict_get k d) as [v|] eqn:E.
  - destruct (decide (k = k')) as [<-|Hne]; [rewrite E|]; reflexivity.
  - destruct (decide (k = k')) as [<-|Hne].
    + apply dict_get_set_eq.
    + apply dict_get_set_ne, Hne.
Qed.

Lemma NoDup_ensure k (x : V) d :
  NoDup (dict_keys d) ->
  NoDup (dict_keys (if dict_mem k d then d else dict_set k x d)).
Proof.
  intros Hd. destruct (dict_mem k d); [exact Hd|]. apply NoDup_dict_set, Hd.
Qed.
End PyDictFacts.

(** ** The highwater poller: requests *)

(** The grouping loops run over the assignments one after the other. *)
Lemma group_by_leader_assignments ts :
  group_by_leader ts
  = fold_left (fun nodes '(topic, partition, leader) =>
                 group_step topic nodes (partition, leader)) (assignments ts) [].
Proof.
  unfold group_by_leader, assignments. generalize (@nil (Z * list (pystr * list Z))).
  induction ts as [|[topic pm] ts IH]; intros acc; [reflexivity|].
  cbn [fold_left flat_map]. rewrite fold_left_app, IH. f_equal.
  clear IH. revert acc. induction pm as [|[p l] pm IHpm]; intros acc; [reflexivity|].
  cbn [fold_left map]. apply IHpm.
Qed.

(** One step of the grouping: the partition is appended to the list of its
    leader and topic, and nothing else changes. *)
Lemma group_step_spec topic nodes partition leader :
  nodes_wf nodes ->
  nodes_wf (group_step topic nodes (partition, leader)) /\
  forall node t,
    grouped (group_step topic nodes (partition, leader)) node t
    = if decide (leader = node /\ topic = t)
      then grouped nodes node t ++ [partition]
      else grouped nodes node t.
Proof.
  intros [Hn Hin]. unfold group_step.
  remember (if dict_mem leader nodes then nodes else dict_set leader [] nodes)
    as nodes1 eqn:En1.
  assert (Hn1 : NoDup (dict_keys nodes1)) by (subst nodes1; apply NoDup_ensure, Hn).
  remember (default [] (dict_get leader nodes)) as tm0 eqn:Etm0.
  assert (Hg1 : forall node, dict_get node nodes1
                = if decide (leader = node) then Some tm0 else dict_get node nodes)
    by (intros node; subst nodes1 tm0; apply dict_get_ensure).
  assert (Htm0 : NoDup (dict_keys tm0) /\
                 forall t ps, dict_get t tm0 = Some ps -> ps <> []).
  { subst tm0. destruct (dict_get leader nodes) as [tm|] eqn:E.
    - apply (Hin _ _ E).
    - split; [apply NoDup_nil_2|discriminate]. }
  destruct Htm0 as [Hd0 Hne0].
  rewrite (Hg1 leader), decide_True by reflexivity. cbn [default from_option id].
  remember (if dict_mem topic tm0 then tm0 else dict_set topic [] tm0)
    as tm1 eqn:Etm1.
  assert (Hd1 : NoDup (dict_keys tm1)) by (subst tm1; apply NoDup_ensure, Hd0).
  remember (default [] (dict_get topic tm0)) as ps0 eqn:Eps0.
  assert (Ht1 : forall t, dict_get t tm1
                = if decide (topic = t) then Some ps0 else dict_get t tm0)
    by (intros t; subst tm1 ps0; apply dict_get_ensure).
  rewrite (Ht1 topic), decide_True by reflexivity. cbn [default from_option id].
  remember (dict_set topic (ps0 ++ [partition]) tm1) as tmR eqn:EtmR.
  assert (HtR : forall t, dict_get t tmR
                = if decide (topic = t) then Some (ps0 ++ [partition])
                  else dict_get t tm0).
  { intros t. subst tmR. destruct (decide (topic = t)) as [<-|Hne].
    - apply dict_get_set_eq.
    - rewrite dict_get_set_ne by exact Hne. rewrite Ht1.
      rewrite decide_False by exact Hne. reflexivity. }
  assert (HgR : forall node, dict_get node (dict_set leader tmR nodes1)
                = if decide (leader = node) then Some tmR else dict_get node nodes).
  { intros node. destruct (decide (leader = node)) as [<-|Hne].
    - apply dict_get_set_eq.
    - rewrite dict_get_set_ne by exact Hne. rewrite Hg1.
      rewrite decide_False by exact Hne. reflexivity. }
  split; [split|].
  - apply NoDup_dict_set, Hn1.
  - intros node tm. rewrite HgR. destruct (decide (leader = node)) as [<-|Hne].
    + intros [= <-]. split; [subst tmR; apply NoDup_dict_set, Hd1|].
      intros t ps. rewrite HtR. destruct (decide (topic = t)).
      * intros [= <-]. intros E. apply app_eq_nil in E as [_ E]. discriminate.
      * apply Hne0.
    + apply Hin.
  - intros node t. unfold grouped. rewrite HgR.
    destruct (decide (leader = node)) as [<-|Hne].
    + cbn [mbind option_bind]. rewrite HtR.
      destruct (decide (topic = t)) as [<-|Hnt].
      * rewrite decide_True by auto. cbn [default from_option id]. f_equal.
        subst ps0 tm0. destruct (dict_get leader nodes); reflexivity.
      * rewrite decide_False by (intros [_ ?]; contradiction).
        subst tm0. destruct (dict_get leader nodes); reflexivity.
    + rewrite decide_False by (intros [? _]; contradiction). reflexivity.
Qed.

Lemma nodes_wf_nil : nodes_wf [].
Proof. split; [apply NoDup_nil_2|discriminate]. Qed.

(** After the grouping loops: [nodes[node][topic]] lists the partitions
    assigned to this leader and topic. *)
Lemma group_fold_spec (items : list (pystr * Z * Z)) nodes :
  nodes_wf nodes ->
  let nodes' := fold_left (fun nodes '(topic, partition, leader) =>
                             group_step topic nodes (partition, leader)) items nodes in
  nodes_wf nodes' /\
  forall node t,
    grouped nodes' node t
    = grouped nodes node t
      ++ map (fun x => x.1.2) (filter (fun x => x.2 = node /\ x.1.1 = t) items).
Proof.
  revert nodes. induction items as [|[[topic p] l] items IH]; intros nodes Hwf.
  - cbn. split; [exact Hwf|]. intros. rewrite app_nil_r. reflexivity.
  - cbn zeta. cbn [fold_left].
    destruct (group_step_spec topic nodes p l Hwf) as [Hwf1 Hg1].
    destruct (IH _ Hwf1) as [Hwf2 Hg2]. cbn zeta in Hwf2, Hg2.
    split; [exact Hwf2|]. intros node t. rewrite Hg2, Hg1, filter_cons.
    repeat case_decide; cbn [fst snd] in *.
    + cbn [map fst snd]. rewrite <- app_assoc. reflexivity.
    + tauto.
    + tauto.
    + reflexivity.
Qed.

(** The assignments of one leader and topic are the partitions that
    leader has in the topic's entry of the map. *)
Lemma assignments_led ts node t :
  NoDup (dict_keys ts) ->
  map (fun x => x.1.2) (filter (fun x => x.2 = node /\ x.1.1 = t) (assignments ts))
  = led_partitions ts node t.
Proof.
  unfold led_partitions, assignments, dict_keys.
  induction ts as [|[topic pm] ts IH]; intros Hd; [reflexivity|].
  cbn [map fst] in Hd. apply NoDup_cons in Hd as [Htopic Hd].
  cbn [flat_map dict_get]. rewrite filter_app, map_app, (IH Hd).
  destruct (decide (t = topic)) as [->|Hne].
  - apply dict_get_None in Htopic. rewrite Htopic, app_nil_r.
    clear. induction pm as [|[p l] pm IHpm]; [reflexivity|].
    cbn [map]. rewrite !filter_cons.
    repeat case_decide; cbn [fst snd map] in *; try tauto; f_equal; exact IHpm.
  - replace (filter _ (map _ pm)) with (@nil (pystr * Z * Z)); [reflexivity|].
    clear -Hne. induction pm as [|[p l] pm IHpm]; [reflexivity|].
    cbn [map]. rewrite filter_cons.
    case_decide; cbn [fst snd] in *; [|exact IHpm].
    exfalso. destruct H as [_ H]. congruence.
Qed.

Lemma group_by_leader_spec ts :
  NoDup (dict_keys ts) ->
  nodes_wf (group_by_leader ts) /\
  forall node t, grouped (group_by_leader ts) node t = led_partitions ts node t.
Proof.
  intros Hd. rewrite group_by_leader_assignments.
  destruct (group_fold_spec (assignments ts) [] nodes_wf_nil) as [Hwf Hg].
  split; [exact Hwf|]. intros node t. cbn zeta in Hg. rewrite Hg.
  cbn [grouped]. apply assignments_led, Hd.
Qed.

Lemma nodes_wf_cons_inv n tm (rest : pydict Z (pydict pystr (list Z))) :
  nodes_wf ((n, tm) :: rest) ->
  NoDup (dict_keys tm) /\
  (forall t ps, dict_get t tm = Some ps -> ps <> []) /\
  dict_get n rest = None /\
  nodes_wf rest.
Proof.
  intros [Hd Hin]. cbn [dict_keys map fst] in Hd.
  apply NoDup_cons in Hd as [Hn Hd].
  destruct (Hin n tm) as [Htm Hps]; [cbn; rewrite decide_True; reflexivity|].
  split; [exact Htm|]. split; [exact Hps|].
  split; [apply dict_get_None, Hn|]. split; [exact Hd|].
  intros n' tm' E. apply (Hin n' tm'). cbn [dict_get].
  rewrite decide_False; [exact E|].
  intros ->. apply Hn.
  apply (list_elem_of_fmap_2 fst _ _ (dict_get_elem_of _ _ _ E)).
Qed.

Lemma requests_for_topic_map n (tm : pydict pystr (list Z)) node t :
  NoDup (dict_keys tm) ->
  requests_for node t
    (map (fun '(topic, partitions) => (n, offset_request topic partitions)) tm)
  = if decide (n = node)
    then match dict_get t tm with
         | Some ps => [(n, offset_request t ps)]
         | None => []
         end
    else [].
Proof.
  unfold requests_for, dict_keys.
  induction tm as [|[t' ps'] tm IH]; intros Hd.
  - cbn. destruct (decide (n = node)); reflexivity.
  - cbn [map fst] in Hd. apply NoDup_cons in Hd as [Ht' Hd].
    cbn [map dict_get]. rewrite filter_cons, (IH Hd).
    cbn [fst snd offset_request request_topic_names map].
    apply dict_get_None in Ht'.
    destruct (decide (n = node)) as [->|Hn].
    + destruct (decide (t = t')) as [->|Ht].
      * rewrite decide_True by auto. rewrite Ht'. reflexivity.
      * rewrite decide_False by (intros [_ [= ?]]; congruence). reflexivity.
    + rewrite decide_False by (intros [? _]; contradiction). reflexivity.
Qed.

(** The requests of a cycle for one node and topic: one request when the
    node leads a partition of the topic, none otherwise. *)
Lemma requests_for_offset_requests nodes node t :
  nodes_wf nodes ->
  requests_for node t (offset_requests nodes)
  = match grouped nodes node t with
    | [] => []
    | ps => [(node, offset_request t ps)]
    end.
Proof.
  induction nodes as [|[n tm] rest IH]; intros Hwf; [reflexivity|].
  destruct (nodes_wf_cons_inv _ _ _ Hwf) as (Htm & Hps & Hn & Hrest).
  unfold offset_requests. cbn [flat_map]. fold (offset_requests rest).
  unfold requests_for at 1. rewrite filter_app.
  fold (requests_for node t (offset_requests rest)).
  fold (requests_for node t
          (map (fun '(topic, partitions) => (n, offset_request topic partitions)) tm)).
  rewrite (requests_for_topic_map _ _ _ _ Htm), (IH Hrest).
  unfold grouped. cbn [dict_get].
  destruct (decide (n = node)) as [->|Hne].
  - rewrite decide_True by reflexivity. rewrite Hn. cbn [mbind option_bind default].
    rewrite app_nil_r.
    destruct (dict_get t tm) as [ps|] eqn:E; [|reflexivity].
    cbn [default from_option id]. destruct ps; [|reflexivity].
    exfalso. apply (Hps _ _ E). reflexivity.
  - rewrite decide_False by congruence. reflexivity.
Qed.

Lemma offset_requests_shape nodes node r :
  (node, r) ∈ offset_requests nodes ->
  exists topic partitions, r = offset_request topic partitions.
Proof.
  unfold offset_requests. intros H.
  apply list_elem_of_In, in_flat_map in H as ([n tm] & _ & H).
  apply in_map_iff in H as ([t ps] & [= _ <-] & _). eauto.
Qed.

(** With a client whose [send] returns, every request of the cycle is
    sent, in order. *)
Lemma send_offset_requests_ok cl reqs w :
  (forall node request, send_result cl node request = Ok tt) ->
  exists w',
    send_offset_requests cl reqs w = (w', Ok tt) /\
    sent w' = sent w ++ map (fun '(node, request) => (Some node, request)) reqs /\
    log w' = log w /\ scheduled w' = scheduled w.
Proof.
  intros Hs. revert w. induction reqs as [|[node request] reqs IH]; intros w.
  - exists w. cbn. rewrite app_nil_r. auto.
  - destruct (IH (add_callback_entry (length (sent w)) UpdateHighwater
                    (add_sent (Some node) request w))) as (w' & E & S & L & C).
    exists w'. split; [|split; [|split]].
    + cbn [send_offset_requests]. unfold client_send, add_callback. run_M.
      rewrite Hs. exact E.
    + rewrite S. cbn [sent add_callback_entry add_sent map].
      rewrite <- app_assoc. reflexivity.
    + rewrite L. reflexivity.
    + rewrite C. reflexivity.
Qed.

(** C2 (as the code has it): in one highwater poll cycle the (topic,
    partition) pairs of the Assignment Map are grouped by leader node and
    by topic, and one request is sent per leader node and topic with a
    partition that node leads: it names this one topic and every partition
    of it that the node leads. Every request sent is one of these. A node
    that leads partitions of several topics gets one request per topic.
    The Assignment Map is a dict, so it has each topic once, and the
    client's [send] is taken not to raise. *)
Theorem one_request_per_leader_and_topic (cl : Client) (t : float) (w : World) :
  NoDup (dict_keys (topics w)) ->
  (forall node request, send_result cl node request = Ok tt) ->
  let reqs := offset_requests (group_by_leader (topics w)) in
  exists w',
    fetch_highwater cl t w = (w', Ok tt) /\
    sent w' = sent w ++ map (fun '(node, request) => (Some node, request)) reqs /\
    (forall node topic,
       requests_for node topic reqs
       = match led_partitions (topics w) node topic with
         | [] => []
         | partitions => [(node, offset_request topic partitions)]
         end) /\
    (forall node request,
       (node, request) ∈ reqs ->
       exists topic,
         led_partitions (topics w) node topic <> [] /\
         request = offset_request topic (led_partitions (topics w) node topic)).
Proof.
  intros Hd Hs reqs.
  destruct (group_by_leader_spec _ Hd) as [Hwf Hg].
  assert (Hfor : forall node topic,
            requests_for node topic reqs
            = match led_partitions (topics w) node topic with
              | [] => []
              | partitions => [(node, offset_request topic partitions)]
              end).
  { intros node topic. unfold reqs.
    rewrite (requests_for_offset_requests _ _ _ Hwf), Hg. reflexivity. }
  assert (Hbody : exists w1,
            fetch_highwater_request cl (add_log INFO "Requesting high-water marks" w)
            = (w1, Ok tt) /\
            sent w1 = sent w ++ map (fun '(node, request) => (Some node, request)) reqs).
  { unfold fetch_highwater_request. run_M. cbn [topics add_log]. fold reqs.
    destruct (send_offset_requests_ok cl reqs
                (add_log INFO "Requesting high-water marks" w) Hs)
      as (w1 & E1 & S1 & _).
    destruct (topics w) as [|entry ts] eqn:Et.
    - eexists. split; [reflexivity|]. cbn. rewrite app_nil_r. reflexivity.
    - exists w1. split; [exact E1|exact S1]. }
  destruct Hbody as (w1 & E1 & S1).
  exists (add_scheduled (t + 10)%float (FetchHighwater (t + 10)%float) w1).
  split; [|split; [|split]].
  - unfold fetch_highwater, logging_info. run_M.
    unfold try_except_finally. rewrite E1. reflexivity.
  - exact S1.
  - exact Hfor.
  - intros node request Hin.
    destruct (offset_requests_shape _ _ _ Hin) as (topic & partitions & ->).
    exists topic.
    assert (Hmem : (node, offset_request topic partitions)
                   ∈ requests_for node topic reqs).
    { unfold requests_for. apply list_elem_of_filter. split; [|exact Hin].
      split; reflexivity. }
    rewrite Hfor in Hmem.
    destruct (led_partitions (topics w) node topic) as [|p ps].
    + apply elem_of_nil in Hmem. contradiction.
    + apply list_elem_of_singleton in Hmem. split; [discriminate|].
      congruence.
Qed.

Lemma one_request_per_leader_and_topic_witness :
  let w := set_topics two_topics_one_leader empty_world in
  let reqs := offset_requests (group_by_leader two_topics_one_leader) in
  exists w',
    fetch_highwater working_client 0%float w = (w', Ok tt) /\
    sent w' = [] ++ map (fun '(node, request) => (Some node, request)) reqs /\
    (forall node topic,
       requests_for node topic reqs
       = match led_partitions two_topics_one_leader node topic with
         | [] => []
         | partitions => [(node, offset_request topic partitions)]
         end) /\
    (forall node request,
       (node, request) ∈ reqs ->
       exists topic,
         led_partitions two_topics_one_leader node topic <> [] /\
         request = offset_request topic (led_partitions two_topics_one_leader node topic)).
Proof.
  apply (one_request_per_leader_and_topic working_client 0%float
           (set_topics two_topics_one_leader empty_world)).
  - apply (bool_decide_unpack (NoDup _)). vm_compute. exact I.
  - intros node request. reflexivity.
Defined.

(** C2 fails as stated: with topics t1 and t2 both having a partition led
    by node 1, one cycle sends node 1 two requests, one naming t1 and one
    naming t2, and not a single request covering both topics. *)
Lemma two_requests_to_one_leader :
  let w := set_topics two_topics_one_leader empty_world in
  let w' := (fetch_highwater working_client 0%float w).1 in
  sent w' = [(Some 1, offset_request (py "t1") [0]);
             (Some 1, offset_request (py "t2") [0]);
             (Some 2, offset_request (py "t1") [1])] /\
  requests_to 1 (offset_requests (group_by_leader two_topics_one_leader))
  = [(1, offset_request (py "t1") [0]); (1, offset_request (py "t2") [0])] /\
  length (requests_to 1 (offset_requests (group_by_leader two_topics_one_leader)))
  <> 1%nat.
Proof. vm_compute. repeat split. discriminate. Qed.

(** The Assignment Map [update_topics] builds has each topic once. *)
Lemma topics_comprehension_NoDup i ts acc r :
  NoDup (dict_keys acc) ->
  topics_comprehension i ts acc = Ok r -> NoDup (dict_keys r).
Proof.
  revert acc. induction ts as [|t ts IH]; intros acc Hacc; cbn [topics_comprehension].
  - intros [= <-]. exact Hacc.
  - destruct (topic_partitions i t) as [ps|e]; [|discriminate].
    cbn [mbind result_bind]. apply IH, NoDup_dict_set, Hacc.
Qed.

Lemma update_topics_NoDup api_version metadata_topics w :
  NoDup (dict_keys (topics w)) ->
  NoDup (dict_keys (topics (update_topics api_version metadata_topics w).1)).
Proof.
  intros Hw. unfold update_topics, logging_info. run_M.
  destruct (api_version =? 0).
  - destruct (topics_comprehension 2 metadata_topics []) as [r|e] eqn:E; [|exact Hw].
    cbn. eapply (topics_comprehension_NoDup _ _ []); [apply NoDup_nil_2|exact E].
  - destruct (api_version =? 1); [|exact Hw].
    destruct (topics_comprehension 3 metadata_topics []) as [r|e] eqn:E; [|exact Hw].
    cbn. eapply (topics_comprehension_NoDup _ _ []); [apply NoDup_nil_2|exact E].
Qed.

(** ** More on the wire decoder *)

(** X1: [parse_value] gives back the tuple that was encoded, whatever bytes
    follow the record. *)
Theorem parse_value_encode_value (v : value_tuple) (bs extra : bytes) :
  value_version_ok v = true ->
  encode_value v = Some bs ->
  parse_value (bs ++ extra) = Ok (Some v).
Proof.
  intros Hv. unfold encode_value.
  destruct v as [version offset metadata timestamp
                |version offset metadata commit expire];
    cbn [value_version_ok] in Hv; apply Z.eqb_eq in Hv; subst version;
    destruct (encode_string metadata) as [m|] eqn:Em; try discriminate;
    cbn [mbind option_bind];
    change (fits_signed 2 0) with true; change (fits_signed 2 1) with true.
  - destruct (fits_signed 8 offset) eqn:Fo; [|discriminate].
    destruct (fits_signed 8 timestamp) eqn:Ft; [|discriminate].
    cbn [andb]. intros E.
    replace bs with (pack_be 2 0 ++ pack_be 8 offset ++ m ++ pack_be 8 timestamp)
      by congruence.
    unfold parse_value. rewrite <- !app_assoc.
    rewrite read_short_pack by reflexivity. cbn [mbind result_bind].
    change (0 =? 0) with true. cbv iota.
    rewrite read_long_long_pack by exact Fo. cbn [mbind result_bind].
    rewrite (read_string_encode _ _ _ Em). cbn [mbind result_bind].
    rewrite read_long_long_pack by exact Ft. reflexivity.
  - destruct (fits_signed 8 offset) eqn:Fo; [|discriminate].
    destruct (fits_signed 8 commit) eqn:Fc; [|discriminate].
    destruct (fits_signed 8 expire) eqn:Fe; [|discriminate].
    cbn [andb]. intros E.
    replace bs with (pack_be 2 1 ++ pack_be 8 offset ++ m
                     ++ pack_be 8 commit ++ pack_be 8 expire) by congruence.
    unfold parse_value. rewrite <- !app_assoc.
    rewrite read_short_pack by reflexivity. cbn [mbind result_bind].
    change (1 =? 0) with false. change (1 =? 1) with true. cbv iota.
    rewrite read_long_long_pack by exact Fo. cbn [mbind result_bind].
    rewrite (read_string_encode _ _ _ Em). cbn [mbind result_bind].
    rewrite read_long_long_pack by exact Fc. cbn [mbind result_bind].
    rewrite read_long_long_pack by exact Fe. reflexivity.
Qed.

Lemma parse_value_encode_value_witness :
  parse_value (default [] (encode_value (Value5 1 42 (py "meta") 1000 2000))
               ++ [Byte.xff])
  = Ok (Some (Value5 1 42 (py "meta") 1000 2000)).
Proof.
  apply (parse_value_encode_value (Value5 1 42 (py "meta") 1000 2000)).
  - reflexivity.
  - reflexivity.
Defined.

(** X2: [parse_key] does not look at what follows the partition: bytes after a
    well-formed key change nothing. *)
Theorem parse_key_ignores_trailing_bytes
    (version : Z) (group topic : pystr) (partition : Z) (bs extra : bytes) :
  version = 0 \/ version = 1 ->
  encode_key version group topic partition = Some bs ->
  parse_key (bs ++ extra) = Ok (Some (version, group, topic, partition)).
Proof.
  intros Hv. unfold encode_key.
  destruct (encode_string group) as [g|] eqn:Eg; [|discriminate].
  destruct (encode_string topic) as [t|] eqn:Et; [|discriminate].
  cbn [mbind option_bind].
  destruct (fits_signed 2 version) eqn:Fv; [|discriminate].
  destruct (fits_signed 4 partition) eqn:Fp; [|discriminate].
  cbn [andb]. intros E.
  replace bs with (pack_be 2 version ++ g ++ t ++ pack_be 4 partition)
    by congruence.
  unfold parse_key. rewrite <- !app_assoc.
  rewrite read_short_pack by exact Fv. cbn [mbind result_bind].
  replace ((version =? 1) || (version =? 0)) with true
    by (destruct Hv; subst; reflexivity).
  rewrite (read_string_encode _ _ _ Eg). cbn [mbind result_bind].
  rewrite (read_string_encode _ _ _ Et). cbn [mbind result_bind].
  rewrite read_int_pack by exact Fp. reflexivity.
Qed.

Lemma parse_key_ignores_trailing_bytes_witness :
  parse_key (default [] (encode_key 0 (py "g1") (py "t1") 7) ++ [Byte.x01; Byte.x02])
  = Ok (Some (0, py "g1", py "t1", 7)).
Proof.
  apply (parse_key_ignores_trailing_bytes 0 (py "g1") (py "t1") 7).
  - left. reflexivity.
  - reflexivity.
Defined.

(** *** Reading is the inverse of packing *)

Lemma be_unsigned_range bs : 0 <= be_unsigned bs < 256 ^ Z.of_nat (length bs).
Proof.
  induction bs as [|b bs IH] using rev_ind.
  - cbn. lia.
  - rewrite be_unsigned_snoc, length_app. cbn [length].
    rewrite Nat2Z.inj_add, Z.pow_add_r by lia.
    change (256 ^ Z.of_nat 1) with 256.
    pose proof (byte_val_range b). nia.
Qed.

Lemma byte_of_Z_val b : byte_of_Z (byte_val b) = b.
Proof.
  unfold byte_of_Z, byte_val. pose proof (Byte.to_N_bounded b).
  rewrite Z.mod_small by lia. rewrite N2Z.id, Byte.of_to_N. reflexivity.
Qed.

Lemma byte_of_Z_mod z : byte_of_Z (z mod 256) = byte_of_Z z.
Proof. unfold byte_of_Z. rewrite Z.mod_mod by lia. reflexivity. Qed.

Lemma byte_of_Z_add_mul z k : byte_of_Z (z + k * 256) = byte_of_Z z.
Proof. unfold byte_of_Z. rewrite Z.mod_add by lia. reflexivity. Qed.

Lemma pack_be_unsigned bs : pack_be (length bs) (be_unsigned bs) = bs.
Proof.
  induction bs as [|b bs IH] using rev_ind; [reflexivity|].
  rewrite length_app, Nat.add_comm. cbn [length Nat.add pack_be].
  rewrite be_unsigned_snoc.
  pose proof (byte_val_range b) as Hb.
  replace ((be_unsigned bs * 256 + byte_val b) / 256) with (be_unsigned bs)
    by (apply Z.div_unique with (r := byte_val b); lia).
  rewrite IH. f_equal. f_equal.
  rewrite Z.add_comm, byte_of_Z_add_mul. apply byte_of_Z_val.
Qed.

(** Packing sees a number modulo [256 ^ width] only. *)
Lemma pack_be_mod w z : pack_be w (z mod 256 ^ Z.of_nat w) = pack_be w z.
Proof.
  revert z. induction w as [|w IH]; intros z; [reflexivity|].
  cbn [pack_be]. rewrite Nat2Z.inj_succ, Z.pow_succ_r by lia.
  assert (Hp : 0 < 256 ^ Z.of_nat w) by (apply Z.pow_pos_nonneg; lia).
  rewrite (Z.rem_mul_r z 256 (256 ^ Z.of_nat w)) by lia.
  f_equal.
  - rewrite <- (IH (z / 256)). f_equal.
    rewrite (Z.mul_comm 256), Z.div_add by lia.
    rewrite (Z.div_small (z mod 256)) by (apply Z.mod_pos_bound; lia).
    reflexivity.
  - f_equal. rewrite (Z.mul_comm 256), byte_of_Z_add_mul. apply byte_of_Z_mod.
Qed.

Lemma to_signed_spec w u :
  0 < w -> 0 <= u < 2 ^ w ->
  - 2 ^ (w - 1) <= to_signed w u < 2 ^ (w - 1) /\
  (to_signed w u) mod 2 ^ w = u.
Proof.
  intros Hw Hu. unfold to_signed.
  assert (Hp : 2 ^ w = 2 * 2 ^ (w - 1)).
  { rewrite <- Z.pow_succ_r by lia. f_equal. lia. }
  assert (0 < 2 ^ (w - 1)) by (apply Z.pow_pos_nonneg; lia).
  destruct (Z.ltb_spec u (2 ^ (w - 1))).
  - split; [lia|]. apply Z.mod_small. lia.
  - split; [lia|].
    replace (u - 2 ^ w) with (u + (-1) * 2 ^ w) by lia.
    rewrite Z.mod_add by lia. apply Z.mod_small. lia.
Qed.

(** [unpack_from] on a buffer that is long enough: the number read fits
    the width, and packing it gives the bytes read. *)
Lemma unpack_from_spec w bs :
  (0 < w)%nat ->
  match unpack_from w bs with
  | Ok n => fits_signed w n = true /\ take w bs = pack_be w n /\ (w <= length bs)%nat
  | Raise e => e = StructError /\ (length bs < w)%nat
  end.
Proof.
  intros Hw. unfold unpack_from.
  destruct (Nat.ltb_spec (length bs) w) as [Hlt|Hge]; [auto|].
  assert (Hl : length (take w bs) = w) by (rewrite length_take; lia).
  pose proof (be_unsigned_range (take w bs)) as Hr. rewrite Hl in Hr.
  assert (E256 : 256 ^ Z.of_nat w = 2 ^ (8 * Z.of_nat w))
    by (rewrite Z.pow_mul_r by lia; reflexivity).
  rewrite E256 in Hr.
  destruct (to_signed_spec (8 * Z.of_nat w) _ ltac:(lia) Hr) as [Hs Hm].
  split; [apply fits_signed_spec; exact Hs|]. split; [|exact Hge].
  rewrite <- pack_be_mod, E256, Hm. rewrite <- Hl at 2.
  symmetry. apply pack_be_unsigned.
Qed.

Lemma slice_from_nat {A} (n : nat) (l : list A) :
  slice_from (Z.of_nat n) l = drop n l.
Proof.
  unfold slice_from, slice_index.
  destruct (Z.ltb_spec (Z.of_nat n) 0); [lia|]. rewrite Nat2Z.id. reflexivity.
Qed.

(** X3: [read_short], [read_int] and [read_long_long] on any buffer: either
    the buffer is the packed form of the number returned followed by the
    remaining bytes returned, and the number fits the width; or the buffer
    is shorter than the width and [struct.error] is raised. *)
Theorem fixed_width_reads (bs : bytes) :
  match read_short bs with
  | Ok (n, rest) => fits_signed 2 n = true /\ bs = pack_be 2 n ++ rest
  | Raise e => e = StructError /\ (length bs < 2)%nat
  end /\
  match read_int bs with
  | Ok (n, rest) => fits_signed 4 n = true /\ bs = pack_be 4 n ++ rest
  | Raise e => e = StructError /\ (length bs < 4)%nat
  end /\
  match read_long_long bs with
  | Ok (n, rest) => fits_signed 8 n = true /\ bs = pack_be 8 n ++ rest
  | Raise e => e = StructError /\ (length bs < 8)%nat
  end.
Proof.
  unfold read_short, read_int, read_long_long.
  pose proof (unpack_from_spec 2 bs ltac:(lia)) as H2.
  pose proof (unpack_from_spec 4 bs ltac:(lia)) as H4.
  pose proof (unpack_from_spec 8 bs ltac:(lia)) as H8.
  destruct (unpack_from 2 bs) as [n2|e2], (unpack_from 4 bs) as [n4|e4],
           (unpack_from 8 bs) as [n8|e8]; cbn [mbind result_bind];
    repeat split; try tauto;
    try (rewrite (slice_from_nat 2)); try (rewrite (slice_from_nat 4));
    try (rewrite (slice_from_nat 8));
    match goal with
    | H : _ /\ take ?w bs = _ /\ _ |- bs = pack_be ?w _ ++ _ =>
      destruct H as (_ & <- & _); symmetry; apply take_drop
    end.
Qed.

(** *** Length prefixes that do not match the buffer *)

Lemma read_string_pack n body :
  fits_signed 2 n = true ->
  read_string (pack_be 2 n ++ body)
  = match decode_utf8 (slice_to n body) with
    | Ok s => Ok (s, slice_from n body)
    | Raise e => Raise e
    end.
Proof.
  intros Hn. unfold read_string. rewrite read_short_pack by exact Hn.
  cbn [mbind result_bind]. destruct (decode_utf8 _); reflexivity.
Qed.

(** X4: A string whose declared length is beyond the end of the buffer is not
    refused by [read_string]: the bytes that are there are decoded and
    nothing remains. *)
Theorem read_string_length_beyond_buffer (n : Z) (body : bytes) :
  fits_signed 2 n = true ->
  Z.of_nat (length body) <= n ->
  read_string (pack_be 2 n ++ body)
  = match decode_utf8 body with
    | Ok s => Ok (s, [])
    | Raise e => Raise e
    end.
Proof.
  intros Hf Hn. rewrite read_string_pack by exact Hf.
  unfold slice_to, slice_from, slice_index.
  destruct (Z.ltb_spec n 0); [lia|].
  rewrite take_ge, drop_ge by lia. reflexivity.
Qed.

Lemma read_string_length_beyond_buffer_witness :
  read_string (pack_be 2 300 ++ [Byte.x67; Byte.x31])
  = match decode_utf8 [Byte.x67; Byte.x31] with
    | Ok s => Ok (s, [])
    | Raise e => Raise e
    end.
Proof.
  apply (read_string_length_beyond_buffer 300 [Byte.x67; Byte.x31]).
  - reflexivity.
  - cbn. lia.
Defined.

(** X5: A negative declared length [-k] is not refused either: the slices
    count from the end, so the string is all but the last [k] bytes of the
    buffer and the last [k] bytes remain. *)
Theorem read_string_negative_length (k : nat) (body : bytes) :
  (0 < k)%nat ->
  fits_signed 2 (- Z.of_nat k) = true ->
  read_string (pack_be 2 (- Z.of_nat k) ++ body)
  = match decode_utf8 (take (length body - k) body) with
    | Ok s => Ok (s, drop (length body - k) body)
    | Raise e => Raise e
    end.
Proof.
  intros Hk Hf. rewrite read_string_pack by exact Hf.
  unfold slice_to, slice_from, slice_index.
  destruct (Z.ltb_spec (- Z.of_nat k) 0); [|lia].
  replace (Z.to_nat (Z.of_nat (length body) + - Z.of_nat k))
    with (length body - k)%nat by lia.
  reflexivity.
Qed.

Lemma read_string_negative_length_witness :
  read_string (pack_be 2 (- Z.of_nat 1) ++ [Byte.x67; Byte.x31; Byte.x00])
  = match decode_utf8 (take 2 [Byte.x67; Byte.x31; Byte.x00]) with
    | Ok s => Ok (s, drop 2 [Byte.x67; Byte.x31; Byte.x00])
    | Raise e => Raise e
    end.
Proof.
  apply (read_string_negative_length 1 [Byte.x67; Byte.x31; Byte.x00]).
  - lia.
  - reflexivity.
Defined.

(** *** Truncated records *)

Lemma unpack_from_short w bs :
  (length bs < w)%nat -> unpack_from w bs = Raise StructError.
Proof.
  intros H. unfold unpack_from.
  destruct (Nat.ltb_spec (length bs) w); [reflexivity|lia].
Qed.

Lemma take_pack_ge w z (B : bytes) n :
  (w <= n)%nat -> take n (pack_be w z ++ B) = pack_be w z ++ take (n - w) B.
Proof.
  intros H. rewrite take_app_ge by (rewrite pack_be_length; exact H).
  rewrite pack_be_length. reflexivity.
Qed.

Lemma take_pack_lt w z (B : bytes) n :
  (n < w)%nat -> (length (take n (pack_be w z ++ B)) < w)%nat.
Proof. intros H. rewrite length_take. lia. Qed.

(** A fixed-width field cut short: the read raises, or the field is whole
    and what follows it is cut. *)
Lemma read_short_truncated z (B : bytes) n :
  fits_signed 2 z = true -> (n < 2 + length B)%nat ->
  read_short (take n (pack_be 2 z ++ B)) = Raise StructError \/
  exists m, (m < length B)%nat /\
    read_short (take n (pack_be 2 z ++ B)) = Ok (z, take m B).
Proof.
  intros Hz Hn. destruct (lt_dec n 2) as [Hlt|Hge].
  - left. unfold read_short.
    rewrite unpack_from_short by (apply take_pack_lt, Hlt). reflexivity.
  - right. exists (n - 2)%nat. split; [lia|].
    rewrite take_pack_ge by lia. apply read_short_pack, Hz.
Qed.

Lemma read_int_truncated z (B : bytes) n :
  fits_signed 4 z = true -> (n < 4 + length B)%nat ->
  read_int (take n (pack_be 4 z ++ B)) = Raise StructError \/
  exists m, (m < length B)%nat /\
    read_int (take n (pack_be 4 z ++ B)) = Ok (z, take m B).
Proof.
  intros Hz Hn. destruct (lt_dec n 4) as [Hlt|Hge].
  - left. unfold read_int.
    rewrite unpack_from_short by (apply take_pack_lt, Hlt). reflexivity.
  - right. exists (n - 4)%nat. split; [lia|].
    rewrite take_pack_ge by lia. apply read_int_pack, Hz.
Qed.

Lemma read_long_long_truncated z (B : bytes) n :
  fits_signed 8 z = true -> (n < 8 + length B)%nat ->
  read_long_long (take n (pack_be 8 z ++ B)) = Raise StructError \/
  exists m, (m < length B)%nat /\
    read_long_long (take n (pack_be 8 z ++ B)) = Ok (z, take m B).
Proof.
  intros Hz Hn. destruct (lt_dec n 8) as [Hlt|Hge].
  - left. unfold read_long_long.
    rewrite unpack_from_short by (apply take_pack_lt, Hlt). reflexivity.
  - right. exists (n - 8)%nat. split; [lia|].
    rewrite take_pack_ge by lia. apply read_long_long_pack, Hz.
Qed.

(** A string field cut short: the read raises, or it returns the part of
    the string that is there and nothing remains, or the field is whole
    and what follows it is cut. *)
Lemma read_string_truncated s E (B : bytes) n :
  encode_string s = Some E -> (n < length E + length B)%nat ->
  read_string (take n (E ++ B)) = Raise StructError \/
  read_string (take n (E ++ B)) = Raise UnicodeDecodeError \/
  (exists s', read_string (take n (E ++ B)) = Ok (s', [])) \/
  exists m, (m < length B)%nat /\
    read_string (take n (E ++ B)) = Ok (s, take m B).
Proof.
  intros HE Hn. pose proof HE as HE'. unfold encode_string in HE'.
  destruct (utf8_encode s) as [u|] eqn:Eu; [|discriminate].
  cbn [mbind option_bind] in HE'.
  destruct (fits_signed 2 (Z.of_nat (length u))) eqn:Ef; [|discriminate].
  assert (EE : E = pack_be 2 (Z.of_nat (length u)) ++ u) by congruence.
  assert (Hl : length E = (2 + length u)%nat)
    by (rewrite EE, length_app, pack_be_length; reflexivity).
  destruct (lt_dec n 2) as [Hlt|Hge2].
  - left. unfold read_string, read_short.
    rewrite unpack_from_short; [reflexivity|].
    rewrite EE, <- app_assoc. apply take_pack_lt, Hlt.
  - destruct (lt_dec n (length E)) as [HltE|HgeE].
    + right.
      assert (Et : take n (E ++ B)
                   = pack_be 2 (Z.of_nat (length u)) ++ take (n - 2) u).
      { rewrite take_app_le by lia. rewrite EE. apply take_pack_ge. lia. }
      rewrite Et, read_string_pack by exact Ef.
      unfold slice_to, slice_from, slice_index.
      destruct (Z.ltb_spec (Z.of_nat (length u)) 0); [lia|].
      rewrite Nat2Z.id.
      rewrite take_ge, drop_ge by (rewrite length_take; lia).
      unfold decode_utf8. destruct (utf8_decode (take (n - 2) u)); eauto.
    + right. right. right. exists (n - length E)%nat. split; [lia|].
      rewrite take_app_ge by lia. apply read_string_encode, HE.
Qed.

Lemma read_short_nil : read_short [] = Raise StructError.
Proof. reflexivity. Qed.
Lemma read_int_nil : read_int [] = Raise StructError.
Proof. reflexivity. Qed.
Lemma read_long_long_nil : read_long_long [] = Raise StructError.
Proof. reflexivity. Qed.
Lemma read_string_nil : read_string [] = Raise StructError.
Proof. reflexivity. Qed.

(** X6: No truncated key is decoded: on every proper prefix of a well-formed
    key [parse_key] raises [struct.error] or [UnicodeDecodeError]; it
    returns neither a tuple nor [None]. *)
Theorem parse_key_truncated
    (version : Z) (group topic : pystr) (partition : Z) (bs : bytes) (n : nat) :
  version = 0 \/ version = 1 ->
  encode_key version group topic partition = Some bs ->
  (n < length bs)%nat ->
  raises_decode_error (parse_key (take n bs)) = true.
Proof.
  intros Hv. unfold encode_key.
  destruct (encode_string group) as [g|] eqn:Eg; [|discriminate].
  destruct (encode_string topic) as [t|] eqn:Et; [|discriminate].
  cbn [mbind option_bind].
  destruct (fits_signed 2 version) eqn:Fv; [|discriminate].
  destruct (fits_signed 4 partition) eqn:Fp; [|discriminate].
  cbn [andb]. intros E.
  replace bs with (pack_be 2 version ++ g ++ t ++ pack_be 4 partition ++ [])
    by (rewrite app_nil_r; congruence).
  rewrite !length_app, !pack_be_length. cbn [length]. intros Hn.
  unfold parse_key.
  destruct (read_short_truncated version (g ++ t ++ pack_be 4 partition ++ []) n Fv)
    as [R|(m1 & H1 & R)]; [rewrite !length_app, pack_be_length; cbn [length]; lia| |];
    rewrite R; cbn [mbind result_bind]; [reflexivity|].
  replace ((version =? 1) || (version =? 0)) with true
    by (destruct Hv; subst; reflexivity).
  rewrite !length_app, pack_be_length in H1. cbn [length] in H1.
  destruct (read_string_truncated group g (t ++ pack_be 4 partition ++ []) m1 Eg)
    as [R1|[R1|[(s' & R1)|(m2 & H2 & R1)]]];
    [rewrite !length_app, pack_be_length; cbn [length]; lia| | | |];
    rewrite R1; cbn [mbind result_bind]; try reflexivity.
  rewrite !length_app, pack_be_length in H2. cbn [length] in H2.
  destruct (read_string_truncated topic t (pack_be 4 partition ++ []) m2 Et)
    as [R2|[R2|[(s' & R2)|(m3 & H3 & R2)]]];
    [rewrite !length_app, pack_be_length; cbn [length]; lia| | | |];
    rewrite R2; cbn [mbind result_bind]; try reflexivity.
  rewrite !length_app, pack_be_length in H3. cbn [length] in H3.
  destruct (read_int_truncated partition [] m3 Fp) as [R3|(m4 & H4 & R3)];
    [cbn [length]; lia| |]; rewrite R3; cbn [mbind result_bind]; [reflexivity|].
  cbn [length] in H4. lia.
Qed.

Lemma parse_key_truncated_witness :
  raises_decode_error
    (parse_key (take 9 (default [] (encode_key 1 (py "g1") (py "t1") 0)))) = true.
Proof.
  apply (parse_key_truncated 1 (py "g1") (py "t1") 0).
  - right. reflexivity.
  - reflexivity.
  - vm_compute. lia.
Defined.

(** X7: No truncated value is decoded either: on every proper prefix of a
    well-formed value of version 0 or 1 [parse_value] raises
    [struct.error] or [UnicodeDecodeError]. *)
Theorem parse_value_truncated (v : value_tuple) (bs : bytes) (n : nat) :
  value_version_ok v = true ->
  encode_value v = Some bs ->
  (n < length bs)%nat ->
  raises_decode_error (parse_value (take n bs)) = true.
Proof.
  intros Hv. unfold encode_value.
  destruct v as [version offset metadata timestamp
                |version offset metadata commit expire];
    cbn [value_version_ok] in Hv; apply Z.eqb_eq in Hv; subst version;
    destruct (encode_string metadata) as [m|] eqn:Em; try discriminate;
    cbn [mbind option_bind];
    change (fits_signed 2 0) with true; change (fits_signed 2 1) with true.
  - destruct (fits_signed 8 offset) eqn:Fo; [|discriminate].
    destruct (fits_signed 8 timestamp) eqn:Ft; [|discriminate].
    cbn [andb]. intros E.
    replace bs with (pack_be 2 0 ++ pack_be 8 offset ++ m ++ pack_be 8 timestamp ++ [])
      by (rewrite app_nil_r; congruence).
    rewrite !length_app, !pack_be_length. cbn [length]. intros Hn.
    unfold parse_value.
    destruct (read_short_truncated 0 (pack_be 8 offset ++ m ++ pack_be 8 timestamp ++ [])
                n eq_refl)
      as [R|(m1 & H1 & R)];
      [rewrite !length_app, !pack_be_length; cbn [length]; lia| |];
      rewrite R; cbn [mbind result_bind]; [reflexivity|].
    change (0 =? 0) with true. cbv iota.
    rewrite !length_app, !pack_be_length in H1. cbn [length] in H1.
    destruct (read_long_long_truncated offset (m ++ pack_be 8 timestamp ++ []) m1 Fo)
      as [R1|(m2 & H2 & R1)];
      [rewrite !length_app, !pack_be_length; cbn [length]; lia| |];
      rewrite R1; cbn [mbind result_bind]; [reflexivity|].
    rewrite !length_app, !pack_be_length in H2. cbn [length] in H2.
    destruct (read_string_truncated metadata m (pack_be 8 timestamp ++ []) m2 Em)
      as [R2|[R2|[(s' & R2)|(m3 & H3 & R2)]]];
      [rewrite !length_app, pack_be_length; cbn [length]; lia| | | |];
      rewrite R2; cbn [mbind result_bind]; try reflexivity.
    rewrite !length_app, pack_be_length in H3. cbn [length] in H3.
    destruct (read_long_long_truncated timestamp [] m3 Ft) as [R3|(m4 & H4 & R3)];
      [cbn [length]; lia| |]; rewrite R3; cbn [mbind result_bind]; [reflexivity|].
    cbn [length] in H4. lia.
  - destruct (fits_signed 8 offset) eqn:Fo; [|discriminate].
    destruct (fits_signed 8 commit) eqn:Fc; [|discriminate].
    destruct (fits_signed 8 expire) eqn:Fe; [|discriminate].
    cbn [andb]. intros E.
    replace bs with (pack_be 2 1 ++ pack_be 8 offset ++ m
                     ++ pack_be 8 commit ++ pack_be 8 expire ++ [])
      by (rewrite app_nil_r; congruence).
    rewrite !length_app, !pack_be_length. cbn [length]. intros Hn.
    unfold parse_value.
    destruct (read_short_truncated 1
                (pack_be 8 offset ++ m ++ pack_be 8 commit ++ pack_be 8 expire ++ [])
                n eq_refl)
      as [R|(m1 & H1 & R)];
      [rewrite !length_app, !pack_be_length; cbn [length]; lia| |];
      rewrite R; cbn [mbind result_bind]; [reflexivity|].
    change (1 =? 0) with false. change (1 =? 1) with true. cbv iota.
    rewrite !length_app, !pack_be_length in H1. cbn [length] in H1.
    destruct (read_long_long_truncated offset
                (m ++ pack_be 8 commit ++ pack_be 8 expire ++ []) m1 Fo)
      as [R1|(m2 & H2 & R1)];
      [rewrite !length_app, !pack_be_length; cbn [length]; lia| |];
      rewrite R1; cbn [mbind result_bind]; [reflexivity|].
    rewrite !length_app, !pack_be_length in H2. cbn [length] in H2.
    destruct (read_string_truncated metadata m
                (pack_be 8 commit ++ pack_be 8 expire ++ []) m2 Em)
      as [R2|[R2|[(s' & R2)|(m3 & H3 & R2)]]];
      [rewrite !length_app, !pack_be_length; cbn [length]; lia| | | |];
      rewrite R2; cbn [mbind result_bind]; try reflexivity.
    rewrite !length_app, !pack_be_length in H3. cbn [length] in H3.
    destruct (read_long_long_truncated commit (pack_be 8 expire ++ []) m3 Fc)
      as [R3|(m4 & H4 & R3)];
      [rewrite !length_app, !pack_be_length; cbn [length]; lia| |];
      rewrite R3; cbn [mbind result_bind]; [reflexivity|].
    rewrite !length_app, !pack_be_length in H4. cbn [length] in H4.
    destruct (read_long_long_truncated expire [] m4 Fe) as [R4|(m5 & H5 & R4)];
      [cbn [length]; lia| |]; rewrite R4; cbn [mbind result_bind]; [reflexivity|].
    cbn [length] in H5. lia.
Qed.

Lemma parse_value_truncated_witness :
  raises_decode_error
    (parse_value (take 13 (default [] (encode_value (Value4 0 42 (py "meta") 1000)))))
  = true.
Proof.
  apply (parse_value_truncated (Value4 0 42 (py "meta") 1000)).
  - reflexivity.
  - reflexivity.
  - vm_compute. lia.
Defined.

(** ** More on the metric store *)

(** The samples of a registry after a sample is stored in one metric. *)
Lemma sample_insert_store_sample reg name key v g name' key' :
  (labelnames g = [] -> key = []) ->
  (forall g0, reg !! name = Some g0 -> g = g0) ->
  (reg !! name = None -> children g = ∅) ->
  sample (<[name := store_sample key v g]> reg) name' key'
  = if decide (name' = name /\ key' = key) then Some v else sample reg name' key'.
Proof.
  intros Hk Hreg Hnew. unfold sample.
  destruct (decide (name' = name)) as [->|Hn].
  - rewrite lookup_insert_eq. cbn [mbind option_bind].
    rewrite labelnames_store_sample. unfold store_sample.
    destruct (reg !! name) as [g0|] eqn:Eg.
    + rewrite <- (Hreg g0 eq_refl). cbn [mbind option_bind].
      destruct (labelnames g) as [|n ns] eqn:En.
      * rewrite (Hk eq_refl). cbn [set_own_value own_value].
        destruct key' as [|k ks].
        -- rewrite decide_True by auto. reflexivity.
        -- rewrite decide_False by (intros [_ ?]; discriminate). reflexivity.
      * cbn [set_child children].
        destruct (decide (key' = key)) as [->|Hne].
        -- rewrite decide_True by auto. apply lookup_insert_eq.
        -- rewrite decide_False by (intros [_ ?]; contradiction).
           apply lookup_insert_ne. congruence.
    + cbn [mbind option_bind]. specialize (Hnew eq_refl).
      destruct (labelnames g) as [|n ns] eqn:En.
      * rewrite (Hk eq_refl). cbn [set_own_value own_value].
        destruct key' as [|k ks].
        -- rewrite decide_True by auto. reflexivity.
        -- rewrite decide_False by (intros [_ ?]; discriminate). reflexivity.
      * cbn [set_child children]. rewrite Hnew.
        destruct (decide (key' = key)) as [->|Hne].
        -- rewrite decide_True by auto. apply lookup_insert_eq.
        -- rewrite decide_False by (intros [_ ?]; contradiction).
           rewrite lookup_insert_ne by congruence. apply lookup_empty.
  - rewrite lookup_insert_ne by congruence.
    rewrite decide_False by (intros [? _]; contradiction). reflexivity.
Qed.

(** X8: A call of [update_gauge] that returns has set exactly one sample: the
    one of its metric name and label values now has the value, converted
    to float; every other sample of every gauge, the counters and the rest
    of the program's state are what they were. *)
Theorem update_gauge_sets_one_sample
    (name : pystr) (labels : pydict pystr pyval) (value : pynum) (w w' : World) :
  update_gauge name labels value w = (w', Ok tt) ->
  exists v,
    py_float value = Ok v /\
    (forall name' key',
       sample (gauges w') name' key'
       = if decide (name' = name /\ key' = label_key labels) then Some v
         else sample (gauges w) name' key') /\
    w' = set_gauges (gauges w') w.
Proof.
  intros H. destruct (gauges w !! name) as [g0|] eqn:Hg.
  - destruct (update_gauge_ok _ _ _ _ _ H) as (g & v & Hv & Hlen & _ & Hreg & ->).
    exists v. split; [exact Hv|]. split; [|reflexivity].
    intros name' key'. cbn [gauges set_gauges].
    apply sample_insert_store_sample.
    + apply label_key_nil, Hlen.
    + exact Hreg.
    + rewrite Hg. discriminate.
  - destruct (update_gauge_first _ _ _ _ _ Hg H) as (g & v & Hn & Hl & Hv & ->).
    destruct (new_metric_labelnames _ _ _ _ _ Hn) as (_ & _ & Hch).
    exists v. split; [exact Hv|]. split; [|reflexivity].
    intros name' key'. cbn [gauges set_gauges].
    apply sample_insert_store_sample.
    + apply label_key_nil. rewrite Hl, dict_keys_length. reflexivity.
    + rewrite Hg. discriminate.
    + intros _. exact Hch.
Qed.

Lemma update_gauge_sets_one_sample_witness :
  let labels := [(py "partition", PInt 3)] in
  let w' := (update_gauge (py "m") labels (NInt 7) empty_world).1 in
  exists v,
    py_float (NInt 7) = Ok v /\
    (forall name' key',
       sample (gauges w') name' key'
       = if decide (name' = py "m" /\ key' = label_key labels) then Some v
         else sample (gauges empty_world) name' key') /\
    w' = set_gauges (gauges w') empty_world.
Proof.
  apply (update_gauge_sets_one_sample (py "m") [(py "partition", PInt 3)] (NInt 7)
           empty_world).
  reflexivity.
Defined.

(** X9: A call of [increment_counter] that returns has raised exactly one
    sample by one (a sample not yet there counting as [0.0]); every other
    sample of every counter, the gauges and the rest of the program's
    state are what they were. *)
Theorem increment_counter_adds_one_to_one_sample
    (name : pystr) (labels : pydict pystr pyval) (w w' : World) :
  increment_counter name labels w = (w', Ok tt) ->
  (forall name' key',
     sample (counters w') name' key'
     = if decide (name' = name /\ key' = label_key labels)
       then Some (default 0%float (sample (counters w) name key') + 1)%float
       else sample (counters w) name' key') /\
  w' = set_counters (counters w') w.
Proof.
  intros H. destruct (counters w !! name) as [c0|] eqn:Hc.
  - destruct (increment_counter_ok _ _ _ _ H) as (c & Hlen & _ & Hreg & Hcur & ->).
    split; [|reflexivity].
    intros name' key'. cbn [counters set_counters].
    rewrite sample_insert_store_sample.
    + destruct (decide _) as [[-> ->]|]; [|reflexivity]. rewrite Hcur. reflexivity.
    + apply label_key_nil, Hlen.
    + exact Hreg.
    + rewrite Hc. discriminate.
  - destruct (increment_counter_first _ _ _ _ Hc H) as (c & Hn & Hl & ->).
    destruct (new_metric_labelnames _ _ _ _ _ Hn) as (_ & _ & Hch).
    split; [|reflexivity].
    intros name' key'. cbn [counters set_counters].
    rewrite sample_insert_store_sample.
    + destruct (decide _) as [[-> ->]|]; [|reflexivity].
      unfold sample. rewrite Hc. reflexivity.
    + apply label_key_nil. rewrite Hl, dict_keys_length. reflexivity.
    + rewrite Hc. discriminate.
    + intros _. exact Hch.
Qed.

Lemma increment_counter_adds_one_to_one_sample_witness :
  let labels := [(py "group", PStr (py "g1"))] in
  let w' := (increment_counter (py "c") labels empty_world).1 in
  (forall name' key',
     sample (counters w') name' key'
     = if decide (name' = py "c" /\ key' = label_key labels)
       then Some (default 0%float (sample (counters empty_world) (py "c") key') + 1)%float
       else sample (counters empty_world) name' key') /\
  w' = set_counters (counters w') empty_world.
Proof.
  apply (increment_counter_adds_one_to_one_sample (py "c")
           [(py "group", PStr (py "g1"))] empty_world).
  reflexivity.
Defined.

(** ** More on the topology tracker *)

(** A dict built by successive assignments holds, for a key, the value of
    the last assignment to it. *)
Lemma dict_get_fold_set {X K V} `{EqDecision K}
    (key : X -> K) (val : X -> V) (l : list X) (d0 : list (K * V)) k :
  dict_get k (fold_left (fun d x => dict_set (key x) (val x) d) l d0)
  = match last (filter (fun x => key x = k) l) with
    | Some x => Some (val x)
    | None => dict_get k d0
    end.
Proof.
  revert d0. induction l as [|x l IH]; intros d0; [reflexivity|].
  cbn [fold_left]. rewrite IH, filter_cons.
  destruct (decide (key x = k)) as [<-|Hne].
  - rewrite last_cons. destruct (last (filter _ l)); [reflexivity|].
    apply dict_get_set_eq.
  - destruct (last (filter _ l)); [reflexivity|].
    apply dict_get_set_ne, Hne.
Qed.

Lemma NoDup_fold_set {X K V} `{EqDecision K}
    (key : X -> K) (val : X -> V) (l : list X) (d0 : list (K * V)) :
  NoDup (dict_keys d0) ->
  NoDup (dict_keys (fold_left (fun d x => dict_set (key x) (val x) d) l d0)).
Proof.
  revert d0. induction l as [|x l IH]; intros d0 Hd; [exact Hd|].
  cbn [fold_left]. apply IH, NoDup_dict_set, Hd.
Qed.

Lemma topic_partitions_shape api t :
  entry_version t = api -> api = 0 \/ api = 1 ->
  topic_partitions (if api =? 0 then 2 else 3) t = Ok (entry_partitions t).
Proof. intros <- [H|H]; destruct t; cbn in *; try discriminate; reflexivity. Qed.

Lemma topics_comprehension_shape api md acc :
  api = 0 \/ api = 1 -> metadata_shape api md = true ->
  topics_comprehension (if api =? 0 then 2 else 3) md acc
  = Ok (fold_left (fun d t => dict_set (topic_name t)
                                (partition_leaders (entry_partitions t)) d) md acc).
Proof.
  intros Ha. revert acc. unfold metadata_shape.
  induction md as [|t md IH]; intros acc Hs; [reflexivity|].
  cbn [forallb] in Hs. apply andb_true_iff in Hs as [Ht Hs].
  apply Z.eqb_eq in Ht.
  cbn [topics_comprehension fold_left].
  rewrite (topic_partitions_shape api t Ht Ha). cbn [mbind result_bind].
  apply IH, Hs.
Qed.

Lemma update_topics_unfold api md w :
  api = 0 \/ api = 1 ->
  update_topics api md w
  = match topics_comprehension (if api =? 0 then 2 else 3) md [] with
    | Ok t => (set_topics t (add_log INFO "Received topics and partition assignments" w),
               Ok tt)
    | Raise e => (add_log INFO "Received topics and partition assignments" w, Raise e)
    end.
Proof.
  intros [->| ->]; unfold update_topics, logging_info; run_M; cbn [Z.eqb];
    destruct (topics_comprehension _ md []); reflexivity.
Qed.

(** X10: A metadata response of the negotiated shape replaces the Assignment
    Map wholesale: whatever the map held before, it then has exactly the
    topics of the response, each once, and for each topic and partition the
    leader that the last entry for them names. *)
Theorem update_topics_replaces_the_map
    (api_version : Z) (metadata_topics : list TopicMetadata) (w : World) :
  api_version = 0 \/ api_version = 1 ->
  metadata_shape api_version metadata_topics = true ->
  exists w',
    update_topics api_version metadata_topics w = (w', Ok tt) /\
    NoDup (dict_keys (topics w')) /\
    forall topic,
      match latest_topic metadata_topics topic with
      | None => dict_get topic (topics w') = None
      | Some t =>
        exists partition_map,
          dict_get topic (topics w') = Some partition_map /\
          NoDup (dict_keys partition_map) /\
          forall partition,
            dict_get partition partition_map
            = latest_leader (entry_partitions t) partition
      end.
Proof.
  intros Ha Hs. rewrite (update_topics_unfold _ _ _ Ha).
  rewrite (topics_comprehension_shape _ _ _ Ha Hs).
  eexists. split; [reflexivity|]. cbn [topics set_topics]. split.
  - apply NoDup_fold_set, NoDup_nil_2.
  - intros topic. unfold latest_topic.
    rewrite (dict_get_fold_set topic_name
               (fun t => partition_leaders (entry_partitions t))).
    destruct (last (filter _ metadata_topics)) as [t|]; [|reflexivity].
    eexists. split; [reflexivity|]. unfold partition_leaders. split.
    + apply NoDup_fold_set, NoDup_nil_2.
    + intros partition. unfold latest_leader.
      rewrite (dict_get_fold_set p_partition p_leader).
      destruct (last (filter _ (entry_partitions t))); reflexivity.
Qed.

Lemma update_topics_replaces_the_map_witness :
  let md := [TopicV1 0 (py "t1") false
               [{| p_error_code := 0; p_partition := 0; p_leader := 1;
                   p_replicas := [1]; p_isr := [1] |}]] in
  let w := set_topics [(py "old", [(0, 9)])] empty_world in
  exists w',
    update_topics 1 md w = (w', Ok tt) /\
    NoDup (dict_keys (topics w')) /\
    forall topic,
      match latest_topic md topic with
      | None => dict_get topic (topics w') = None
      | Some t =>
        exists partition_map,
          dict_get topic (topics w') = Some partition_map /\
          NoDup (dict_keys partition_map) /\
          forall partition,
            dict_get partition partition_map
            = latest_leader (entry_partitions t) partition
      end.
Proof.
  apply (update_topics_replaces_the_map 1).
  - right. reflexivity.
  - reflexivity.
Defined.

Lemma topics_comprehension_mismatch api md acc :
  api = 0 \/ api = 1 -> metadata_shape api md = false ->
  topics_comprehension (if api =? 0 then 2 else 3) md acc
  = Raise (if api =? 0 then TypeError else IndexError).
Proof.
  intros Ha. revert acc. unfold metadata_shape.
  induction md as [|t md IH]; intros acc Hs; [discriminate|].
  cbn [forallb] in Hs. cbn [topics_comprehension].
  destruct (Z.eqb_spec (entry_version t) api) as [Ht|Ht].
  - rewrite (topic_partitions_shape api t Ht Ha). cbn [mbind result_bind].
    apply IH, Hs.
  - destruct Ha as [-> | ->]; destruct t; cbn in Ht; try contradiction; reflexivity.
Qed.

(** X11: A metadata response with an entry of the other version's shape makes
    [update_topics] raise ([TypeError] when version 0 is read, [IndexError]
    when version 1 is); the Assignment Map is left as it was. *)
Theorem update_topics_wrong_shape_keeps_the_map
    (api_version : Z) (metadata_topics : list TopicMetadata) (w : World) :
  api_version = 0 \/ api_version = 1 ->
  metadata_shape api_version metadata_topics = false ->
  update_topics api_version metadata_topics w
  = (add_log INFO "Received topics and partition assignments" w,
     Raise (if api_version =? 0 then TypeError else IndexError)) /\
  topics (update_topics api_version metadata_topics w).1 = topics w.
Proof.
  intros Ha Hs. rewrite (update_topics_unfold _ _ _ Ha).
  rewrite (topics_comprehension_mismatch _ _ _ Ha Hs). split; reflexivity.
Qed.

Lemma update_topics_wrong_shape_keeps_the_map_witness :
  let md := [TopicV0 0 (py "t1") []; TopicV1 0 (py "t2") false []] in
  let w := set_topics [(py "old", [(0, 9)])] empty_world in
  update_topics 0 md w
  = (add_log INFO "Received topics and partition assignments" w, Raise TypeError) /\
  topics (update_topics 0 md w).1 = topics w.
Proof.
  apply (update_topics_wrong_shape_keeps_the_map 0).
  - left. reflexivity.
  - reflexivity.
Defined.

(** ** More on the periodic tasks *)

(** The request of [fetch_topics] touches nothing but what the client was
    handed. *)
Lemma fetch_topics_request_frame cl w :
  let w' := (fetch_topics_request cl w).1 in
  gauges w' = gauges w /\ counters w' = counters w /\ topics w' = topics w /\
  highwater w' = highwater w /\ scheduled w' = scheduled w /\ log w' = log w.
Proof.
  unfold fetch_topics_request. run_M.
  destruct (least_loaded_node cl) as [node|e]; [|cbn; auto 10].
  unfold client_send.
  destruct (send_result cl node _) as [[]|e]; cbn; auto 10.
Qed.

(** X12: Whatever the client does, [fetch_topics] schedules exactly one next
    call, 30 after its own time, and leaves the metrics, the Assignment Map
    and the Highwater Table alone; the only exceptions that can leave it
    are those not derived from [Exception], such as [KeyboardInterrupt],
    and the next call is scheduled even then. *)
Theorem fetch_topics_always_schedules (cl : Client) (t : float) (w : World) :
  let w' := (fetch_topics cl t w).1 in
  scheduled w' = scheduled w ++ [((t + 30)%float, FetchTopics (t + 30)%float)] /\
  gauges w' = gauges w /\ counters w' = counters w /\
  topics w' = topics w /\ highwater w' = highwater w /\
  match (fetch_topics cl t w).2 with
  | Ok _ => True
  | Raise e => is_Exception e = false
  end.
Proof.
  unfold fetch_topics, logging_info. run_M. unfold try_except_finally.
  pose proof (fetch_topics_request_frame cl
                (add_log INFO "Requesting topics and partition assignments" w)) as F.
  cbn zeta in F.
  destruct (fetch_topics_request cl _) as [w1 [[]|e]]; cbn [fst] in F;
    destruct F as (G & C & T & H & S & _).
  - cbn. rewrite S, G, C, T, H. auto 10.
  - destruct (is_Exception e) eqn:He; cbn; rewrite S, G, C, T, H; auto 10.
Qed.

(** The version [fetch_topics] asks for: 0 for a client below (0, 10),
    1 otherwise. *)
Lemma tuple_lt_0_10 major minor rest :
  tuple_lt (major :: minor :: rest) [0; 10]
  = (major <? 0) || ((major =? 0) && (minor <? 10)).
Proof.
  cbn [tuple_lt].
  destruct (Z.ltb_spec major 0), (Z.ltb_spec 0 major), (Z.eqb_spec major 0);
    try lia; cbn [orb andb]; try reflexivity.
  destruct (Z.ltb_spec minor 10), (Z.ltb_spec 10 minor); try lia; try reflexivity.
  destruct rest; reflexivity.
Qed.

(** X13: When the client has a node and takes the request, [fetch_topics]
    sends that node one metadata request for all topics and registers
    [update_topics] on it with the version of the request: 0 when the
    client's version is below (0, 10), otherwise 1, and never another. *)
Theorem fetch_topics_sends_one_request
    (cl : Client) (t : float) (w : World) (major minor : Z) (rest : list Z)
    (node : option Z) :
  config_api_version cl = major :: minor :: rest ->
  least_loaded_node cl = Ok node ->
  (forall request, send_result cl node request = Ok tt) ->
  let version :=
    if (major <? 0) || ((major =? 0) && (minor <? 10)) then 0 else 1 in
  let w' := (fetch_topics cl t w).1 in
  (fetch_topics cl t w).2 = Ok tt /\
  sent w' = sent w ++ [(node, MetadataRequest version None)] /\
  callbacks w' = callbacks w ++ [(length (sent w), UpdateTopics version)] /\
  scheduled w' = scheduled w ++ [((t + 30)%float, FetchTopics (t + 30)%float)].
Proof.
  intros Hc Hn Hs. cbn zeta.
  unfold fetch_topics, logging_info. run_M.
  unfold try_except_finally, fetch_topics_request. run_M.
  rewrite Hc, tuple_lt_0_10, Hn. unfold client_send. rewrite Hs. cbn.
  auto.
Qed.

Lemma fetch_topics_sends_one_request_witness :
  let w' := (fetch_topics working_client 0%float empty_world).1 in
  (fetch_topics working_client 0%float empty_world).2 = Ok tt /\
  sent w' = [] ++ [(Some 1, MetadataRequest 1 None)] /\
  callbacks w' = [] ++ [(0%nat, UpdateTopics 1)] /\
  scheduled w' = [] ++ [((0 + 30)%float, FetchTopics (0 + 30)%float)].
Proof.
  apply (fetch_topics_sends_one_request working_client 0%float empty_world 0 10 [1]
           (Some 1)).
  - reflexivity.
  - reflexivity.
  - intros request. reflexivity.
Defined.

(** The requests of a highwater cycle are sent in order until one [send]
    raises. *)
Lemma send_offset_requests_prefix cl reqs w :
  let w' := (send_offset_requests cl reqs w).1 in
  exists k,
    (k <= length reqs)%nat /\
    sent w' = sent w ++ map (fun '(node, request) => (Some node, request)) (take k reqs) /\
    gauges w' = gauges w /\ counters w' = counters w /\ topics w' = topics w /\
    highwater w' = highwater w /\ scheduled w' = scheduled w /\ log w' = log w /\
    match reqs !! k with
    | None => (send_offset_requests cl reqs w).2 = Ok tt
    | Some (node, request) =>
      exists e,
        send_result cl (Some node) request = Raise e /\
        (send_offset_requests cl reqs w).2 = Raise e
    end.
Proof.
  revert w. induction reqs as [|[node request] reqs IH]; intros w.
  - exists 0%nat. cbn. rewrite app_nil_r. auto 10.
  - cbn [send_offset_requests]. unfold client_send, add_callback. run_M.
    destruct (send_result cl (Some node) request) as [[]|e] eqn:Es.
    + specialize (IH (add_callback_entry (length (sent w)) UpdateHighwater
                        (add_sent (Some node) request w))).
      cbn zeta in IH.
      destruct IH as (k & Hk & Hsent & G & C & T & H & Sc & L & R).
      exists (Datatypes.S k). cbn [length take map lookup list_lookup].
      split; [lia|].
      rewrite Hsent, G, C, T, H, Sc, L. cbn [sent add_callback_entry add_sent].
      rewrite <- app_assoc. repeat split; auto.
    + exists 0%nat. cbn. rewrite app_nil_r. repeat split; auto; [lia|].
      exists e. auto.
Qed.

(** X14: Whatever the client does, [fetch_highwater] schedules exactly one next
    call, 10 after its own time, and leaves the metrics, the Assignment Map
    and the Highwater Table alone. It sends the requests of the cycle in
    order, all of them unless a [send] raises; an error derived from
    [Exception] is logged and does not leave [fetch_highwater], any other
    leaves it after the next call was scheduled. With an empty Assignment
    Map the cycle has no requests. *)
Theorem fetch_highwater_always_schedules (cl : Client) (t : float) (w : World) :
  let w' := (fetch_highwater cl t w).1 in
  let r := (fetch_highwater cl t w).2 in
  let reqs := offset_requests (group_by_leader (topics w)) in
  let info := (INFO, "Requesting high-water marks"%string) in
  let error := (ERROR, "Error requesting high-water marks"%string) in
  scheduled w' = scheduled w ++ [((t + 10)%float, FetchHighwater (t + 10)%float)] /\
  gauges w' = gauges w /\ counters w' = counters w /\
  topics w' = topics w /\ highwater w' = highwater w /\
  (topics w = [] -> reqs = []) /\
  exists k,
    (k <= length reqs)%nat /\
    sent w' = sent w
              ++ map (fun '(node, request) => (Some node, request)) (take k reqs) /\
    match reqs !! k with
    | None => log w' = log w ++ [info] /\ r = Ok tt
    | Some (node, request) =>
      exists e,
        send_result cl (Some node) request = Raise e /\
        if is_Exception e
        then log w' = log w ++ [info; error] /\ r = Ok tt
        else log w' = log w ++ [info] /\ r = Raise e
    end.
Proof.
  cbn zeta. unfold fetch_highwater, logging_info. run_M.
  unfold try_except_finally, fetch_highwater_request. run_M.
  cbn [topics add_log].
  set (w0 := add_log INFO "Requesting high-water marks" w).
  destruct (topics w) as [|entry ts] eqn:Et.
  - cbn. repeat split; auto.
    exists 0%nat. cbn. rewrite app_nil_r. auto.
  - rewrite <- Et. set (reqs := offset_requests (group_by_leader (topics w))).
    pose proof (send_offset_requests_prefix cl reqs w0) as P. cbn zeta in P.
    destruct P as (k & Hk & Hsent & G & C & T & H & Sc & L & R).
    assert (Hempty : topics w = [] -> reqs = []) by (rewrite Et; discriminate).
    destruct (send_offset_requests cl reqs w0) as [w1 [[]|e]] eqn:Er;
      cbn [fst snd] in *.
    + cbn. rewrite Sc, G, C, T, H, Hsent, L. repeat split; auto.
      exists k. repeat split; auto.
      destruct (reqs !! k) as [[node request]|]; [|auto].
      destruct R as (e & _ & ?). discriminate.
    + destruct (reqs !! k) as [[node request]|] eqn:Ek; [|discriminate].
      destruct R as (e' & Hs & [= <-]).
      destruct (is_Exception e) eqn:He; cbn; rewrite Sc, G, C, T, H, Hsent, L;
        (repeat split; auto); exists k; rewrite Ek; (repeat split; auto);
        exists e; rewrite He; cbn [log add_log w0]; rewrite <- ?app_assoc; auto.
Qed.



(** ** More on highwater responses *)

Lemma update_highwater_partitions_app topic ps1 ps2 w :
  update_highwater_partitions topic (ps1 ++ ps2) w
  = match update_highwater_partitions topic ps1 w with
    | (w1, Ok _) => update_highwater_partitions topic ps2 w1
    | (w1, Raise e) => (w1, Raise e)
    end.
Proof.
  revert w. induction ps1 as [|[[p e] offsets] ps1 IH]; intros w; [reflexivity|].
  cbn [app update_highwater_partitions].
  destruct offsets as [|first more]; [reflexivity|].
  run_M. destruct (update_gauge _ _ _ _) as [w1 [[]|e1]]; [apply IH|reflexivity].
Qed.

Lemma update_highwater_topics_app resp1 resp2 w :
  update_highwater_topics (resp1 ++ resp2) w
  = match update_highwater_topics resp1 w with
    | (w1, Ok _) => update_highwater_topics resp2 w1
    | (w1, Raise e) => (w1, Raise e)
    end.
Proof.
  revert w. induction resp1 as [|[topic ps] resp1 IH]; intros w; [reflexivity|].
  cbn [app update_highwater_topics]. run_M.
  destruct (highwater w !! topic); cbn beta iota;
    destruct (update_highwater_partitions topic ps _) as [w1 [[]|e1]];
    first [apply IH | reflexivity].
Qed.

(** X16: An entry without offsets stops [update_highwater] with [IndexError]:
    with the highwater gauge registered with its two label names or its
    name not yet held by the registry, the entries before it are written
    and published as usual, the entries after it, and the topics after its
    topic, are not looked at. *)
Theorem update_highwater_stops_at_empty_offsets
    (before after : OffsetResponse) (topic : pystr)
    (ps1 ps2 : list (Z * Z * list Z)) (partition error_code : Z) (w : World) :
  entries_have_offsets (before ++ [(topic, ps1)]) = true ->
  highwater_gauge_ready w = true ->
  let resp := before ++ (topic, ps1 ++ (partition, error_code, []) :: ps2) :: after in
  let written := response_entries (before ++ [(topic, ps1)]) in
  exists w',
    update_highwater resp w = (w', Raise IndexError) /\
    forall t p,
      highwater_entry w' t p = last_write id written t p (highwater_entry w t p) /\
      highwater_sample w' t p
      = last_write py_float_value written t p (highwater_sample w t p).
Proof.
  intros Hok Hr. cbn zeta.
  destruct (update_highwater_topics_ok (before ++ [(topic, ps1)])
              (add_log INFO "Received high-water marks" w) Hok Hr)
    as (w' & E & P).
  exists w'. split; [|exact P].
  unfold update_highwater, logging_info. run_M.
  set (w0 := add_log INFO "Received high-water marks" w) in *.
  rewrite update_highwater_topics_app in E |- *.
  destruct (update_highwater_topics before w0) as [w1 [[]|e1]]; [|discriminate].
  cbn [update_highwater_topics] in E |- *. revert E. run_M.
  destruct (highwater w1 !! topic); cbn beta iota;
    rewrite update_highwater_partitions_app;
    destruct (update_highwater_partitions topic ps1 _) as [w2 [[]|e2]];
    try discriminate; intros [= <-]; reflexivity.
Qed.

Lemma update_highwater_stops_at_empty_offsets_witness :
  let resp := [(py "t0", [(0, 0, [5])]);
               (py "t1", [(0, 0, [100]); (1, 6, []); (2, 0, [7])]);
               (py "t2", [(0, 0, [9])])] in
  let written := response_entries ([(py "t0", [(0, 0, [5])])] ++ [(py "t1", [(0, 0, [100])])]) in
  exists w',
    update_highwater resp empty_world = (w', Raise IndexError) /\
    forall t p,
      highwater_entry w' t p = last_write id written t p (highwater_entry empty_world t p) /\
      highwater_sample w' t p
      = last_write py_float_value written t p (highwater_sample empty_world t p).
Proof.
  apply (update_highwater_stops_at_empty_offsets
           [(py "t0", [(0, 0, [5])])] [(py "t2", [(0, 0, [9])])] (py "t1")
           [(0, 0, [100])] [(2, 0, [7])] 1 6 empty_world).
  - reflexivity.
  - reflexivity.
Defined.

(** ** The consumer loop *)

Lemma unpack_from_raises w bs e :
  unpack_from w bs = Raise e -> is_decode_error e = true.
Proof.
  unfold unpack_from. destruct (_ <? _)%nat; [|discriminate].
  intros [= <-]. reflexivity.
Qed.

Lemma read_short_raises bs e : read_short bs = Raise e -> is_decode_error e = true.
Proof.
  unfold read_short. destruct (unpack_from 2 bs) eqn:E; [discriminate|].
  intros [= <-]. eapply unpack_from_raises, E.
Qed.

Lemma read_int_raises bs e : read_int bs = Raise e -> is_decode_error e = true.
Proof.
  unfold read_int. destruct (unpack_from 4 bs) eqn:E; [discriminate|].
  intros [= <-]. eapply unpack_from_raises, E.
Qed.

Lemma read_long_long_raises bs e :
  read_long_long bs = Raise e -> is_decode_error e = true.
Proof.
  unfold read_long_long. destruct (unpack_from 8 bs) eqn:E; [discriminate|].
  intros [= <-]. eapply unpack_from_raises, E.
Qed.

Lemma read_string_raises bs e : read_string bs = Raise e -> is_decode_error e = true.
Proof.
  unfold read_string. destruct (read_short bs) as [[n r]|e0] eqn:E.
  - cbn. unfold decode_utf8. destruct (utf8_decode _); [discriminate|].
    intros [= <-]. reflexivity.
  - intros [= <-]. eapply read_short_raises, E.
Qed.

Ltac step_read H lem :=
  match type of H with
  | context [mbind _ (?f ?bs)] =>
    let E := fresh "E" in
    destruct (f bs) as [[? ?]|?] eqn:E;
    [cbn [mbind result_bind] in H
    |injection H as <-; eapply lem, E]
  end.

Lemma parse_key_raises bs e : parse_key bs = Raise e -> is_decode_error e = true.
Proof.
  unfold parse_key. intros H.
  step_read H read_short_raises.
  destruct (_ || _); [|discriminate].
  step_read H read_string_raises.
  step_read H read_string_raises.
  step_read H read_int_raises.
  discriminate.
Qed.

Lemma parse_value_raises bs e : parse_value bs = Raise e -> is_decode_error e = true.
Proof.
  unfold parse_value. intros H.
  step_read H read_short_raises.
  destruct (_ =? 0).
  - step_read H read_long_long_raises.
    step_read H read_string_raises.
    step_read H read_long_long_raises.
    discriminate.
  - destruct (_ =? 1); [|discriminate].
    step_read H read_long_long_raises.
    step_read H read_string_raises.
    step_read H read_long_long_raises.
    step_read H read_long_long_raises.
    discriminate.
Qed.

Lemma read_long_long_int64 bs n r :
  read_long_long bs = Ok (n, r) -> fits_signed 8 n = true.
Proof.
  unfold read_long_long. pose proof (unpack_from_spec 8 bs ltac:(lia)) as H.
  destruct (unpack_from 8 bs) as [m|]; [|discriminate].
  intros [= <- _]. apply H.
Qed.

Lemma parse_value_offset_int64 bs value :
  parse_value bs = Ok (Some value) -> fits_signed 8 (value_offset value) = true.
Proof.
  unfold parse_value. intros H.
  destruct (read_short bs) as [[v r]|] eqn:E0; [|discriminate].
  cbn [mbind result_bind] in H.
  destruct (v =? 0).
  - destruct (read_long_long r) as [[o r1]|] eqn:E1; [|discriminate].
    cbn [mbind result_bind] in H.
    destruct (read_string r1) as [[s r2]|]; [|discriminate].
    cbn [mbind result_bind] in H.
    destruct (read_long_long r2) as [[t r3]|]; [|discriminate].
    cbn [mbind result_bind] in H.
    injection H as <-. eapply read_long_long_int64, E1.
  - destruct (v =? 1); [|discriminate].
    destruct (read_long_long r) as [[o r1]|] eqn:E1; [|discriminate].
    cbn [mbind result_bind] in H.
    destruct (read_string r1) as [[s r2]|]; [|discriminate].
    cbn [mbind result_bind] in H.
    destruct (read_long_long r2) as [[t r3]|]; [|discriminate].
    cbn [mbind result_bind] in H.
    destruct (read_long_long r3) as [[t' r4]|]; [|discriminate].
    cbn [mbind result_bind] in H.
    injection H as <-. eapply read_long_long_int64, E1.
Qed.

(** ** The registry *)

Lemma elem_of_keys (m : gmap pystr Metric) (k : pystr) :
  k ∈ map fst (map_to_list m) <-> is_Some (m !! k).
Proof.
  change (map fst (map_to_list m)) with (fst <$> map_to_list m).
  rewrite list_elem_of_fmap. split.
  - intros [[k' x] [-> H]]. apply elem_of_map_to_list in H. eauto.
  - intros [x H]. exists (k, x). split; [reflexivity|].
    apply elem_of_map_to_list. exact H.
Qed.

Lemma elem_of_flat_map_names (kind : MetricKind) (m : gmap pystr Metric) (n : pystr) :
  n ∈ flat_map (timeseries_names kind) (map fst (map_to_list m))
  <-> exists k, is_Some (m !! k) /\ n ∈ timeseries_names kind k.
Proof.
  rewrite list_elem_of_In, in_flat_map. split.
  - intros [k [Hk Hn]]. exists k. split.
    + apply elem_of_keys, list_elem_of_In, Hk.
    + apply list_elem_of_In, Hn.
  - intros [k [Hk Hn]]. exists k. split.
    + apply list_elem_of_In, elem_of_keys, Hk.
    + apply list_elem_of_In, Hn.
Qed.

Lemma elem_of_registry_names w n :
  n ∈ registry_names w
  <-> n ∈ library_names w
      \/ (exists k, is_Some (gauges w !! k) /\ n ∈ timeseries_names GaugeKind k)
      \/ (exists k, is_Some (counters w !! k) /\ n ∈ timeseries_names CounterKind k).
Proof.
  unfold registry_names.
  rewrite !elem_of_app, !elem_of_flat_map_names. reflexivity.
Qed.

(** Putting a metric in a dict adds its timeseries names to the registry,
    where they are not held already. *)
Lemma registry_names_store_metric (kind : MetricKind) name m w n :
  n ∈ registry_names (store_metric kind name m w)
  <-> n ∈ registry_names w \/ n ∈ timeseries_names kind name.
Proof.
  rewrite !elem_of_registry_names.
  destruct kind; cbn [store_metric gauges counters library_names set_gauges set_counters].
  - split.
    + intros [H|[(k & Hk & Hn)|H]]; [tauto| |tauto].
      apply lookup_insert_is_Some in Hk. destruct Hk as [<-|[_ Hk]]; [tauto|].
      left. right. left. eauto.
    + intros [[H|[(k & Hk & Hn)|H]]|H]; [tauto| |tauto|].
      * right. left. exists k. split; [|exact Hn].
        apply lookup_insert_is_Some. destruct (decide (name = k)); auto.
      * right. left. exists name. split; [|exact H].
        apply lookup_insert_is_Some. auto.
  - split.
    + intros [H|[H|(k & Hk & Hn)]]; [tauto|tauto|].
      apply lookup_insert_is_Some in Hk. destruct Hk as [<-|[_ Hk]]; [tauto|].
      left. right. right. eauto.
    + intros [[H|[H|(k & Hk & Hn)]]|H]; [tauto|tauto| |].
      * right. right. exists k. split; [|exact Hn].
        apply lookup_insert_is_Some. destruct (decide (name = k)); auto.
      * right. right. exists name. split; [|exact H].
        apply lookup_insert_is_Some. auto.
Qed.

Lemma existsb_registered_false (names registered : list pystr) :
  existsb (fun s : pystr => bool_decide (s ∈ registered)) names = false
  <-> forall s, s ∈ names -> s ∉ registered.
Proof.
  induction names as [|x xs IH]; cbn [existsb].
  - split; [|reflexivity]. intros _ s Hs. inversion Hs.
  - rewrite orb_false_iff, IH, bool_decide_eq_false. split.
    + intros [Hx Hxs] s Hs. apply elem_of_cons in Hs. destruct Hs as [->|Hs]; auto.
    + intros H. split; [apply H; left|]. intros s Hs. apply H. right. exact Hs.
Qed.

Lemma names_apart_spec (kind1 : MetricKind) name1 (kind2 : MetricKind) name2 :
  names_apart kind1 name1 kind2 name2 = true
  <-> forall s, s ∈ timeseries_names kind1 name1 -> s ∉ timeseries_names kind2 name2.
Proof.
  unfold names_apart. rewrite forallb_forall. split.
  - intros H s Hs. apply list_elem_of_In, H in Hs.
    apply negb_true_iff, bool_decide_eq_false in Hs. exact Hs.
  - intros H s Hs. apply negb_true_iff, bool_decide_eq_false, H, list_elem_of_In, Hs.
Qed.

Lemma metrics_of_store_metric (kind' kind : MetricKind) name m w name' :
  metrics_of kind' (store_metric kind name m w) !! name'
  = if decide (kind' = kind /\ name' = name) then Some m
    else metrics_of kind' w !! name'.
Proof.
  destruct (decide (kind' = kind /\ name' = name)) as [[-> ->]|Hne].
  - destruct kind; cbn; apply lookup_insert_eq.
  - destruct kind', kind; cbn; try reflexivity;
      apply lookup_insert_ne; intros ->; apply Hne; auto.
Qed.

(** A metric that can be constructed is constructed. *)
Lemma new_metric_ready (kind : MetricKind) name keys n w :
  metrics_of kind w !! name = None -> metric_ready kind name n w = true ->
  forallb valid_label_name keys = true ->
  valid_metric_name (full_name kind name) = true ->
  new_metric kind name keys (registry_names w)
  = Ok {| labelnames := keys; own_value := 0%float; children := ∅ |}.
Proof.
  unfold metric_ready. intros -> Hr Hl Hn. apply negb_true_iff in Hr.
  unfold new_metric. rewrite Hl, Hn, Hr. reflexivity.
Qed.

(** Putting a metric in a dict keeps another metric ready when the names
    of the two are apart, and the metric itself when the object has the
    right number of label names. *)
Lemma metric_ready_store_metric (kind' : MetricKind) name' n' (kind : MetricKind) name m w :
  metric_ready kind' name' n' w = true ->
  (kind' = kind /\ name' = name /\ length (labelnames m) = n')
  \/ names_apart kind' name' kind name = true ->
  metric_ready kind' name' n' (store_metric kind name m w) = true.
Proof.
  unfold metric_ready. intros Hr Hcase.
  rewrite metrics_of_store_metric.
  destruct (decide (kind' = kind /\ name' = name)) as [[-> ->]|Hne].
  - destruct Hcase as [(_ & _ & Hlen)|Ha]; [apply bool_decide_eq_true_2, Hlen|].
    exfalso. rewrite names_apart_spec in Ha.
    apply (Ha (full_name kind name)); destruct kind; cbn; left.
  - destruct (metrics_of kind' w !! name'); [exact Hr|].
    destruct Hcase as [(-> & -> & _)|Ha]; [exfalso; apply Hne; auto|].
    apply negb_true_iff in Hr. apply negb_true_iff.
    rewrite existsb_registered_false in Hr |- *.
    rewrite names_apart_spec in Ha.
    intros s Hs Hin. apply registry_names_store_metric in Hin.
    destruct Hin as [Hin|Hin]; [exact (Hr s Hs Hin)|exact (Ha s Hs Hin)].
Qed.

(** Where a metric is ready, an update with the right number of valid label
    names is accepted. *)
Lemma update_gauge_ready w name labels value v n :
  metric_ready GaugeKind name n w = true ->
  length labels = n ->
  forallb valid_label_name (dict_keys labels) = true ->
  valid_metric_name name = true ->
  py_float value = Ok v ->
  exists g,
    length (labelnames g) = n /\
    (forall g0, gauges w !! name = Some g0 -> g = g0) /\
    (gauges w !! name = None -> children g = ∅) /\
    update_gauge name labels value w
    = (set_gauges (<[name := store_sample (label_key labels) v g]> (gauges w)) w, Ok tt).
Proof.
  intros Hr Hlen Hl Hn Hv.
  destruct (gauges w !! name) as [g0|] eqn:Hg.
  - unfold metric_ready in Hr. cbn [metrics_of] in Hr. rewrite Hg in Hr.
    apply bool_decide_eq_true_1 in Hr. exists g0.
    split; [exact Hr|]. split; [congruence|]. split; [discriminate|].
    apply update_gauge_registered; [exact Hg | congruence | exact Hv].
  - set (g := {| labelnames := dict_keys labels; own_value := 0%float;
                 children := ∅ |}).
    pose proof (new_metric_ready GaugeKind name (dict_keys labels) n w Hg Hr Hl Hn)
      as En. fold g in En.
    exists g. split; [cbn; rewrite dict_keys_length; exact Hlen|].
    split; [discriminate|]. split; [reflexivity|].
    rewrite (update_gauge_new _ _ _ _ _ Hg En).
    rewrite (update_gauge_registered _ _ _ _ g v).
    + unfold set_gauges.
      cbn [gauges counters library_names topics highwater log sent callbacks
           scheduled].
      rewrite insert_insert_eq. reflexivity.
    + cbn [gauges set_gauges]. apply lookup_insert_eq.
    + cbn. rewrite dict_keys_length. reflexivity.
    + exact Hv.
Qed.

Lemma increment_counter_ready w name labels n :
  metric_ready CounterKind name n w = true ->
  length labels = n ->
  forallb valid_label_name (dict_keys labels) = true ->
  valid_metric_name (full_name CounterKind name) = true ->
  exists c,
    length (labelnames c) = n /\
    (forall c0, counters w !! name = Some c0 -> c = c0) /\
    (counters w !! name = None -> children c = ∅) /\
    increment_counter name labels w
    = (set_counters
         (<[name := store_sample (label_key labels)
                      (default 0%float (sample (counters w) name (label_key labels)) + 1)%float
                      c]> (counters w)) w, Ok tt).
Proof.
  intros Hr Hlen Hl Hn.
  assert (Hret : exists w1, increment_counter name labels w = (w1, Ok tt)).
  { destruct (counters w !! name) as [c0|] eqn:Hc.
    - unfold metric_ready in Hr. cbn [metrics_of] in Hr. rewrite Hc in Hr.
      apply bool_decide_eq_true_1 in Hr. eexists.
      apply (increment_counter_registered _ _ _ c0); [exact Hc | congruence].
    - pose proof (new_metric_ready CounterKind name (dict_keys labels) n w Hc Hr Hl Hn)
        as En.
      unfold increment_counter. run_M. rewrite Hc, En.
      cbn beta iota. cbn [counters set_counters].
      rewrite lookup_insert_eq.
      pose proof (dict_values_length labels) as Hd.
      pose proof (dict_keys_length labels) as Hk.
      destruct (dict_values labels) as [|x xs] eqn:Ex.
      + destruct (dict_keys labels) eqn:Ek; [|cbn in *; lia].
        unfold check_observable. cbn [labelnames]. eexists. reflexivity.
      + unfold metric_labels. cbn [labelnames children].
        destruct (dict_keys labels) eqn:Ek; [cbn in *; lia|].
        rewrite bool_decide_eq_true_2 by (cbn in *; lia).
        rewrite lookup_empty. eexists. reflexivity. }
  destruct Hret as [w1 H1].
  destruct (increment_counter_ok _ _ _ _ H1) as (c & Hlc & Hnew & Hreg & Hcur & ->).
  destruct (counters w !! name) as [c0|] eqn:Hc.
  - unfold metric_ready in Hr. cbn [metrics_of] in Hr. rewrite Hc in Hr.
    apply bool_decide_eq_true_1 in Hr. rewrite <- (Hreg c0 eq_refl) in Hr.
    exists c. split; [exact Hr|]. split; [exact Hreg|]. split; [discriminate|].
    rewrite H1, Hcur. reflexivity.
  - destruct (increment_counter_first _ _ _ _ Hc H1) as (c1 & En & Hl1 & Hw).
    destruct (new_metric_labelnames _ _ _ _ _ En) as (_ & _ & Hch).
    exists c1. split; [rewrite Hl1, dict_keys_length; exact Hlen|].
    split; [discriminate|]. split; [intros _; exact Hch|].
    rewrite H1, Hw. unfold sample. rewrite Hc. reflexivity.
Qed.

Ltac name_neq :=
  let H := fresh in intros H; vm_compute in H; discriminate H.

Lemma store_ready_split w :
  store_ready w = true <->
  metric_ready GaugeKind exporter_offset_name 1 w = true /\
  metric_ready GaugeKind offset_name 3 w = true /\
  metric_ready CounterKind commits_name 3 w = true.
Proof. unfold store_ready. rewrite !andb_true_iff. tauto. Qed.

(** Putting one of the three metrics of the loop in its dict, with the
    label names the loop gives it, keeps the store ready. *)
Lemma store_ready_store_metric w kind name m n :
  store_ready w = true ->
  (kind = GaugeKind /\ name = exporter_offset_name /\ n = 1%nat)
  \/ (kind = GaugeKind /\ name = offset_name /\ n = 3%nat)
  \/ (kind = CounterKind /\ name = commits_name /\ n = 3%nat) ->
  length (labelnames m) = n ->
  store_ready (store_metric kind name m w) = true.
Proof.
  intros Hr Hname Hlen. apply store_ready_split in Hr.
  destruct Hr as (H1 & H2 & H3). apply store_ready_split.
  destruct Hname as [(-> & -> & ->)|[(-> & -> & ->)|(-> & -> & ->)]];
    (split; [|split]); apply metric_ready_store_metric; try assumption;
    first [left; repeat split; exact Hlen | right; vm_compute; reflexivity].
Qed.
Lemma update_gauge_other_gauges name labels value w name' :
  name' <> name ->
  gauges (update_gauge name labels value w).1 !! name' = gauges w !! name'.
Proof.
  intros Hne.
  assert (Hreg : forall w0 g, gauges w0 !! name = Some g ->
            gauges (update_gauge name labels value w0).1 !! name' = gauges w0 !! name').
  { intros w0 g Hg. unfold update_gauge. run_M. rewrite Hg. cbn beta iota.
    rewrite Hg.
    destruct (dict_values labels) as [|x xs].
    - destruct (check_observable g) as [[]|e]; [|reflexivity].
      destruct (py_float value) as [v|e]; [|reflexivity].
      cbn [fst gauges set_gauges]. apply lookup_insert_ne. congruence.
    - destruct (metric_labels (x :: xs) g) as [[key g']|e]; [|reflexivity].
      cbn beta iota.
      destruct (py_float value) as [v|e]; cbn [fst gauges set_gauges];
        apply lookup_insert_ne; congruence. }
  destruct (gauges w !! name) as [g|] eqn:Hg; [exact (Hreg w g Hg)|].
  destruct (new_metric GaugeKind name (dict_keys labels) (registry_names w))
    as [g|e] eqn:En.
  - rewrite (update_gauge_new _ _ _ _ _ Hg En).
    rewrite (Hreg _ g) by (cbn [gauges set_gauges]; apply lookup_insert_eq).
    cbn [gauges set_gauges]. apply lookup_insert_ne. congruence.
  - unfold update_gauge. run_M. rewrite Hg, En. reflexivity.
Qed.

Lemma increment_counter_gauges name labels w :
  gauges (increment_counter name labels w).1 = gauges w.
Proof.
  unfold increment_counter. run_M.
  destruct (counters w !! name) as [c|] eqn:Hc.
  - cbn beta iota. rewrite Hc.
    destruct (dict_values labels) as [|x xs].
    + destruct (check_observable c) as [[]|e]; reflexivity.
    + destruct (metric_labels (x :: xs) c) as [[key c']|e]; reflexivity.
  - destruct (new_metric CounterKind name (dict_keys labels) (registry_names w))
      as [c|e]; [|reflexivity].
    cbn beta iota. cbn [counters set_counters]. rewrite lookup_insert_eq.
    destruct (dict_values labels) as [|x xs].
    + destruct (check_observable c) as [[]|e]; reflexivity.
    + destruct (metric_labels (x :: xs) c) as [[key c']|e]; reflexivity.
Qed.

Lemma sample_lookup (reg reg' : gmap pystr Metric) name key :
  reg' !! name = reg !! name -> sample reg' name key = sample reg name key.
Proof. unfold sample. intros ->. reflexivity. Qed.

(** The first statement of the loop body, where its gauge is ready. *)
Lemma exporter_offset_gauge_ready message w :
  metric_ready GaugeKind exporter_offset_name 1 w = true ->
  message_offset_ok message = true ->
  exists g,
    length (labelnames g) = 1%nat /\
    exporter_offset_gauge message w
    = (store_metric GaugeKind exporter_offset_name g w, Ok tt) /\
    forall name' key',
      sample (<[exporter_offset_name := g]> (gauges w)) name' key'
      = if decide (name' = exporter_offset_name
                   /\ key' = [py_str (PInt (msg_partition message))])
        then Some (py_float_value (msg_offset message))
        else sample (gauges w) name' key'.
Proof.
  intros H1 Ho.
  destruct (update_gauge_ready w exporter_offset_name
              [(py "partition", PInt (msg_partition message))]
              (NInt (msg_offset message)) (py_float_value (msg_offset message)) 1 H1)
    as (g & Hlen & Hreg & Hnew & E);
    [reflexivity | reflexivity | reflexivity | apply py_float_int64, Ho |].
  eexists. split; [|split; [exact E|]].
  - rewrite labelnames_store_sample. exact Hlen.
  - intros name' key'.
    apply sample_insert_store_sample; [|exact Hreg|exact Hnew].
    intros Hn. rewrite Hn in Hlen. discriminate.
Qed.

(** The two updates for a decoded commit, in a ready store. *)
Lemma publish_commit_ready group topic partition o w :
  store_ready w = true -> fits_signed 8 o = true ->
  exists w',
    (_ ← update_gauge (METRIC_PREFIX ++ py "offset")
           (offset_labels group topic partition) (NInt o);
     increment_counter (METRIC_PREFIX ++ py "commits")
       (offset_labels group topic partition)) w = (w', Ok tt) /\
    store_ready w' = true /\
    (forall name' key',
       sample (gauges w') name' key'
       = if decide (name' = offset_name
                    /\ key' = [group; topic; py_str (PInt partition)])
         then Some (py_float_value o)
         else sample (gauges w) name' key') /\
    (forall name' key',
       sample (counters w') name' key'
       = if decide (name' = commits_name
                    /\ key' = [group; topic; py_str (PInt partition)])
         then Some (default 0%float
                      (sample (counters w) commits_name
                         [group; topic; py_str (PInt partition)]) + 1)%float
         else sample (counters w) name' key').
Proof.
  intros Hr Ho. pose proof Hr as Hr'. apply store_ready_split in Hr'.
  destruct Hr' as (_ & H2 & _).
  destruct (update_gauge_ready w offset_name (offset_labels group topic partition)
              (NInt o) (py_float_value o) 3 H2)
    as (g & Hlen & Hreg & Hnew & E);
    [reflexivity | reflexivity | reflexivity | apply py_float_int64, Ho |].
  set (g1 := store_sample _ _ g) in E.
  change (set_gauges (<[offset_name := g1]> (gauges w)) w)
    with (store_metric GaugeKind offset_name g1 w) in E.
  set (w1 := store_metric GaugeKind offset_name g1 w) in E.
  assert (Hr1 : store_ready w1 = true).
  { apply (store_ready_store_metric _ _ _ _ 3%nat); auto.
    unfold g1. rewrite labelnames_store_sample. exact Hlen. }
  pose proof Hr1 as Hr1'. apply store_ready_split in Hr1'.
  destruct Hr1' as (_ & _ & H3).
  destruct (increment_counter_ready w1 commits_name
              (offset_labels group topic partition) 3 H3)
    as (c & Hlenc & Hregc & Hnewc & Ec);
    [reflexivity | reflexivity | reflexivity |].
  set (c1 := store_sample _ _ c) in Ec.
  change (set_counters (<[commits_name := c1]> (counters w1)) w1)
    with (store_metric CounterKind commits_name c1 w1) in Ec.
  eexists. split; [|split; [|split]].
  - unfold mbind, M_bind. change (METRIC_PREFIX ++ py "offset") with offset_name.
    rewrite E. change (METRIC_PREFIX ++ py "commits") with commits_name.
    exact Ec.
  - apply (store_ready_store_metric _ _ _ _ 3%nat); auto.
    unfold c1. rewrite labelnames_store_sample. exact Hlenc.
  - intros name' key'. cbn [store_metric gauges set_counters]. unfold w1.
    cbn [store_metric gauges set_gauges].
    apply sample_insert_store_sample; [|exact Hreg|exact Hnew].
    intros Hn. rewrite Hn in Hlen. discriminate.
  - intros name' key'. cbn [store_metric counters set_counters]. unfold c1.
    rewrite sample_insert_store_sample; [|
      intros Hn; rewrite Hn in Hlenc; discriminate | exact Hregc | exact Hnewc].
    reflexivity.
Qed.
(** The loop body after its first statement has returned. *)
Lemma process_message_unfold message w w1 :
  exporter_offset_gauge message w = (w1, Ok tt) ->
  process_message message w
  = match msg_key message, msg_value message with
    | Some (kb :: kbs), Some (vb :: vbs) =>
      match parse_key (kb :: kbs) with
      | Raise e => (w1, Raise e)
      | Ok None => (w1, Ok tt)
      | Ok (Some (version, group, topic, partition)) =>
        match parse_value (vb :: vbs) with
        | Raise e => (w1, Raise e)
        | Ok None => (w1, Raise TypeError)
        | Ok (Some value) =>
          (_ ← update_gauge (METRIC_PREFIX ++ py "offset")
                 (offset_labels group topic partition) (NInt (value_offset value));
           increment_counter (METRIC_PREFIX ++ py "commits")
             (offset_labels group topic partition)) w1
        end
      end
    | _, _ => (w1, Ok tt)
    end.
Proof.
  intros Hg. unfold process_message. unfold exporter_offset_gauge in Hg.
  unfold mbind at 1. unfold M_bind at 1. rewrite Hg.
  destruct (msg_key message) as [[|kb kbs]|]; try reflexivity;
    destruct (msg_value message) as [[|vb vbs]|]; try reflexivity.
  unfold mbind at 1. unfold M_bind at 1. unfold lift at 1.
  destruct (parse_key (kb :: kbs)) as [[[[[version group] topic] partition]|]|e];
    try reflexivity.
  unfold mbind at 1. unfold M_bind at 1. unfold lift at 1.
  destruct (parse_value (vb :: vbs)) as [[value|]|e]; reflexivity.
Qed.

Lemma publish_commit_other_gauges group topic partition value w name' :
  name' <> offset_name ->
  gauges ((_ ← update_gauge (METRIC_PREFIX ++ py "offset")
                 (offset_labels group topic partition) (NInt value);
           increment_counter (METRIC_PREFIX ++ py "commits")
             (offset_labels group topic partition)) w).1 !! name'
  = gauges w !! name'.
Proof.
  intros Hne. unfold mbind, M_bind.
  pose proof (update_gauge_other_gauges offset_name
                (offset_labels group topic partition) (NInt value) w name' Hne) as Hu.
  change (METRIC_PREFIX ++ py "offset") with offset_name.
  destruct (update_gauge offset_name _ _ w) as [w1 [[]|e]]; cbn [fst] in Hu.
  - rewrite increment_counter_gauges. exact Hu.
  - exact Hu.
Qed.

(** One pass of the loop body in a ready store: the store stays ready and
    the body returns or raises one of the exceptions of
    [leaves_loop_with]. *)
Lemma process_message_ready message w :
  store_ready w = true -> message_offset_ok message = true ->
  store_ready (process_message message w).1 = true /\
  leaves_loop_with (process_message message w).2 = true.
Proof.
  intros Hr Ho. pose proof Hr as Hr'. apply store_ready_split in Hr'.
  destruct Hr' as (H1 & _).
  destruct (exporter_offset_gauge_ready message w H1 Ho) as (g & Hlen & E & _).
  set (w1 := store_metric GaugeKind exporter_offset_name g w) in E.
  assert (Hr1 : store_ready w1 = true)
    by (apply (store_ready_store_metric _ _ _ _ 1%nat); auto).
  rewrite (process_message_unfold _ _ _ E).
  assert (Hstay : forall r, leaves_loop_with r = true ->
            store_ready (w1, r).1 = true /\ leaves_loop_with (w1, r).2 = true)
    by (cbn [fst snd]; auto).
  destruct (msg_key message) as [[|kb kbs]|]; try (apply Hstay; reflexivity);
    destruct (msg_value message) as [[|vb vbs]|]; try (apply Hstay; reflexivity).
  destruct (parse_key (kb :: kbs)) as [[[[[version group] topic] partition]|]|e] eqn:Ek.
  - destruct (parse_value (vb :: vbs)) as [[value|]|e] eqn:Ev.
    + destruct (publish_commit_ready group topic partition (value_offset value) w1 Hr1
                  (parse_value_offset_int64 _ _ Ev)) as (w3 & E3 & Hr3 & _).
      rewrite E3. cbn [fst snd]. split; [exact Hr3|reflexivity].
    + apply Hstay. reflexivity.
    + apply Hstay. apply parse_value_raises in Ev.
      destruct e; try discriminate; reflexivity.
  - apply Hstay. reflexivity.
  - apply Hstay. apply parse_key_raises in Ek.
    destruct e; try discriminate; reflexivity.
Qed.

(** X17: A regular commit message in a ready store, where each of the
    loop's three metrics is registered with the label names the loop gives
    it or the registry holds none of its timeseries names: the body
    returns, the committed offset is the sample of the offset gauge for the
    key's group, topic and partition, the commit counter of these labels is
    one above what it was, the exporter's own position is published, and no
    other sample changes. *)
Theorem process_message_publishes_commit
    (message : Message) (kb vb : bytes) (version : Z) (group topic : pystr)
    (partition : Z) (value : value_tuple) (w : World) :
  store_ready w = true -> message_offset_ok message = true ->
  msg_key message = Some kb -> msg_value message = Some vb ->
  parse_key kb = Ok (Some (version, group, topic, partition)) ->
  parse_value vb = Ok (Some value) ->
  let labels := [group; topic; py_str (PInt partition)] in
  exists w',
    process_message message w = (w', Ok tt) /\
    (forall name' key',
       sample (gauges w') name' key'
       = if decide (name' = offset_name /\ key' = labels)
         then Some (py_float_value (value_offset value))
         else if decide (name' = exporter_offset_name
                         /\ key' = [py_str (PInt (msg_partition message))])
         then Some (py_float_value (msg_offset message))
         else sample (gauges w) name' key') /\
    (forall name' key',
       sample (counters w') name' key'
       = if decide (name' = commits_name /\ key' = labels)
         then Some (default 0%float (sample (counters w) commits_name labels) + 1)%float
         else sample (counters w) name' key').
Proof.
  intros Hr Ho Hk Hv Hpk Hpv labels.
  pose proof Hr as Hr'. apply store_ready_split in Hr'. destruct Hr' as (H1 & _).
  destruct (exporter_offset_gauge_ready message w H1 Ho) as (g & Hlen & E & Hs).
  set (w1 := store_metric GaugeKind exporter_offset_name g w) in E.
  assert (Hr1 : store_ready w1 = true)
    by (apply (store_ready_store_metric _ _ _ _ 1%nat); auto).
  destruct (publish_commit_ready group topic partition (value_offset value) w1 Hr1
              (parse_value_offset_int64 _ _ Hpv)) as (w3 & E3 & Hr3 & Hg3 & Hc3).
  exists w3. split; [|split].
  - rewrite (process_message_unfold _ _ _ E), Hk, Hv.
    destruct kb as [|kb0 kbs]; [discriminate Hpk|].
    destruct vb as [|vb0 vbs]; [discriminate Hpv|].
    rewrite Hpk, Hpv. exact E3.
  - intros name' key'. rewrite Hg3. unfold w1. cbn [store_metric gauges set_gauges].
    rewrite Hs. reflexivity.
  - intros name' key'. rewrite Hc3. reflexivity.
Qed.

Lemma process_message_publishes_commit_witness :
  let message := commit_message 7 value_v0 in
  let labels := [py "g1"; py "t1"; py_str (PInt 0)] in
  exists w',
    process_message message empty_world = (w', Ok tt) /\
    (forall name' key',
       sample (gauges w') name' key'
       = if decide (name' = offset_name /\ key' = labels)
         then Some (py_float_value 42)
         else if decide (name' = exporter_offset_name /\ key' = [py_str (PInt 3)])
         then Some (py_float_value 7)
         else sample (gauges empty_world) name' key') /\
    (forall name' key',
       sample (counters w') name' key'
       = if decide (name' = commits_name /\ key' = labels)
         then Some (default 0%float (sample (counters empty_world) commits_name labels)
                    + 1)%float
         else sample (counters empty_world) name' key').
Proof.
  apply (process_message_publishes_commit (commit_message 7 value_v0)
           commit_key value_v0 1 (py "g1") (py "t1") 0 (Value4 0 42 [] 0) empty_world);
    vm_compute; reflexivity.
Defined.

(** X18: The store never refuses an update of the loop: from a ready store
    and for messages with 64-bit offsets, the loop returns or is left by a
    decode error or by the [TypeError] of a value of unknown version, never
    by an exception of the metric library or of [float]; and the store is
    ready again afterwards. *)
Theorem consume_left_only_by_decode_failure (messages : list Message) (w : World) :
  store_ready w = true -> forallb message_offset_ok messages = true ->
  store_ready (consume messages w).1 = true /\
  leaves_loop_with (consume messages w).2 = true.
Proof.
  revert w. induction messages as [|message rest IH]; intros w Hr Ho.
  - split; [exact Hr|reflexivity].
  - cbn [forallb] in Ho. apply andb_true_iff in Ho. destruct Ho as [Ho Hrest].
    destruct (process_message_ready message w Hr Ho) as (Hr1 & Hl1).
    cbn [consume]. unfold mbind, M_bind.
    destruct (process_message message w) as [w1 [[]|e]].
    + apply IH; [exact Hr1|exact Hrest].
    + split; [exact Hr1|exact Hl1].
Qed.

Lemma consume_left_only_by_decode_failure_witness :
  let messages := [commit_message 7 value_v0; commit_message 8 value_v1_truncated;
                   commit_message 9 value_v0] in
  store_ready (consume messages empty_world).1 = true /\
  leaves_loop_with (consume messages empty_world).2 = true.
Proof.
  apply (consume_left_only_by_decode_failure
           [commit_message 7 value_v0; commit_message 8 value_v1_truncated;
            commit_message 9 value_v0] empty_world);
    vm_compute; reflexivity.
Defined.

(** X19: The exporter's own position is published for every message,
    whatever the rest of the body does with it. Where the exporter offset
    gauge is registered with its one label name, or can be registered,
    then after the body, returned or raised, and also when the library
    refuses the body's other updates, the sample of the exporter offset
    gauge for the message's partition is the message's offset. *)
Theorem exporter_offset_published_for_every_message (message : Message) (w : World) :
  metric_ready GaugeKind exporter_offset_name 1 w = true ->
  message_offset_ok message = true ->
  sample (gauges (process_message message w).1) exporter_offset_name
    [py_str (PInt (msg_partition message))]
  = Some (py_float_value (msg_offset message)).
Proof.
  intros H1 Ho.
  destruct (exporter_offset_gauge_ready message w H1 Ho) as (g & Hlen & E & Hs).
  set (w1 := store_metric GaugeKind exporter_offset_name g w) in E.
  assert (Hs1 : sample (gauges w1) exporter_offset_name
                  [py_str (PInt (msg_partition message))]
                = Some (py_float_value (msg_offset message))).
  { unfold w1. cbn [store_metric gauges set_gauges].
    rewrite Hs. rewrite decide_True by auto. reflexivity. }
  rewrite (process_message_unfold _ _ _ E).
  destruct (msg_key message) as [[|kb kbs]|]; try exact Hs1;
    destruct (msg_value message) as [[|vb vbs]|]; try exact Hs1.
  destruct (parse_key (kb :: kbs)) as [[[[[version group] topic] partition]|]|e];
    try exact Hs1.
  destruct (parse_value (vb :: vbs)) as [[value|]|e]; try exact Hs1.
  rewrite <- Hs1. apply sample_lookup, publish_commit_other_gauges. name_neq.
Qed.

Lemma exporter_offset_published_for_every_message_witness :
  let w := store_metric CounterKind offset_name
             {| labelnames := []; own_value := 0%float; children := ∅ |} empty_world in
  let message := commit_message 8 value_v0 in
  sample (gauges (process_message message w).1) exporter_offset_name
    [py_str (PInt 3)]
  = Some (py_float_value 8).
Proof.
  apply (exporter_offset_published_for_every_message
           (commit_message 8 value_v0)
           (store_metric CounterKind offset_name
              {| labelnames := []; own_value := 0%float; children := ∅ |} empty_world));
    vm_compute; reflexivity.
Defined.

(** X20: Messages the body passes over: without a key or a value, with an empty
    one, or with a key whose version is neither 0 nor 1. The body then does
    what its first statement does and nothing else; the value is not
    decoded. *)
Theorem process_message_passes_over (message : Message) (w : World) :
  msg_key message = None \/ msg_key message = Some [] \/
  msg_value message = None \/ msg_value message = Some [] \/
  (exists kb version,
     msg_key message = Some kb /\ unpack_from 2 kb = Ok version /\
     version <> 0 /\ version <> 1) ->
  process_message message w = exporter_offset_gauge message w.
Proof.
  intros H. unfold process_message, exporter_offset_gauge.
  unfold mbind at 1. unfold M_bind at 1.
  destruct (update_gauge _ _ _ w) as [w1 [[]|e]]; [|reflexivity].
  destruct H as [->|[->|[->|[->|(kb & version & -> & Hu & H0 & H1)]]]];
    try reflexivity;
    try (destruct (msg_key message) as [[|? ?]|]; reflexivity).
  destruct kb as [|kb0 kbs]; [reflexivity|].
  destruct (msg_value message) as [[|vb0 vbs]|]; try reflexivity.
  unfold mbind at 1. unfold M_bind at 1. unfold lift at 1.
  unfold parse_key, read_short. rewrite Hu. cbn [mbind result_bind].
  destruct (Z.eqb_spec version 1); [contradiction|].
  destruct (Z.eqb_spec version 0); [contradiction|].
  reflexivity.
Qed.

Lemma process_message_passes_over_witness :
  let message := {| msg_partition := 3; msg_offset := 7;
                    msg_key := Some (pack_be 2 2 ++ pack_be 2 0);
                    msg_value := Some value_v0 |} in
  process_message message empty_world = exporter_offset_gauge message empty_world.
Proof.
  apply (process_message_passes_over
           {| msg_partition := 3; msg_offset := 7;
              msg_key := Some (pack_be 2 2 ++ pack_be 2 0);
              msg_value := Some value_v0 |} empty_world).
  right. right. right. right. exists (pack_be 2 2 ++ pack_be 2 0), 2.
  repeat split; [lia | lia].
Defined.
